(** * muvsfunc_misc.GPA: Gaussian-polynomial approximation of the bilateral filter

    A shallow embedding of [GPA] and of its nested helper
    [estimate_iteration] (src/Collections/muvsfunc_misc.py, lines 330-429).

    Numbers.  Python [float]s and the 32-bit samples of the frame engine are
    idealised as real numbers ([R]): rounding, overflow, infinities and NaN
    are not modelled.  What Python raises on reals is modelled: [a / b]
    raises ZeroDivisionError when [b] is zero, [math.log(x)] raises
    ValueError when [x <= 0], [math.sqrt(i)] when [i < 0]; a raised
    exception is [None], and the first one ends the call.  Where a
    statement would not survive the rounding or the range of the floats, it
    keeps to the inputs on which it does: that the estimator returns is
    stated for [T >= 2^-100], where no power leaves the range of a double,
    and exact facts about stored samples are stated for integer formats of
    at most 16 bits, whose values 32-bit floats hold exactly.

    The engine.  Clips, the depth converter and the two smoothing filters
    belong to the frame engine and enter as the fields of [Engine]; the
    expression evaluator is modelled down to its reverse Polish programs,
    since those are what GPA writes.

    Layout.  Definitions come first: the Python layer, [estimate_iteration],
    the evaluator, [GPA]; then the recurrence and the estimator as the
    specification words them ([Spec], [EstimatorSpec]); then a small engine
    to run the definitions on.  The properties follow. *)

From Stdlib Require Import Reals Lra Lia ZArith List Bool.
From Stdlib Require Import FunctionalExtensionality.
Import ListNotations.

Local Open Scope R_scope.

(** ** Exceptions as [option] *)

Definition bind {A B : Type} (m : option A) (k : A -> option B) : option B :=
  match m with
  | Some a => k a
  | None => None
  end.

Notation "x <- m ;; k" := (bind m (fun x => k))
  (at level 61, m at next level, right associativity).

(** [for i in xs: acc = body(i, acc)], stopping at the first exception. *)
Fixpoint for_each {I S : Type} (xs : list I) (body : I -> S -> option S)
  (acc : S) : option S :=
  match xs with
  | [] => Some acc
  | i :: rest => acc' <- body i acc ;; for_each rest body acc'
  end.

(** Python's [range(a, b)] on integers. *)
Definition range (a b : Z) : list Z :=
  map (fun k => (a + Z.of_nat k)%Z) (seq 0 (Z.to_nat (b - a))).

(** ** The [math] module and float arithmetic *)

(** [a / b] on floats. *)
Definition py_div (a b : R) : option R :=
  if Req_dec_T b 0 then None else Some (a / b).

(** [math.log(x)]. *)
Definition math_log (x : R) : option R :=
  if Rlt_dec 0 x then Some (ln x) else None.

(** [math.e]. *)
Definition math_e : R := exp 1.

(** [math.sqrt(i)] for an integer [i]. *)
Definition math_sqrt (i : Z) : option R :=
  if (i <? 0)%Z then None else Some (sqrt (IZR i)).

(** [math.ceil(x)]: the least integer that is not below [x]. *)
Definition math_ceil (x : R) : Z := Zceil x.

(** [max(a, b)] and [min(a, b)] on two floats. *)
Definition py_max (a b : R) : R := if Rlt_dec a b then b else a.
Definition py_min (a b : R) : R := if Rlt_dec b a then b else a.

(** ** [estimate_iteration] (lines 378-395) *)

(** The body of [for i in range(5)]:
    [N -= (N * math.log(N) - p * N - q) / (math.log(N) + 1 - p)]. *)
Definition newton_body (p q : R) (_ : Z) (N : R) : option R :=
  l1 <- math_log N ;;
  l2 <- math_log N ;;
  d <- py_div (N * l1 - p * N - q) (l2 + 1 - p) ;;
  Some (N - d).

Definition estimate_iteration (sigmaR T eps : R) : option Z :=
  if Rgt_dec sigmaR 70 then Some 10%Z
  else if Rlt_dec sigmaR 5 then Some 800%Z
  else
    r <- py_div T sigmaR ;;
    let lam := r ^ 2 in
    llam <- math_log lam ;;
    let p := 1 + llam in
    leps <- math_log eps ;;
    let q := - lam - leps in
    t <- py_div (q / math_e) lam ;;
    let W := t - t ^ 2 + 1.5 * t ^ 3 - (8 / 3) * t ^ 4 in
    N0 <- py_div q W ;;
    let N := py_min (py_max N0 10) 300 in
    N <- (if Rlt_dec sigmaR 30
          then for_each (range 0 5) (newton_body p q) N
          else Some N) ;;
    Some (math_ceil N).

(** ** The expression evaluator [core.std.Expr]

    [std.Expr] takes up to three clips here, named [x], [y], [z] in the
    expression, and a program in reverse Polish notation which it runs on
    every sample.  The programs GPA emits use the tokens below; a number
    interpolated by an f-string is a [tnum].  An ill-formed program (stack
    underflow, values left over, a clip letter without a clip) is rejected
    when the filter is created.  Division inside the evaluator is float
    division and does not raise. *)

Inductive token : Type :=
| tx | ty | tz
| tnum (c : R)
| tadd | tsub | tmul | tdiv
| texp
| tdup.

Inductive expr : Type :=
| Var (n : nat)
| Num (c : R)
| Add (a b : expr)
| Sub (a b : expr)
| Mul (a b : expr)
| Div (a b : expr)
| Exp (a : expr).

Definition push_var (nclips n : nat) (stack : list expr) : option (list expr) :=
  if (n <? nclips)%nat then Some (Var n :: stack) else None.

Definition rpn_step (nclips : nat) (tok : token) (stack : list expr)
  : option (list expr) :=
  match tok, stack with
  | tx, _ => push_var nclips 0 stack
  | ty, _ => push_var nclips 1 stack
  | tz, _ => push_var nclips 2 stack
  | tnum c, _ => Some (Num c :: stack)
  | tadd, b :: a :: st => Some (Add a b :: st)
  | tsub, b :: a :: st => Some (Sub a b :: st)
  | tmul, b :: a :: st => Some (Mul a b :: st)
  | tdiv, b :: a :: st => Some (Div a b :: st)
  | texp, a :: st => Some (Exp a :: st)
  | tdup, a :: st => Some (a :: a :: st)
  | _, _ => None
  end.

Definition rpn (nclips : nat) (prog : list token) : option expr :=
  stack <- for_each prog (rpn_step nclips) [] ;;
  match stack with
  | [e] => Some e
  | _ => None
  end.

Fixpoint denote (e : expr) (env : list R) : R :=
  match e with
  | Var n => nth n env 0
  | Num c => c
  | Add a b => denote a env + denote b env
  | Sub a b => denote a env - denote b env
  | Mul a b => denote a env * denote b env
  | Div a b => denote a env / denote b env
  | Exp a => exp (denote a env)
  end.

(** ** The frame engine

    What GPA calls and this file does not define: the clips of the engine,
    the depth converter [mvf.Depth], and the two smoothing filters.  A clip
    in 32-bit float format is a [plane]: one real sample per position
    (frame, plane, row and column together make one [pixel]). *)

Inductive sample_type : Type := INTEGER | FLOAT.

Class Engine : Type := {
  pixel : Type;
  clip : Type;
  depth_args : Type;
  bits_per_sample : clip -> Z;
  format_sample_type : clip -> sample_type;
  (** [mvf.Depth(clip, depth=32, sample=vs.FLOAT, **depth_args)] *)
  Depth_float32 : clip -> depth_args -> pixel -> R;
  (** [mvf.Depth(res, depth=bits, sample=sampleType, **depth_args)] *)
  Depth_back : (pixel -> R) -> Z -> sample_type -> depth_args -> clip;
  (** [core.tcanny.TCanny(clip, sigma=..., mode=...)] *)
  TCanny : R -> Z -> (pixel -> R) -> pixel -> R;
  (** [muf.BoxFilter(clip, radius=...)] *)
  BoxFilter : R -> (pixel -> R) -> pixel -> R
}.

Section GPA.

Context {E : Engine}.

Definition plane : Type := pixel -> R.

(** [core.std.Expr(clips, prog)]. *)
Definition Expr (clips : list plane) (prog : list token) : option plane :=
  e <- rpn (length clips) prog ;;
  Some (fun px => denote e (map (fun c => c px) clips)).

(** [core.std.BlankClip(clip, color=[c] * clip.format.num_planes)]. *)
Definition BlankClip (c : R) : plane := fun _ => c.

(** [functools.partial] of one of the two smoothing filters. *)
Inductive partial : Type :=
| partial_TCanny (sigma : R) (mode : Z)
| partial_BoxFilter (radius : R).

Definition call (f : partial) : plane -> plane :=
  match f with
  | partial_TCanny sigma mode => TCanny sigma mode
  | partial_BoxFilter radius => BoxFilter radius
  end.

(** Lines 401-404. *)
Definition select_filter (mode : Z) (sigmaS : R) : partial :=
  if (mode =? 0)%Z then partial_TCanny sigmaS (-1)
  else partial_BoxFilter (sigmaS + 1).

Definition T : R := 0.5.

(** The five clips the loop rebinds. *)
Record acc : Type := mk_acc {
  F : plane;
  G : plane;
  P : plane;
  Q : plane;
  Fbar : plane
}.

(** Lines 419-425, one pass of [for i in range(1, iteration + 1)]. *)
Definition loop_body (H : plane) (Filter : plane -> plane) (i : Z) (s : acc)
  : option acc :=
  sqrt_i <- math_sqrt i ;;
  inv_sqrt_i <- py_div 1 sqrt_i ;;
  Q' <- Expr [Q s; G s; Fbar s] [tx; ty; tz; tmul; tadd] ;;
  F' <- Expr [H; F s] [tx; ty; tmul; tnum inv_sqrt_i; tmul] ;;
  let Fbar' := Filter F' in
  P' <- Expr [P s; G s; Fbar'] [tx; ty; tz; tmul; tnum sqrt_i; tmul; tadd] ;;
  G' <- Expr [H; G s] [tx; ty; tmul; tnum inv_sqrt_i; tmul] ;;
  Some (mk_acc F' G' P' Q' Fbar').

(** Line 411. *)
Definition make_H (x : plane) (sigmaR : R) : option plane :=
  Expr [x] [tx; tnum T; tsub; tnum sigmaR; tdiv].

(** Lines 412-416. *)
Definition init_acc (H : plane) (Filter : plane -> plane) : option acc :=
  F0 <- Expr [H] [tnum (-0.5); tx; tdup; tmul; tmul; texp] ;;
  let G0 := BlankClip 1 in
  let P0 := BlankClip 0 in
  let Q0 := BlankClip 0 in
  let Fbar0 := Filter F0 in
  Some (mk_acc F0 G0 P0 Q0 Fbar0).

(** Lines 411-425: the clips after the loop. *)
Definition accumulate (x : plane) (sigmaR : R) (Filter : plane -> plane)
  (iteration : Z) : option acc :=
  H <- make_H x sigmaR ;;
  s0 <- init_acc H Filter ;;
  for_each (range 1 (iteration + 1)) (loop_body H Filter) s0.

(** Line 427. *)
Definition combine (s : acc) (sigmaR : R) : option plane :=
  Expr [P s; Q s]
       [tx; tnum sigmaR; tmul; ty; tnum 1e-5; tadd; tdiv; tnum T; tadd].

(** Lines 411-427 on the float clip. *)
Definition GPA_float (x : plane) (sigmaR : R) (Filter : plane -> plane)
  (iteration : Z) : option plane :=
  s <- accumulate x sigmaR Filter iteration ;;
  combine s sigmaR.

(** [GPA(clip, sigmaS, sigmaR, mode, iteration, eps, **depth_args)]. *)
Definition GPA (c : clip) (sigmaS sigmaR : R) (mode iteration : Z) (eps : R)
  (da : depth_args) : option clip :=
  let bits := bits_per_sample c in
  let sampleType := format_sample_type c in
  let Filter := call (select_filter mode sigmaS) in
  iteration <- (if (iteration =? 0)%Z
                then estimate_iteration (sigmaR * 255) T eps
                else Some iteration) ;;
  let c32 := Depth_float32 c da in
  res <- GPA_float c32 sigmaR Filter iteration ;;
  Some (Depth_back res bits sampleType da).

End GPA.

(** ** The specification's recurrence (section 4.2)

    Written from the words of the specification, to be compared with
    [accumulate] and [combine] above. *)

Module Spec.
Section Recurrence.

Context {E : Engine}.
Variable Filter : plane -> plane.
Variable x : plane.
Variable sigmaR : R.

Definition H : plane := fun px => (x px - T) / sigmaR.

Record terms : Type := mk_terms {
  F_ : plane;
  Fbar_ : plane;
  G_ : plane;
  P_ : plane;
  Q_ : plane
}.

Definition terms0 : terms :=
  let F0 : plane := fun px => exp (- (H px) ^ 2 / 2) in
  mk_terms F0 (Filter F0) (fun _ => 1) (fun _ => 0) (fun _ => 0).

Definition next (i : nat) (prev : terms) : terms :=
  let Qi : plane := fun px => Q_ prev px + G_ prev px * Fbar_ prev px in
  let Fi : plane := fun px => H px * F_ prev px / sqrt (INR i) in
  let Fbari : plane := Filter Fi in
  let Pi : plane := fun px => P_ prev px + G_ prev px * Fbari px * sqrt (INR i) in
  let Gi : plane := fun px => H px * G_ prev px / sqrt (INR i) in
  mk_terms Fi Fbari Gi Pi Qi.

(** The terms with index [i]. *)
Fixpoint series (i : nat) : terms :=
  match i with
  | O => terms0
  | S k => next (S k) (series k)
  end.

(** [result = sigmaR * P_N / (Q_N + 1e-5) + T]. *)
Definition output (N : nat) : plane :=
  fun px => sigmaR * P_ (series N) px / (Q_ (series N) px + 1e-5) + T.

End Recurrence.
End Spec.

(** ** A small engine to run the definitions on

    Clips are one-dimensional float signals indexed by the integers; the
    depth converter has nothing to do; the Gaussian-like filter is the
    binomial kernel (1, 2, 1) / 4 and the box filter averages three
    neighbours, whatever their parameters. *)

Definition line_gauss (f : Z -> R) : Z -> R :=
  fun n => (f (n - 1)%Z + 2 * f n + f (n + 1)%Z) / 4.

Definition line_box (f : Z -> R) : Z -> R :=
  fun n => (f (n - 1)%Z + f n + f (n + 1)%Z) / 3.

Definition line_engine : Engine := {|
  pixel := Z;
  clip := Z -> R;
  depth_args := unit;
  bits_per_sample := fun _ => 32%Z;
  format_sample_type := fun _ => FLOAT;
  Depth_float32 := fun c _ => c;
  Depth_back := fun p _ _ _ => p;
  TCanny := fun _ _ => line_gauss;
  BoxFilter := fun _ => line_box
|}.

(** A ramp and a flat signal. *)
Definition ramp : Z -> R := fun n => IZR n / 10.
Definition flat : Z -> R := fun _ => 0.5.

(** ** The specification's estimator (section 4.1, the middle case)

    Written from the words of the specification.  The equation
    [N ln N - p N - q = 0] with [p = 1 + ln lam] reads [M ln M = t] for
    [M = N / (e lam)] and [t = q / (e lam)]; the inverse of [x ln x] at [t]
    is [t / W t] for Lambert's function [W], whose series at 0 has the
    coefficients [(-n)^(n-1) / n!]. *)

Module EstimatorSpec.

Definition lambert_coeff (n : nat) : R := (- INR n) ^ (n - 1) / INR (fact n).

(** The first four terms of the series. *)
Definition lambert4 (t : R) : R :=
  fold_right (fun n s => lambert_coeff n * t ^ n + s) 0 [1; 2; 3; 4]%nat.

(** The approximate inverse of [x ln x], undefined where the truncated
    series vanishes. *)
Definition xlnx_inverse (t : R) : option R :=
  if Req_dec_T (lambert4 t) 0 then None else Some (t / lambert4 t).

Definition clamp (lo hi v : R) : R := Rmin (Rmax v lo) hi.

(** The function whose root is sought, and its derivative. *)
Definition g (p q N : R) : R := N * ln N - p * N - q.
Definition g' (p N : R) : R := ln N + 1 - p.

(** One step of Newton's method for [f] on the positive reals, undefined
    outside the domain and where the derivative vanishes. *)
Definition newton (f f' : R -> R) (N : R) : option R :=
  if Rlt_dec 0 N
  then if Req_dec_T (f' N) 0 then None else Some (N - f N / f' N)
  else None.

Fixpoint iterate (n : nat) (step : R -> option R) (N : R) : option R :=
  match n with
  | O => Some N
  | S k => N' <- step N ;; iterate k step N'
  end.

Definition estimate (sigmaR T eps : R) : option Z :=
  let lam := (T / sigmaR) ^ 2 in
  let p := 1 + ln lam in
  let q := - lam - ln eps in
  inv <- xlnx_inverse (q / (exp 1 * lam)) ;;
  let N0 := clamp 10 300 (exp 1 * lam * inv) in
  N <- (if Rlt_dec sigmaR 30
        then iterate 5 (newton (g p q) (g' p)) N0
        else Some N0) ;;
  Some (math_ceil N).

End EstimatorSpec.

(** The loop state that holds the terms of the recurrence. *)
Definition acc_of {E : Engine} (t : Spec.terms) : acc :=
  mk_acc (Spec.F_ t) (Spec.G_ t) (Spec.P_ t) (Spec.Q_ t) (Spec.Fbar_ t).

(** ** Quantities of the estimator, named for the analysis *)

Definition lam_of (sigmaR T : R) : R := (T / sigmaR) ^ 2.
Definition q_of (sigmaR T eps : R) : R := - lam_of sigmaR T - ln eps.
Definition t_of (sigmaR T eps : R) : R :=
  q_of sigmaR T eps / (exp 1 * lam_of sigmaR T).

(** Newton's step for [N ln N - (1 + ln lam) N - q = 0], and its closed
    form [N - g N / g' N = (N + q) / (ln N - ln lam)]. *)
Definition newton_for (lam q : R) : R -> option R :=
  EstimatorSpec.newton (EstimatorSpec.g (1 + ln lam) q)
                       (EstimatorSpec.g' (1 + ln lam)).

Definition phi (lam q N : R) : R := (N + q) / (ln N - ln lam).

Ltac plane_ext px := apply functional_extensionality; intros px.

(** ** The expression language in full

    The other filters of the file use more of the language of [std.Expr]
    than GPA does: clip letters beyond [z], comparisons, the ternary
    operator, [dupN] and [swapN].  Truth is "greater than zero"; a
    comparison yields 1 or 0.  [X], [Y], [width] and [height] belong to the
    akarin plugin only. *)

Module Rpn.

Inductive token : Type :=
| clipvar (n : nat)          (* x y z a b c d ... *)
| num (c : R)
| add | sub | mul | div | max | pow
| exp_ | log | abs
| lt | ge | or_
| tern                       (* ? *)
| dupN (n : nat)             (* dup is dup0 *)
| swapN (n : nat)            (* swap is swap1 *)
| coordX | coordY | width | height.

Definition x : token := clipvar 0.
Definition y : token := clipvar 1.
Definition z : token := clipvar 2.
Definition a : token := clipvar 3.
Definition b : token := clipvar 4.
Definition c : token := clipvar 5.
Definition d : token := clipvar 6.
Definition dup : token := dupN 0.

Inductive binop : Type :=
| Add | Sub | Mul | Div | Max | Pow | Lt | Ge | Or.

Inductive unop : Type := Exp | Log | Abs.

Inductive coord : Type := CoordX | CoordY | Width | Height.

Inductive expr : Type :=
| Var (n : nat)
| Num (c : R)
| Bin (op : binop) (l r : expr)
| Un (op : unop) (e : expr)
| If (c t e : expr)
| Coord (k : coord).

(** Exchange the top of the stack with the value [n] places below it. *)
Fixpoint replace_nth {A : Type} (n : nat) (v : A) (l : list A) : list A :=
  match l, n with
  | [], _ => []
  | _ :: rest, O => v :: rest
  | h :: rest, S m => h :: replace_nth m v rest
  end.

Definition swap_top {A : Type} (n : nat) (stack : list A) : option (list A) :=
  match stack, n with
  | [], _ => None
  | _ :: _, O => Some stack
  | top :: rest, S m =>
      match nth_error rest m with
      | Some v => Some (v :: replace_nth m top rest)
      | None => None
      end
  end.

Definition binary (op : binop) (stack : list expr) : option (list expr) :=
  match stack with
  | r :: l :: st => Some (Bin op l r :: st)
  | _ => None
  end.

Definition unary (op : unop) (stack : list expr) : option (list expr) :=
  match stack with
  | e :: st => Some (Un op e :: st)
  | _ => None
  end.

(** One token; [akarin] says whether the plugin's tokens are accepted. *)
Definition step (akarin : bool) (nclips : nat) (tok : token)
  (stack : list expr) : option (list expr) :=
  match tok with
  | clipvar n => if (n <? nclips)%nat then Some (Var n :: stack) else None
  | num v => Some (Num v :: stack)
  | add => binary Add stack
  | sub => binary Sub stack
  | mul => binary Mul stack
  | div => binary Div stack
  | max => binary Max stack
  | pow => binary Pow stack
  | lt => binary Lt stack
  | ge => binary Ge stack
  | or_ => binary Or stack
  | exp_ => unary Exp stack
  | log => unary Log stack
  | abs => unary Abs stack
  | tern =>
      match stack with
      | e :: t :: c :: st => Some (If c t e :: st)
      | _ => None
      end
  | dupN n =>
      match nth_error stack n with
      | Some v => Some (v :: stack)
      | None => None
      end
  | swapN n => swap_top n stack
  | coordX => if akarin then Some (Coord CoordX :: stack) else None
  | coordY => if akarin then Some (Coord CoordY :: stack) else None
  | width => if akarin then Some (Coord Width :: stack) else None
  | height => if akarin then Some (Coord Height :: stack) else None
  end.

Definition rpn (akarin : bool) (nclips : nat) (prog : list token)
  : option expr :=
  stack <- for_each prog (step akarin nclips) [] ;;
  match stack with
  | [e] => Some e
  | _ => None
  end.

Definition truth (v : R) : bool := if Rlt_dec 0 v then true else false.
Definition of_bool (t : bool) : R := if t then 1 else 0.

Definition denote_bin (op : binop) (l r : R) : R :=
  match op with
  | Add => l + r
  | Sub => l - r
  | Mul => l * r
  | Div => l / r
  | Max => Rmax l r
  | Pow => Rpower l r
  | Lt => of_bool (if Rlt_dec l r then true else false)
  | Ge => of_bool (if Rge_dec l r then true else false)
  | Or => of_bool (truth l || truth r)
  end.

Definition denote_un (op : unop) (v : R) : R :=
  match op with
  | Exp => exp v
  | Log => ln v
  | Abs => Rabs v
  end.

(** Where a sample sits: column, row, and the size of its plane. *)
Record place : Type := mk_place {
  place_X : Z;
  place_Y : Z;
  place_width : Z;
  place_height : Z
}.

Definition denote_coord (k : coord) (w : place) : R :=
  match k with
  | CoordX => IZR (place_X w)
  | CoordY => IZR (place_Y w)
  | Width => IZR (place_width w)
  | Height => IZR (place_height w)
  end.

Fixpoint denote (e : expr) (env : list R) (w : place) : R :=
  match e with
  | Var n => nth n env 0
  | Num v => v
  | Bin op l r => denote_bin op (denote l env w) (denote r env w)
  | Un op e => denote_un op (denote e env w)
  | If c t e => if truth (denote c env w) then denote t env w else denote e env w
  | Coord k => denote_coord k w
  end.

End Rpn.

(** ** [fast_mandelbrot] (lines 585-667)

    The clip it builds is a single GRAYS frame, kept here as a [grid]: a
    size and one value per row and column.  [None] stands for a call that
    raises, or whose only frame raises when it is requested (the mesh of
    [meshgrid_core] is filled lazily). *)

Record grid : Type := mk_grid {
  grid_width : Z;
  grid_height : Z;
  value : Z -> Z -> R          (* row, column *)
}.

(** [core.std.BlankClip(format=vs.GRAYS, width, height, length=1, color)]. *)
Definition BlankGrid (width height : Z) (color : R) : grid :=
  mk_grid width height (fun _ _ => color).

(** [core.std.Expr] and [core.akarin.Expr] on such frames. *)
Definition grid_Expr (akarin : bool) (clips : list grid)
  (prog : list Rpn.token) : option grid :=
  match clips with
  | [] => None
  | first :: _ =>
      e <- Rpn.rpn akarin (length clips) prog ;;
      Some (mk_grid (grid_width first) (grid_height first)
              (fun i j =>
                 Rpn.denote e (map (fun c => value c i j) clips)
                   (Rpn.mk_place j i (grid_width first) (grid_height first))))
  end.

(** [mem_view[i, j] = v]. *)
Definition set_cell (g : Z -> Z -> R) (i j : Z) (v : R) : Z -> Z -> R :=
  fun i' j' => if ((i' =? i) && (j' =? j))%Z then v else g i' j'.

(** [mem_view[i, :] = data], for [data] of the width of the frame. *)
Definition set_row (g : Z -> Z -> R) (i : Z) (data : list R) : Z -> Z -> R :=
  fun i' j' =>
    if ((i' =? i) && (0 <=? j') && (j' <? Z.of_nat (length data)))%Z
    then nth (Z.to_nat j') data 0 else g i' j'.

(** A list built by a generator or comprehension whose elements may raise. *)
Fixpoint collect {I A : Type} (f : I -> option A) (xs : list I)
  : option (list A) :=
  match xs with
  | [] => Some []
  | i :: rest => v <- f i ;; vs <- collect f rest ;; Some (v :: vs)
  end.

(** Lines 590-614.  [f.copy()] is writable, so [_get_array] does not raise
    here. *)
Definition meshgrid_core (is_api4 : bool) (f : grid) (low high : R)
  (horizontal : bool) : option grid :=
  if Rlt_dec low high then
    let height := grid_height f in
    let width := grid_width f in
    mem_view <-
      (if horizontal then
         data <- collect
                   (fun j => q <- py_div ((high - low) * IZR j) (IZR (width - 1)) ;;
                             Some (q + low))
                   (range 0 width) ;;
         for_each (range 0 height)
           (fun i m =>
              if is_api4
              then for_each (range 0 width)
                     (fun j m => Some (set_cell m i j (nth (Z.to_nat j) data 0))) m
              else Some (set_row m i data))
           (value f)
       else
         for_each (range 0 height)
           (fun i m =>
              if is_api4
              then for_each (range 0 width)
                     (fun j m =>
                        q <- py_div ((low - high) * IZR i) (IZR (height - 1)) ;;
                        Some (set_cell m i j (q + high))) m
              else
                q <- py_div ((low - high) * IZR i) (IZR (height - 1)) ;;
                Some (set_row m i (repeat (q + high) (Z.to_nat width))))
           (value f)) ;;
    Some (mk_grid width height mem_view)
  else None.

(** The six-line [inner] of lines 638-645 and 650-657: [add_real] and
    [add_imag] are the tokens that bring in the constant of the iteration
    ([x] and [y], or [c.real] and [c.imag]), [delta] is [1/iterations]. *)
Definition mandelbrot_inner (add_real add_imag : Rpn.token) (delta : R)
  : list Rpn.token :=
  (* new z_imag *)
  [Rpn.dupN 2; Rpn.dupN 2; Rpn.mul; Rpn.dupN 0; Rpn.add; add_imag; Rpn.add]
  (* new z_real *)
  ++ [Rpn.dupN 3; Rpn.dupN 0; Rpn.mul; Rpn.dupN 3; Rpn.dupN 0; Rpn.mul;
      Rpn.sub; add_real; Rpn.add]
  (* mask *)
  ++ [Rpn.dupN 1; Rpn.dupN 0; Rpn.mul; Rpn.dupN 1; Rpn.dupN 0; Rpn.mul;
      Rpn.add; Rpn.num 4; Rpn.lt]
  (* update z_real *)
  ++ [Rpn.swapN 1; Rpn.dupN 1; Rpn.swapN 6; Rpn.tern]
  (* update z_imag *)
  ++ [Rpn.swapN 4; Rpn.swapN 1; Rpn.dupN 1; Rpn.swapN 4; Rpn.tern]
  (* update counter *)
  ++ [Rpn.swapN 2; Rpn.swapN 1; Rpn.dupN 0; Rpn.num delta; Rpn.sub;
      Rpn.swapN 1; Rpn.tern].

(** [s * n] on strings, here on token lists. *)
Definition str_repeat {A : Type} (s : list A) (n : Z) : list A :=
  concat (repeat s (Z.to_nat n)).

Definition mandelbrot_tail : list Rpn.token :=
  [Rpn.num 1; Rpn.swapN 2; Rpn.tern; Rpn.num 1; Rpn.swapN 2; Rpn.tern].

(** Lines 637-659, for [c = c_real + c_imag j]. *)
Definition mandelbrot_expr (julia_set : bool) (c_real c_imag : R)
  (iterations : Z) : option (list Rpn.token) :=
  delta <- py_div 1 (IZR iterations) ;;
  if julia_set
  then Some ([Rpn.x; Rpn.y; Rpn.z]
             ++ str_repeat
                  (mandelbrot_inner (Rpn.num c_real) (Rpn.num c_imag) delta)
                  iterations
             ++ mandelbrot_tail)
  else Some ([Rpn.num c_real; Rpn.num c_imag; Rpn.z]
             ++ str_repeat (mandelbrot_inner Rpn.x Rpn.y delta) iterations
             ++ mandelbrot_tail).

(** What the interpreter has and the caller passes. *)
Record mandelbrot_env : Type := mk_mandelbrot_env {
  has_akarin : bool;            (* hasattr(core, "akarin") *)
  feature_X_width : bool;       (* b"X" in features and b"width" in features *)
  feature_Y_height : bool;      (* b"Y" in features and b"height" in features *)
  is_api4 : bool
}.

Definition fast_mandelbrot (env : mandelbrot_env) (width height iterations : Z)
  (real_range imag_range : R * R) (c_real c_imag : R) (julia_set : bool)
  (backend : option (list grid -> list Rpn.token -> option grid))
  : option grid :=
  let ones := BlankGrid width height 1 in
  (* z_real and z_imag are bound only under [hasattr(core, "akarin")] *)
  meshes <-
    (if has_akarin env then
       z_real <-
         (if feature_X_width env
          then grid_Expr true [ones]
                 [Rpn.num (snd real_range - fst real_range); Rpn.coordX;
                  Rpn.mul; Rpn.width; Rpn.num 1; Rpn.sub; Rpn.div;
                  Rpn.num (fst real_range); Rpn.add]
          else meshgrid_core (is_api4 env) ones (fst real_range)
                 (snd real_range) true) ;;
       z_imag <-
         (if feature_Y_height env
          then grid_Expr true [ones]
                 [Rpn.num (fst imag_range - snd imag_range); Rpn.coordY;
                  Rpn.mul; Rpn.height; Rpn.num 1; Rpn.sub; Rpn.div;
                  Rpn.num (snd imag_range); Rpn.add]
          else meshgrid_core (is_api4 env) ones (fst imag_range)
                 (snd imag_range) false) ;;
       Some (Some (z_real, z_imag))
     else Some None) ;;
  expr <- mandelbrot_expr julia_set c_real c_imag iterations ;;
  match meshes with
  | None => None                (* UnboundLocalError: z_real *)
  | Some (z_real, z_imag) =>
      match backend with
      | None => grid_Expr (has_akarin env) [z_real; z_imag; ones] expr
      | Some run => run [z_real; z_imag; ones] expr
      end
  end.

(** *** The iteration the expression unrolls *)

(** [f] applied [n] times, first application first. *)
Fixpoint repeat_step {A : Type} (n : nat) (f : A -> A) (s : A) : A :=
  match n with
  | O => s
  | S m => repeat_step m f (f s)
  end.

(** One pass of [inner] on the three values it keeps on the stack, counter
    on top: real part, imaginary part, counter. *)
Definition escape_step (p_real p_imag delta : R) (s : R * R * R) : R * R * R :=
  let '(z_real, z_imag, counter) := s in
  let new_imag := z_real * z_imag + z_real * z_imag + p_imag in
  let new_real := z_real * z_real - z_imag * z_imag + p_real in
  if Rlt_dec (new_imag * new_imag + new_real * new_real) 4
  then (new_real, new_imag, counter - delta)
  else (z_real, z_imag, counter).

(** The same pass on symbolic stack entries. *)
Definition escape_step_expr (p_real p_imag : Rpn.expr) (delta : R)
  (s : Rpn.expr * Rpn.expr * Rpn.expr) : Rpn.expr * Rpn.expr * Rpn.expr :=
  let '(z_real, z_imag, counter) := s in
  let new_imag :=
    Rpn.Bin Rpn.Add
      (Rpn.Bin Rpn.Add (Rpn.Bin Rpn.Mul z_real z_imag)
                       (Rpn.Bin Rpn.Mul z_real z_imag)) p_imag in
  let new_real :=
    Rpn.Bin Rpn.Add
      (Rpn.Bin Rpn.Sub (Rpn.Bin Rpn.Mul z_real z_real)
                       (Rpn.Bin Rpn.Mul z_imag z_imag)) p_real in
  let mask :=
    Rpn.Bin Rpn.Lt
      (Rpn.Bin Rpn.Add (Rpn.Bin Rpn.Mul new_imag new_imag)
                       (Rpn.Bin Rpn.Mul new_real new_real)) (Rpn.Num 4) in
  (Rpn.If mask new_real z_real,
   Rpn.If mask new_imag z_imag,
   Rpn.If mask (Rpn.Bin Rpn.Sub counter (Rpn.Num delta)) counter).

(** The three entries as a stack, top first, and their values. *)
Definition stack_of (s : Rpn.expr * Rpn.expr * Rpn.expr) : list Rpn.expr :=
  let '(z_real, z_imag, counter) := s in [counter; z_imag; z_real].

Definition denote3 (s : Rpn.expr * Rpn.expr * Rpn.expr) (env : list R)
  (w : Rpn.place) : R * R * R :=
  let '(z_real, z_imag, counter) := s in
  (Rpn.denote z_real env w, Rpn.denote z_imag env w, Rpn.denote counter env w).

(** The quadratic map [z -> z^2 + p] on pairs, and its escape test. *)
Definition quadratic (p z : R * R) : R * R :=
  (fst z * fst z - snd z * snd z + fst p,
   fst z * snd z + fst z * snd z + snd p).

Definition inside (z : R * R) : bool :=
  if Rlt_dec (snd z * snd z + fst z * fst z) 4 then true else false.

(** How many of the first [n] iterates stay inside before one does not. *)
Fixpoint escape_time (p z : R * R) (n : nat) : nat :=
  match n with
  | O => O
  | S m =>
      if inside (quadratic p z)
      then S (escape_time p (quadratic p z) m)
      else O
  end.

(** The two meshes: the real part along a row and the imaginary part down a
    column. *)
Definition mesh_real (real_range : R * R) (width j : Z) : R :=
  (snd real_range - fst real_range) * IZR j / (IZR width - 1) + fst real_range.

Definition mesh_imag (imag_range : R * R) (height i : Z) : R :=
  (fst imag_range - snd imag_range) * IZR i / (IZR height - 1) + snd imag_range.

(** An interpreter with the akarin plugin and all four features. *)
Definition akarin_env : mandelbrot_env := mk_mandelbrot_env true true true true.

From Stdlib Require String.
Import String.StringSyntax.
Delimit Scope string_scope with string.
Bind Scope string_scope with String.string.

(** ** Clips with a format

    The remaining filters work on clips in their own format, frame by
    frame and plane by plane.  A [node] has a format, a length and one
    sample per frame, plane and position.  What the engine does to a
    computed value when it writes it as a sample of a format (nothing for
    float, rounding and clamping for integers) is its own; it enters as
    [store]. *)

Inductive color_family : Type := GRAY | RGB | YUV.

Record video_format : Type := mk_format {
  fmt_color_family : color_family;
  fmt_sample_type : sample_type;
  fmt_bits_per_sample : Z;
  fmt_num_planes : nat
}.

Class Frames : Type := {
  spot : Type;
  store : video_format -> R -> R
}.

Definition color_family_eqb (a b : color_family) : bool :=
  match a, b with
  | GRAY, GRAY | RGB, RGB | YUV, YUV => true
  | _, _ => false
  end.

Definition sample_type_eqb (a b : sample_type) : bool :=
  match a, b with
  | INTEGER, INTEGER | FLOAT, FLOAT => true
  | _, _ => false
  end.

(** [a << b] on integers: a negative shift count raises. *)
Definition py_lshift (a b : Z) : option Z :=
  if (b <? 0)%Z then None else Some (Z.shiftl a b).

Section Nodes.

Context {V : Frames}.

Record node : Type := mk_node {
  format : video_format;
  num_frames : Z;
  sample : Z -> nat -> spot -> R       (* frame, plane, position *)
}.

(** The expression of plane [p]: the last one serves the planes beyond the
    list. *)
Definition plane_choice {A : Type} (xs : list A) (p : nat) (d : A) : A :=
  nth p xs (last xs d).

(** An empty string copies the plane of the first clip; anything else has
    to compile. *)
Definition compile_plane (nclips : nat) (prog : list Rpn.token)
  : option (option Rpn.expr) :=
  match prog with
  | [] => Some None
  | _ => e <- Rpn.rpn false nclips prog ;; Some (Some e)
  end.

(** [core.std.Expr(clips, exprs)]: format and length of the first clip;
    more expressions than planes is an error. *)
Definition node_Expr (clips : list node) (exprs : list (list Rpn.token))
  : option node :=
  match clips, exprs with
  | [], _ => None
  | _, [] => None
  | first :: _, _ =>
      if (fmt_num_planes (format first) <? length exprs)%nat then None
      else
        compiled <- collect (compile_plane (length clips)) exprs ;;
        Some (mk_node (format first) (num_frames first)
                (fun n p s =>
                   match plane_choice compiled p None with
                   | None => sample first n p s
                   | Some e =>
                       store (format first)
                         (Rpn.denote e (map (fun c => sample c n p s) clips)
                            (Rpn.mk_place 0 0 0 0))
                   end))
  end.

(** A clip whose frames are made on request, and may raise then. *)
Record lazy_node : Type := mk_lazy {
  lazy_format : video_format;
  lazy_num_frames : Z;
  request : Z -> option (nat -> spot -> R)
}.

(** [core.std.FrameEval(clip, eval)]: frame [n] is frame [n] of the clip
    that [eval(n)] returns. *)
Definition FrameEval (clip : node) (eval : Z -> option node) : lazy_node :=
  mk_lazy (format clip) (num_frames clip)
    (fun n => c <- eval n ;; Some (sample c n)).

(** ** [fade] (lines 530-582) *)

(** Lines 557-580. *)
Definition fade_core (n : Z) (clip : node) (start end_ : Z) (mode : String.string)
  (base : option node) : option node :=
  if ((n <? start) || (n >? end_) || (end_ - start <=? 0))%Z then Some clip
  else
    let length := (end_ - start)%Z in
    i <- (if String.eqb mode "in"%string
          then py_div (IZR (n - start)) (IZR length)
          else if String.eqb mode "out"%string
          then py_div (IZR (end_ - n)) (IZR length)
          else None) ;;
    match base with
    | None =>
        let y_expr := [Rpn.x; Rpn.num i; Rpn.mul] in
        if negb (color_family_eqb (fmt_color_family (format clip)) YUV)
           || sample_type_eqb (fmt_sample_type (format clip)) FLOAT
        then node_Expr [clip] [y_expr]
        else
          neutral <- py_lshift 1 (fmt_bits_per_sample (format clip) - 1) ;;
          let uv_expr := [Rpn.x; Rpn.num i; Rpn.mul;
                          Rpn.num ((1 - i) * IZR neutral); Rpn.add] in
          node_Expr [clip] [y_expr; uv_expr]
    | Some base =>
        node_Expr [clip; base]
          [[Rpn.x; Rpn.num i; Rpn.mul; Rpn.y; Rpn.num (1 - i); Rpn.mul;
            Rpn.add]]
    end.

(** [fade(clip, start, end, mode, base)]; [end_ = None] is the default. *)
Definition fade (clip : node) (start : Z) (end_ : option Z) (mode : String.string)
  (base : option node) : lazy_node :=
  let end_ := match end_ with
              | None => (num_frames clip - 1)%Z
              | Some e => e
              end in
  FrameEval clip (fun n => fade_core n clip start end_ mode base).

(** The end of the fade, with its default, and the weight of the clip
    inside the range. *)
Definition fade_end (clip : node) (end_ : option Z) : Z :=
  match end_ with
  | None => (num_frames clip - 1)%Z
  | Some e => e
  end.

Definition fade_weight (mode : String.string) (start end_ n : Z) : R :=
  if String.eqb mode "in"%string
  then IZR (n - start) / IZR (end_ - start)
  else IZR (end_ - n) / IZR (end_ - start).

(** What a fade without a base fades to, in plane [p]: the chroma planes
    of an integer YUV clip go to [1 << (bits - 1)], everything else to 0. *)
Definition fade_dark (f : video_format) (p : nat) : R :=
  if color_family_eqb (fmt_color_family f) YUV
     && sample_type_eqb (fmt_sample_type f) INTEGER
  then match p with
       | O => 0
       | S _ => IZR (2 ^ (fmt_bits_per_sample f - 1))
       end
  else 0.

End Nodes.

(** A small instance: positions on a line, integer samples rounded half up
    and clamped. *)
Definition round_clamp (f : video_format) (v : R) : R :=
  match fmt_sample_type f with
  | FLOAT => v
  | INTEGER =>
      IZR (Z.max 0 (Z.min (2 ^ fmt_bits_per_sample f - 1) (Zfloor (v + / 2))))
  end.

Definition line_frames : Frames := {| spot := Z; store := round_clamp |}.

Definition gray8 : video_format := mk_format GRAY INTEGER 8 1.
Definition yuv8 : video_format := mk_format YUV INTEGER 8 3.
Definition grays : video_format := mk_format GRAY FLOAT 32 1.

(** Three ten-frame clips on the line: flat grey, flat white, flat YUV. *)
Definition grey_clip : node (V := line_frames) :=
  mk_node gray8 10 (fun _ _ _ => 100).
Definition white_clip : node (V := line_frames) :=
  mk_node gray8 10 (fun _ _ _ => 255).
Definition yuv_clip : node (V := line_frames) :=
  mk_node yuv8 10 (fun _ _ _ => 100).

(** ** Plugins and helpers from outside the file

    The smoothing plugins, [muf.scale] and the way Python binds a
    dictionary of keyword arguments to the parameters of [gauss] are not
    code of this file; they enter as the fields of a class.  A plugin call
    may raise. *)

Class Plugins {V : Frames} : Type := {
  kwargs : Type;
  (** [{}] *)
  no_kwargs : kwargs;
  (** [sigma] and [algo] as [gauss(clip, **kw)] receives them, with their
      defaults; [None] where [kw] has a keyword [gauss] does not have. *)
  gauss_signature : kwargs -> option (option R * Z);
  (** [core.bilateral.Gaussian(clip, sigma=sigma)] *)
  bilateral_Gaussian : node -> option R -> option node;
  (** [core.tcanny.TCanny(clip, sigma=sigma, mode=mode)] *)
  tcanny_TCanny : node -> option R -> Z -> option node;
  (** [muf.scale(value, bits)] *)
  muf_scale : R -> Z -> R
}.

Section Merging.

Context {V : Frames} {P : Plugins}.

(** ** [gauss] (lines 59-73) *)

Definition gauss (clip : node) (sigma : option R) (algo : Z) : option node :=
  if ((algo =? 0)%Z
      && match sigma with
         | Some s => if Rge_dec s 10 then true else false
         | None => false
         end)
     || (algo =? 2)%Z
  then bilateral_Gaussian clip sigma
  else tcanny_TCanny clip sigma (-1).

(** What may be passed as [fun]. *)
Inductive py_fun : Type :=
| py_callable (f : node -> kwargs -> option node)
| py_not_callable.

(** [gauss(clip, **kw)]. *)
Definition gauss_kw (clip : node) (kw : kwargs) : option node :=
  match gauss_signature kw with
  | Some (sigma, algo) => gauss clip sigma algo
  | None => None
  end.

(** Lines 86-87 and 106-107: [fun] after its default. *)
Definition lowpass (fun_ : option py_fun) : node -> kwargs -> option node :=
  match fun_ with
  | Some (py_callable f) => f
  | Some py_not_callable | None => gauss_kw
  end.

(** ** [freq_merge] (lines 76-91) *)

Definition freq_merge (src flt : node) (fun_ : option py_fun)
  (fun_args : kwargs) : option node :=
  let fun_ := lowpass fun_ in
  low_src <- fun_ src fun_args ;;
  low_flt <- fun_ flt fun_args ;;
  node_Expr [low_src; flt; low_flt]
    [[Rpn.y; Rpn.z; Rpn.sub; Rpn.x; Rpn.add]].

(** ** [band_merge] (lines 94-119) *)

(** Lines 109-113: a missing dictionary is the empty one. *)
Definition or_empty (fun_args : option kwargs) : kwargs :=
  match fun_args with
  | None => no_kwargs
  | Some kw => kw
  end.

Definition band_merge (src flt : node) (fun_ : option py_fun)
  (fun_args1 fun_args2 : option kwargs) (cascade : bool) : option node :=
  let fun_ := lowpass fun_ in
  let fun_args1 := or_empty fun_args1 in
  let fun_args2 := or_empty fun_args2 in
  low_src1 <- fun_ src fun_args1 ;;
  low_src2 <- fun_ (if cascade then low_src1 else src) fun_args2 ;;
  low_flt1 <- fun_ flt fun_args1 ;;
  low_flt2 <- fun_ (if cascade then low_flt1 else flt) fun_args2 ;;
  node_Expr [low_flt1; low_flt2; src; low_src1; low_src2]
    [[Rpn.x; Rpn.y; Rpn.sub; Rpn.b; Rpn.add; Rpn.a; Rpn.sub; Rpn.z;
      Rpn.add]].

(** ** [XDoG] (lines 432-465) *)

Definition XDoG (clip : node) (sigma k p epsilon lamda : R) : option node :=
  let bits := fmt_bits_per_sample (format clip) in
  one <- py_lshift 1 bits ;;
  let peak := (one - 1)%Z in
  let epsilon := muf_scale epsilon bits in
  f1 <- tcanny_TCanny clip (Some sigma) (-1) ;;
  f2 <- tcanny_TCanny clip (Some (sigma * k)) (-1) ;;
  node_Expr [f1; f2]
    [[Rpn.x; Rpn.y; Rpn.sub; Rpn.num p; Rpn.mul; Rpn.x; Rpn.add;
      Rpn.num epsilon; Rpn.ge;
      Rpn.num 1;
      Rpn.num 2; Rpn.num 2; Rpn.num 2;
      Rpn.x; Rpn.y; Rpn.sub; Rpn.num p; Rpn.mul; Rpn.x; Rpn.add;
      Rpn.num epsilon; Rpn.sub; Rpn.num lamda; Rpn.mul; Rpn.mul;
      Rpn.exp_; Rpn.num 1; Rpn.add; Rpn.div; Rpn.sub;
      Rpn.tern;
      Rpn.num (IZR peak); Rpn.mul]].

(** The response that [XDoG] thresholds, and the value it computes from
    it before the sample is stored. *)
Definition XDoG_response (p x y : R) : R := (x - y) * p + x.

Definition XDoG_value (p epsilon lamda peak x y : R) : R :=
  (if Rge_dec (XDoG_response p x y) epsilon
   then 1
   else 2 - 2 / (exp (2 * ((XDoG_response p x y - epsilon) * lamda)) + 1))
  * peak.

End Merging.

(** On the line: the even part of a plane, a smoothing that is linear and
    leaves its own results alone. *)
Definition even_part (u : Z -> R) : Z -> R :=
  fun s => (u s + u (- s)%Z) / 2.

Definition even_node (c : node (V := line_frames)) : node (V := line_frames) :=
  mk_node (V := line_frames) (format c) (num_frames c)
    (fun n p => even_part (sample c n p)).

Definition line_plugins : Plugins (V := line_frames) := {|
  kwargs := option R * Z;
  no_kwargs := (None, 0%Z);
  gauss_signature := fun kw => Some kw;
  bilateral_Gaussian := fun c _ => Some (even_node c);
  tcanny_TCanny := fun c _ _ => Some (even_node c);
  muf_scale := fun v bits => v * IZR (2 ^ bits - 1)
|}.

(** Two float clips on the line. *)
Definition ramp_node : node (V := line_frames) :=
  mk_node (V := line_frames) grays 10 (fun n _ s => IZR (n + s)).
Definition step_node : node (V := line_frames) :=
  mk_node (V := line_frames) grays 10
    (fun _ _ s => if (s <? 0)%Z then 0 else 1).

(** A second smoothing on the line: the value at the origin everywhere. *)
Definition at_origin (u : Z -> R) : Z -> R := fun _ => u 0%Z.

Definition origin_node (c : node (V := line_frames))
  : node (V := line_frames) :=
  mk_node (V := line_frames) (format c) (num_frames c)
    (fun n p => at_origin (sample c n p)).

(** A filter that smooths more when it is given a [sigma]. *)
Definition line_lowpass (c : node (V := line_frames)) (kw : option R * Z)
  : option (node (V := line_frames)) :=
  match fst kw with
  | None => Some (even_node c)
  | Some _ => Some (origin_node c)
  end.

(** ** The rest of the engine

    [std.Convolution] is modelled as the engine documents it, over the
    positions it reads; what else the remaining filters call enters as the
    fields of a class. *)

Class Core {V : Frames} : Type := {
  (** The position [std.Convolution] reads at column offset [dx] and row
      offset [dy] of a position, borders included. *)
  tap : Z -> Z -> spot -> spot;
  tap_0 : forall s, tap 0 0 s = s;
  depth_kwargs : Type;
  (** [mvf.Depth(clip, depth=..., sample=..., **depth_args)], on a clip
      and on a clip whose frames are made on request. *)
  mvf_Depth : node -> Z -> sample_type -> depth_kwargs -> option node;
  mvf_Depth_frames :
    lazy_node -> Z -> sample_type -> depth_kwargs -> option lazy_node;
  (** [muf.BoxFilter(clip, radius, radius_v)] *)
  muf_BoxFilter : node -> Z -> Z -> option node;
  (** [core.std.MakeDiff(clipa, clipb, planes=planes)] *)
  std_MakeDiff : node -> node -> list Z -> option node;
  (** [PlaneStatsAverage] of plane 0 of a frame, as
      [core.std.PlaneStats(clip, plane=[0])] sets it. *)
  PlaneStatsAverage : node -> Z -> R
}.

Inductive conv_mode : Type := mode_s | mode_h | mode_v.

Fixpoint distinct (l : list Z) : bool :=
  match l with
  | [] => true
  | i :: rest => negb (existsb (Z.eqb i) rest) && distinct rest
  end.

Section Filters.

Context {V : Frames} {P : Plugins} {core : Core}.

(** A clip that is there already, as a clip made on request. *)
Definition ready (clip : node) : lazy_node :=
  mk_lazy (format clip) (num_frames clip) (fun n => Some (sample clip n)).

(** ** [std.Convolution] *)

(** Offsets [-len/2 .. len/2]. *)
Definition centred (len : nat) : list Z :=
  map (fun i => (i - Z.of_nat (len / 2))%Z) (range 0 (Z.of_nat len)).

Definition square (side : nat) : list (Z * Z) :=
  flat_map (fun dy => map (fun dx => (dx, dy)) (centred side)) (centred side).

(** A square matrix has 9 or 25 entries, a line an odd number of 3 to 25. *)
Definition offsets (mode : conv_mode) (len : nat) : option (list (Z * Z)) :=
  match mode with
  | mode_s =>
      if (len =? 9)%nat then Some (square 3)
      else if (len =? 25)%nat then Some (square 5)
      else None
  | mode_h =>
      if Nat.odd len && (3 <=? len)%nat && (len <=? 25)%nat
      then Some (map (fun dx => (dx, 0%Z)) (centred len))
      else None
  | mode_v =>
      if Nat.odd len && (3 <=? len)%nat && (len <=? 25)%nat
      then Some (map (fun dy => (0%Z, dy)) (centred len))
      else None
  end.

(** Which planes are processed; an empty list, an index out of range or
    one given twice is an error. *)
Definition planes_arg (f : video_format) (planes : option (list Z))
  : option (nat -> bool) :=
  match planes with
  | None => Some (fun _ => true)
  | Some [] => None
  | Some ps =>
      if forallb (fun i => (0 <=? i)%Z && (i <? Z.of_nat (fmt_num_planes f))%Z)
           ps
         && distinct ps
      then Some (fun p => existsb (Z.eqb (Z.of_nat p)) ps)
      else None
  end.

Definition weighted (clip : node) (n : Z) (p : nat) (s : spot)
  (matrix : list R) (offs : list (Z * Z)) : R :=
  fold_right
    (fun mo acc => fst mo * sample clip n p (tap (fst (snd mo)) (snd (snd mo)) s)
                   + acc)
    0 (List.combine matrix offs).

(** [core.std.Convolution(clip, matrix, bias, divisor, planes, mode)]: a
    divisor of 0 stands for the sum of the matrix, or 1 when that is 0. *)
Definition std_Convolution (clip : node) (matrix : list R) (bias divisor : R)
  (planes : option (list Z)) (mode : conv_mode) : option node :=
  offs <- offsets mode (length matrix) ;;
  processed <- planes_arg (format clip) planes ;;
  let total := fold_right Rplus 0 matrix in
  let divisor := if Req_dec_T divisor 0
                 then if Req_dec_T total 0 then 1 else total
                 else divisor in
  Some (mk_node (format clip) (num_frames clip)
          (fun n p s =>
             if processed p
             then store (format clip)
                    (weighted clip n p s matrix offs / divisor + bias)
             else sample clip n p s)).

(** ** [sbr_detail] (lines 468-527) *)

Inductive py_planes : Type :=
| planes_None
| planes_int (i : Z)
| planes_list (ps : list Z).

Definition sbr_detail (clip : node) (r : Z) (planes : py_planes) (mode : Z)
  : option node :=
  let planes := match planes with
                | planes_None =>
                    range 0 (Z.of_nat (fmt_num_planes (format clip)))
                | planes_int i => [i]
                | planes_list ps => ps
                end in
  np <- match fmt_sample_type (format clip) with
        | INTEGER =>
            neutral <- py_lshift 1 (fmt_bits_per_sample (format clip) - 1) ;;
            one <- py_lshift 1 (fmt_bits_per_sample (format clip)) ;;
            Some (IZR neutral, IZR (one - 1))
        | FLOAT => Some (0.5, 1)
        end ;;
  let neutral := fst np in
  let peak := snd np in
  let matrix1 := [1; 2; 1; 2; 4; 2; 1; 2; 1] in
  let matrix2 := [1; 1; 1; 1; 1; 1; 1; 1; 1] in
  RG11 <- std_Convolution clip matrix1 0 0 (Some planes) mode_s ;;
  RG11 <- for_each (range 0 (r - 1))
            (fun _ RG11 => std_Convolution RG11 matrix2 0 0 (Some planes) mode_s)
            RG11 ;;
  RG11D <- std_MakeDiff clip RG11 planes ;;
  RG11DS <- std_Convolution RG11D matrix1 0 0 (Some planes) mode_s ;;
  RG11DS <- for_each (range 0 (r - 1))
              (fun _ RG11DS =>
                 std_Convolution RG11DS matrix2 0 0 (Some planes) mode_s)
              RG11DS ;;
  (* no branch binds [expr] for another mode *)
  let expr :=
    if (mode =? 0)%Z then
      Some [Rpn.x; Rpn.y; Rpn.sub; Rpn.x; Rpn.num neutral; Rpn.sub; Rpn.mul;
            Rpn.num 0; Rpn.lt; Rpn.num peak; Rpn.num 0; Rpn.tern]
    else if (mode =? 1)%Z then
      Some [Rpn.x; Rpn.y; Rpn.sub; Rpn.abs; Rpn.x; Rpn.num neutral; Rpn.sub;
            Rpn.abs; Rpn.lt; Rpn.num peak; Rpn.num 0; Rpn.tern]
    else if (mode =? 2)%Z then
      Some [Rpn.x; Rpn.y; Rpn.sub; Rpn.x; Rpn.num neutral; Rpn.sub; Rpn.mul;
            Rpn.num 0; Rpn.lt;
            Rpn.x; Rpn.y; Rpn.sub; Rpn.abs; Rpn.x; Rpn.num neutral; Rpn.sub;
            Rpn.abs; Rpn.lt; Rpn.or_; Rpn.num peak; Rpn.num 0; Rpn.tern]
    else None in
  exprs <- collect (fun i => if existsb (Z.eqb i) planes then expr else Some [])
             (range 0 (Z.of_nat (fmt_num_planes (format clip)))) ;;
  node_Expr [RG11D; RG11DS] exprs.

(** ** [BernsteinFilter] (lines 297-327) *)

Definition BernsteinFilter (clip : node) (iter : Z) (depth_args : depth_kwargs)
  : option node :=
  let bits := fmt_bits_per_sample (format clip) in
  let sample_ := fmt_sample_type (format clip) in
  clip <- mvf_Depth clip 32 FLOAT depth_args ;;
  clip <- for_each (range 0 iter)
            (fun _ clip =>
               d1 <- std_Convolution clip [1; -2; 1] 0 2 None mode_h ;;
               d2 <- std_Convolution clip [1; -2; 1] 0 2 None mode_v ;;
               node_Expr [clip; d1; d2]
                 [[Rpn.y; Rpn.abs; Rpn.z; Rpn.abs; Rpn.lt;
                   Rpn.x; Rpn.y; Rpn.add; Rpn.x; Rpn.z; Rpn.add; Rpn.tern]])
            clip ;;
  mvf_Depth clip bits sample_ depth_args.

(** ** [tv] (lines 244-294) *)

Definition tv (I : node) (iter : Z) (dt : option R) (ep lam : R)
  (I0 : option node) (C : R) : option node :=
  let dt := match dt with
            | None => ep / 5
            | Some dt => dt
            end in
  let I0 := match I0 with
            | None => I
            | Some I0 => I0
            end in
  let ep2 := ep * ep in
  let isFloat := sample_type_eqb (fmt_sample_type (format I)) FLOAT in
  let neutral := if isFloat then 0
                 else muf_scale 128 (fmt_bits_per_sample (format I)) in
  for_each (range 0 iter)
    (fun _ I =>
       I_x <- std_Convolution I [-1; 0; 1] neutral 2 None mode_h ;;
       I_y <- std_Convolution I [-1; 0; 1] neutral 2 None mode_v ;;
       I_xx <- std_Convolution I [1; -2; 1] neutral (if isFloat then 1 else 4)
                 None mode_h ;;
       I_yy <- std_Convolution I [1; -2; 1] neutral (if isFloat then 1 else 4)
                 None mode_v ;;
       Dp <- std_Convolution I [1; 0; 0; 0; 0; 0; 0; 0; 1] 0 2 None mode_s ;;
       Dm <- std_Convolution I [0; 0; 1; 0; 0; 0; 1; 0; 0] 0 2 None mode_s ;;
       I_xy <- node_Expr [Dp; Dm]
                 [[Rpn.x; Rpn.y; Rpn.sub; Rpn.num 2; Rpn.div;
                   Rpn.num neutral; Rpn.add]] ;;
       let expr :=
         if isFloat then
           [Rpn.x; Rpn.num dt;
            Rpn.a; Rpn.num ep2; Rpn.z; Rpn.dup; Rpn.mul; Rpn.add; Rpn.mul;
            Rpn.num 2; Rpn.y; Rpn.mul; Rpn.z; Rpn.mul; Rpn.b; Rpn.mul;
            Rpn.sub;
            Rpn.c; Rpn.num ep2; Rpn.y; Rpn.dup; Rpn.mul; Rpn.add; Rpn.mul;
            Rpn.add;
            Rpn.num ep2; Rpn.y; Rpn.dup; Rpn.mul; Rpn.add;
            Rpn.z; Rpn.dup; Rpn.mul; Rpn.add; Rpn.num 1.5; Rpn.pow; Rpn.div;
            Rpn.num lam; Rpn.d; Rpn.x; Rpn.sub; Rpn.num C; Rpn.add; Rpn.mul;
            Rpn.add; Rpn.mul; Rpn.add]
         else
           [Rpn.x; Rpn.num dt;
            Rpn.a; Rpn.num neutral; Rpn.sub; Rpn.num 4; Rpn.mul;
            Rpn.num ep2; Rpn.z; Rpn.num neutral; Rpn.sub; Rpn.dup; Rpn.mul;
            Rpn.add; Rpn.mul;
            Rpn.num 2; Rpn.y; Rpn.num neutral; Rpn.sub; Rpn.mul;
            Rpn.z; Rpn.num neutral; Rpn.sub; Rpn.mul;
            Rpn.b; Rpn.num neutral; Rpn.sub; Rpn.mul; Rpn.sub;
            Rpn.c; Rpn.num neutral; Rpn.sub; Rpn.num 4; Rpn.mul;
            Rpn.num ep2; Rpn.y; Rpn.num neutral; Rpn.sub; Rpn.dup; Rpn.mul;
            Rpn.add; Rpn.mul; Rpn.add;
            Rpn.num ep2; Rpn.y; Rpn.num neutral; Rpn.sub; Rpn.dup; Rpn.mul;
            Rpn.add;
            Rpn.z; Rpn.num neutral; Rpn.sub; Rpn.dup; Rpn.mul; Rpn.add;
            Rpn.num 1.5; Rpn.pow; Rpn.div;
            Rpn.num lam; Rpn.d; Rpn.x; Rpn.sub; Rpn.num C; Rpn.add; Rpn.mul;
            Rpn.add; Rpn.mul; Rpn.add] in
       node_Expr [I; I_x; I_y; I_xx; I_xy; I_yy; I0] [expr])
    I.

(** ** [Wiener2] (lines 185-241) *)

(** The expression of lines 235 and 239. *)
Definition Wiener2_expr (noise : R) : list Rpn.token :=
  [Rpn.y; Rpn.z; Rpn.num noise; Rpn.sub; Rpn.num 0; Rpn.max;
   Rpn.z; Rpn.num noise; Rpn.max; Rpn.div;
   Rpn.x; Rpn.y; Rpn.sub; Rpn.mul; Rpn.add].

Definition Wiener2 (input : node) (radius_v : Z) (radius_h : option Z)
  (noise : option R) (depth_args : depth_kwargs) : option lazy_node :=
  if (1 <? fmt_num_planes (format input))%nat then None
  else
    let bits := fmt_bits_per_sample (format input) in
    let sampleType := fmt_sample_type (format input) in
    let radius_h := match radius_h with
                    | None => radius_v
                    | Some radius_h => radius_h
                    end in
    input32 <- mvf_Depth input 32 FLOAT depth_args ;;
    localMean <- muf_BoxFilter input32 (radius_h + 1) (radius_v + 1) ;;
    squares <- node_Expr [input32] [[Rpn.x; Rpn.dup; Rpn.mul]] ;;
    localVar <- muf_BoxFilter squares (radius_h + 1) (radius_v + 1) ;;
    localVar <- node_Expr [localVar; localMean]
                  [[Rpn.x; Rpn.y; Rpn.dup; Rpn.mul; Rpn.sub]] ;;
    match noise with
    | None =>
        let FLT := fun n =>
          let noise := PlaneStatsAverage localVar n in
          node_Expr [input32; localMean; localVar] [Wiener2_expr noise] in
        let flt := FrameEval input32 FLT in
        mvf_Depth_frames flt bits sampleType depth_args
    | Some noise =>
        flt <- node_Expr [input32; localMean; localVar] [Wiener2_expr noise] ;;
        res <- mvf_Depth flt bits sampleType depth_args ;;
        Some (ready res)
    end.

(** *** Names for the parts of [sbr_detail] *)

(** Lines 493-496. *)
Definition sbr_planes (clip : node) (planes : py_planes) : list Z :=
  match planes with
  | planes_None => range 0 (Z.of_nat (fmt_num_planes (format clip)))
  | planes_int i => [i]
  | planes_list ps => ps
  end.

(** Lines 498-503: [neutral] and [peak]. *)
Definition sbr_levels (f : video_format) : option (R * R) :=
  match fmt_sample_type f with
  | INTEGER =>
      neutral <- py_lshift 1 (fmt_bits_per_sample f - 1) ;;
      one <- py_lshift 1 (fmt_bits_per_sample f) ;;
      Some (IZR neutral, IZR (one - 1))
  | FLOAT => Some (0.5, 1)
  end.

(** Lines 505-516: [RG11D] and [RG11DS]. *)
Definition sbr_diffs (clip : node) (r : Z) (planes : list Z)
  : option (node * node) :=
  RG11 <- std_Convolution clip [1; 2; 1; 2; 4; 2; 1; 2; 1] 0 0 (Some planes)
            mode_s ;;
  RG11 <- for_each (range 0 (r - 1))
            (fun _ RG11 =>
               std_Convolution RG11 [1; 1; 1; 1; 1; 1; 1; 1; 1] 0 0
                 (Some planes) mode_s)
            RG11 ;;
  RG11D <- std_MakeDiff clip RG11 planes ;;
  RG11DS <- std_Convolution RG11D [1; 2; 1; 2; 4; 2; 1; 2; 1] 0 0
              (Some planes) mode_s ;;
  RG11DS <- for_each (range 0 (r - 1))
              (fun _ RG11DS =>
                 std_Convolution RG11DS [1; 1; 1; 1; 1; 1; 1; 1; 1] 0 0
                   (Some planes) mode_s)
              RG11DS ;;
  Some (RG11D, RG11DS).

(** What the three expressions test, on a sample [x] of [RG11D] and the
    sample [y] of [RG11DS] at the same place. *)
Definition sbr_test (mode : Z) (neutral x y : R) : bool :=
  let crosses := if Rlt_dec ((x - y) * (x - neutral)) 0 then true else false in
  let closer :=
    if Rlt_dec (Rabs (x - y)) (Rabs (x - neutral)) then true else false in
  if (mode =? 0)%Z then crosses
  else if (mode =? 1)%Z then closer
  else crosses || closer.

(** One pass of [BernsteinFilter] on a plane, in exact arithmetic: the
    mean of the left and right neighbours or the mean of the upper and
    lower ones, whichever is closer to the sample. *)
Definition Bernstein_pass (u : spot -> R) : spot -> R :=
  fun s =>
    let h := (u (tap (-1) 0 s) + u (tap 1 0 s)) / 2 in
    let v := (u (tap 0 (-1) s) + u (tap 0 1 s)) / 2 in
    if Rlt_dec (Rabs (h - u s)) (Rabs (v - u s)) then h else v.

(** What the expression of [Wiener2] computes from a sample [x], the local
    mean and the local variance: the mean, and the part of the difference
    to it that the gain lets through. *)
Definition Wiener2_gain (noise var : R) : R :=
  Rmax (var - noise) 0 / Rmax var noise.

Definition Wiener2_value (noise x mean var : R) : R :=
  mean + Wiener2_gain noise var * (x - mean).

End Filters.

(** The line again: a convolution reads along it, rows do not exist. *)
Definition line_tap (dx dy s : Z) : Z := (s + dx)%Z.

Definition line_Depth (c : node (V := line_frames)) (depth : Z)
  (st : sample_type) (kw : unit) : option (node (V := line_frames)) :=
  Some (mk_node (V := line_frames)
          (mk_format (fmt_color_family (format c)) st depth
             (fmt_num_planes (format c)))
          (num_frames c) (sample c)).

Definition line_Depth_frames (c : lazy_node (V := line_frames)) (depth : Z)
  (st : sample_type) (kw : unit) : option (lazy_node (V := line_frames)) :=
  Some (mk_lazy (V := line_frames)
          (mk_format (fmt_color_family (lazy_format c)) st depth
             (fmt_num_planes (lazy_format c)))
          (lazy_num_frames c) (request c)).

Definition line_MakeDiff (a b : node (V := line_frames)) (planes : list Z)
  : option (node (V := line_frames)) :=
  Some (mk_node (V := line_frames) (format a) (num_frames a)
          (fun n p s => sample a n p s - sample b n p s)).

Definition line_core : Core (V := line_frames) :=
  @Build_Core line_frames line_tap Z.add_0_r unit line_Depth
    line_Depth_frames (fun c _ _ => Some (even_node c)) line_MakeDiff
    (fun c n => sample c n 0%nat 1%Z).

(** A flat float clip: frame [n] is [n] everywhere. *)
Definition flat_node : node (V := line_frames) :=
  mk_node (V := line_frames) grays 10 (fun n _ _ => IZR n).

(** The step on the line, as [line_Depth] makes it a float clip. *)
Definition step32 : node (V := line_frames) :=
  mk_node (V := line_frames) (mk_format GRAY FLOAT 32 1) 10 (sample step_node).

(** The ramp, as [line_Depth] makes it a float clip. *)
Definition ramp32 : node (V := line_frames) :=
  mk_node (V := line_frames) (mk_format GRAY FLOAT 32 1) 10 (sample ramp_node).

(** * Properties *)

(** ** Helper lemmas on the Python layer *)

Lemma for_each_app {I S : Type} (xs ys : list I) (body : I -> S -> option S)
  (s : S) :
  for_each (xs ++ ys) body s = s' <- for_each xs body s ;; for_each ys body s'.
Proof.
  revert s; induction xs as [|i xs IH]; intros s; simpl; [reflexivity|].
  destruct (body i s) as [s'|]; simpl; [apply IH | reflexivity].
Qed.

Lemma range_nonpos (a b : Z) : (b <= a)%Z -> range a b = [].
Proof.
  intros Hle. unfold range.
  replace (Z.to_nat (b - a)) with 0%nat by lia. reflexivity.
Qed.

Lemma range_snoc (n : nat) :
  range 1 (Z.of_nat (S n) + 1) = range 1 (Z.of_nat n + 1) ++ [Z.of_nat (S n)].
Proof.
  unfold range.
  replace (Z.to_nat (Z.of_nat (S n) + 1 - 1)) with (S n) by lia.
  replace (Z.to_nat (Z.of_nat n + 1 - 1)) with n by lia.
  rewrite seq_S, map_app. cbn [map]. do 2 f_equal. lia.
Qed.

Lemma py_div_nonzero (a b : R) : b <> 0 -> py_div a b = Some (a / b).
Proof.
  intros Hb. unfold py_div. destruct (Req_dec_T b 0); [contradiction | reflexivity].
Qed.

Lemma math_log_pos (x : R) : 0 < x -> math_log x = Some (ln x).
Proof.
  intros Hx. unfold math_log. destruct (Rlt_dec 0 x); [reflexivity | contradiction].
Qed.

Lemma math_sqrt_nat (n : nat) :
  math_sqrt (Z.of_nat n) = Some (sqrt (INR n)).
Proof.
  unfold math_sqrt. destruct (Z.ltb_spec (Z.of_nat n) 0); [lia|].
  now rewrite <- INR_IZR_INZ.
Qed.

(** [math_ceil x] is the least integer that is not below [x]. *)
Lemma math_ceil_bounds (x : R) :
  x <= IZR (math_ceil x) < x + 1.
Proof.
  unfold math_ceil. pose proof (Zceil_bound x). lra.
Qed.

Lemma math_ceil_least (x : R) (z : Z) : x <= IZR z -> (math_ceil x <= z)%Z.
Proof.
  intros Hz. destruct (math_ceil_bounds x) as [_ Hc].
  assert (Hlt : IZR (math_ceil x) < IZR (z + 1)) by (rewrite plus_IZR; lra).
  apply lt_IZR in Hlt. lia.
Qed.

Lemma math_ceil_IZR (z : Z) : math_ceil (IZR z) = z.
Proof.
  apply Zceil_eq. lra.
Qed.


Lemma py_max_Rmax (a b : R) : py_max a b = Rmax a b.
Proof.
  unfold py_max, Rmax.
  destruct (Rlt_dec a b), (Rle_dec a b); try reflexivity; lra.
Qed.

Lemma py_min_Rmin (a b : R) : py_min a b = Rmin a b.
Proof.
  unfold py_min, Rmin.
  destruct (Rlt_dec b a), (Rle_dec a b); try reflexivity; lra.
Qed.

(** ** The definitions on small inputs *)

Example range_1_4 : range 1 4 = [1; 2; 3]%Z.
Proof. reflexivity. Qed.

Example range_negative : range 1 (-3 + 1) = [].
Proof. reflexivity. Qed.

Example rpn_sum_product :
  rpn 3 [tx; ty; tz; tmul; tadd] = Some (Add (Var 0) (Mul (Var 1) (Var 2))).
Proof. reflexivity. Qed.

Example rpn_dup_square :
  rpn 1 [tnum (-0.5); tx; tdup; tmul; tmul; texp]
  = Some (Exp (Mul (Num (-0.5)) (Mul (Var 0) (Var 0)))).
Proof. reflexivity. Qed.

Example rpn_missing_clip : rpn 2 [tx; ty; tz; tmul; tadd] = None.
Proof. reflexivity. Qed.

Example rpn_underflow : rpn 1 [tx; tadd] = None.
Proof. reflexivity. Qed.

Example rpn_leftover : rpn 2 [tx; ty] = None.
Proof. reflexivity. Qed.

Example select_filter_7 :
  select_filter 7 3 = partial_BoxFilter (3 + 1).
Proof. reflexivity. Qed.

Example math_ceil_10 : math_ceil 10 = 10%Z.
Proof. apply math_ceil_IZR. Qed.

(** ** The accumulation loop refines the recurrence *)

Section GPAFacts.

Context {E : Engine}.
Variable Filter : plane -> plane.

Lemma sqrt_INR_S_neq_0 (n : nat) : sqrt (INR (S n)) <> 0.
Proof.
  apply Rgt_not_eq, sqrt_lt_R0. apply lt_0_INR. lia.
Qed.

Lemma make_H_eq (x : plane) (sigmaR : R) :
  make_H x sigmaR = Some (Spec.H x sigmaR).
Proof. reflexivity. Qed.

Lemma init_acc_eq (x : plane) (sigmaR : R) :
  init_acc (Spec.H x sigmaR) Filter = Some (acc_of (Spec.terms0 Filter x sigmaR)).
Proof.
  unfold init_acc, Expr. cbn.
  assert (HF : (fun px : pixel =>
                  exp (-0.5 * (Spec.H x sigmaR px * Spec.H x sigmaR px)))
               = (fun px => exp (- Spec.H x sigmaR px ^ 2 / 2))).
  { apply functional_extensionality; intros px. f_equal. lra. }
  unfold acc_of, Spec.terms0. cbn. rewrite HF. reflexivity.
Qed.

Lemma loop_body_eq (x : plane) (sigmaR : R) (n : nat) (t : Spec.terms) :
  loop_body (Spec.H x sigmaR) Filter (Z.of_nat (S n)) (acc_of t)
  = Some (acc_of (Spec.next Filter x sigmaR (S n) t)).
Proof.
  unfold loop_body. rewrite math_sqrt_nat. cbn [bind].
  rewrite py_div_nonzero by apply sqrt_INR_S_neq_0.
  unfold Expr. cbn -[INR sqrt].
  set (s := sqrt (INR (S n))).
  assert (Hs : s <> 0) by apply sqrt_INR_S_neq_0.
  assert (HF : (fun px : pixel => Spec.H x sigmaR px * Spec.F_ t px * (1 / s))
               = (fun px => Spec.H x sigmaR px * Spec.F_ t px / s)).
  { apply functional_extensionality; intros px. now field. }
  assert (HG : (fun px : pixel => Spec.H x sigmaR px * Spec.G_ t px * (1 / s))
               = (fun px => Spec.H x sigmaR px * Spec.G_ t px / s)).
  { apply functional_extensionality; intros px. now field. }
  rewrite HF, HG. reflexivity.
Qed.

Lemma loop_series (x : plane) (sigmaR : R) (n : nat) :
  for_each (range 1 (Z.of_nat n + 1)) (loop_body (Spec.H x sigmaR) Filter)
           (acc_of (Spec.terms0 Filter x sigmaR))
  = Some (acc_of (Spec.series Filter x sigmaR n)).
Proof.
  induction n as [|n IH].
  - reflexivity.
  - rewrite range_snoc, for_each_app, IH. cbn [bind for_each].
    rewrite loop_body_eq. reflexivity.
Qed.

Lemma accumulate_series (x : plane) (sigmaR : R) (iteration : Z) :
  accumulate x sigmaR Filter iteration
  = Some (acc_of (Spec.series Filter x sigmaR (Z.to_nat iteration))).
Proof.
  unfold accumulate. rewrite make_H_eq. cbn [bind].
  rewrite init_acc_eq. cbn [bind].
  destruct (Z.le_gt_cases iteration 0) as [Hle|Hgt].
  - rewrite range_nonpos by lia.
    replace (Z.to_nat iteration) with 0%nat by lia. reflexivity.
  - rewrite <- (Z2Nat.id iteration) at 1 by lia. apply loop_series.
Qed.

Lemma combine_eq (t : Spec.terms) (sigmaR : R) :
  combine (acc_of t) sigmaR
  = Some (fun px => sigmaR * Spec.P_ t px / (Spec.Q_ t px + 1e-5) + T).
Proof.
  unfold combine, Expr. cbn. f_equal.
  apply functional_extensionality; intros px.
  unfold Rdiv. ring.
Qed.

Lemma GPA_float_output (x : plane) (sigmaR : R) (iteration : Z) :
  GPA_float x sigmaR Filter iteration
  = Some (Spec.output Filter x sigmaR (Z.to_nat iteration)).
Proof.
  unfold GPA_float. rewrite accumulate_series. cbn [bind].
  apply combine_eq.
Qed.

(** With no pass of the loop the output is the constant [T]. *)
Lemma output_0 (x : plane) (sigmaR : R) :
  Spec.output Filter x sigmaR 0 = BlankClip T.
Proof.
  apply functional_extensionality; intros px.
  unfold Spec.output, BlankClip. cbn. unfold T. lra.
Qed.

(** On a flat input at [T] every term from the first on is constant. *)
Lemma series_flat (x : plane) (sigmaR : R) (n : nat) :
  (forall c, Filter (BlankClip c) = BlankClip c) ->
  (forall px, x px = T) ->
  sigmaR <> 0 ->
  Spec.series Filter x sigmaR (S n)
  = Spec.mk_terms (BlankClip 0) (BlankClip 0) (BlankClip 0)
                  (BlankClip 0) (BlankClip 1).
Proof.
  intros HFilter Hx Hs.
  assert (HH : Spec.H x sigmaR = BlankClip 0).
  { apply functional_extensionality; intros px.
    unfold Spec.H, BlankClip. rewrite Hx. now field. }
  assert (HF0 : (fun px : pixel => exp (- BlankClip 0 px ^ 2 / 2))
                = BlankClip 1).
  { plane_ext px. unfold BlankClip.
    replace (- 0 ^ 2 / 2) with 0 by lra. apply exp_0. }
  assert (HF1 : forall (c : R) (i : nat),
             (fun px : pixel => BlankClip 0 px * BlankClip c px / sqrt (INR i))
             = BlankClip 0).
  { intros c i. plane_ext px. unfold BlankClip, Rdiv. ring. }
  induction n as [|n IH].
  - unfold Spec.series, Spec.terms0, Spec.next.
    cbn [Spec.F_ Spec.Fbar_ Spec.G_ Spec.P_ Spec.Q_].
    rewrite HH.
    assert (HF : (fun px : pixel =>
                    BlankClip 0 px * exp (- BlankClip 0 px ^ 2 / 2) / sqrt (INR 1))
                 = BlankClip 0).
    { plane_ext px. unfold BlankClip, Rdiv. ring. }
    rewrite HF, HF0, !HFilter.
    f_equal; plane_ext px; unfold BlankClip, Rdiv; ring.
  - change (Spec.series Filter x sigmaR (S (S n)))
      with (Spec.next Filter x sigmaR (S (S n)) (Spec.series Filter x sigmaR (S n))).
    rewrite IH. unfold Spec.next.
    cbn [Spec.F_ Spec.Fbar_ Spec.G_ Spec.P_ Spec.Q_].
    rewrite HH, HF1, HFilter.
    f_equal; plane_ext px; unfold BlankClip; ring.
Qed.

End GPAFacts.

(** ** The accumulator and its output *)

(** C1.  For every input plane [x], every [sigmaR > 0], every positive
    iteration count [N] and every low-pass operator [Filter], lines 411-427
    return the plane [sigmaR * P_N / (Q_N + 1e-5) + T] with [T = 0.5], where
    [P_N] and [Q_N] are the terms of the specification's recurrence:
    [H = (x - T) / sigmaR], [F_0 = exp (- H^2 / 2)], [G_0 = 1],
    [P_0 = Q_0 = 0], [Fbar_0 = Filter F_0], and for [i = 1..N]
    [Q_i = Q_(i-1) + G_(i-1) * Fbar_(i-1)], [F_i = H * F_(i-1) / sqrt i],
    [Fbar_i = Filter F_i], [P_i = P_(i-1) + G_(i-1) * Fbar_i * sqrt i],
    [G_i = H * G_(i-1) / sqrt i]. *)
Theorem GPA_float_recurrence {E : Engine} (Filter : plane -> plane)
  (x : plane) (sigmaR : R) (N : Z) :
  0 < sigmaR -> (0 < N)%Z ->
  T = 0.5 /\
  GPA_float x sigmaR Filter N
  = Some (Spec.output Filter x sigmaR (Z.to_nat N)).
Proof.
  intros _ _. split; [reflexivity | apply GPA_float_output].
Qed.

(** On the ramp, with the box filter and two passes. *)
Lemma GPA_float_recurrence_witness :
  T = 0.5 /\
  GPA_float (E := line_engine) ramp 0.15 line_box 2
  = Some (Spec.output (E := line_engine) line_box ramp 0.15 2).
Proof.
  apply (GPA_float_recurrence (E := line_engine) line_box ramp 0.15 2);
    [lra | lia].
Defined.

(** The same through the wrapper: with a positive iteration count GPA
    returns the output of the recurrence for the selected filter, converted
    back to the format of the input clip. *)
Lemma GPA_positive_iteration {E : Engine} (c : clip) (sigmaS sigmaR : R)
  (mode N : Z) (eps : R) (da : depth_args) :
  (0 < N)%Z ->
  GPA c sigmaS sigmaR mode N eps da
  = Some (Depth_back
            (Spec.output (call (select_filter mode sigmaS))
                         (Depth_float32 c da) sigmaR (Z.to_nat N))
            (bits_per_sample c) (format_sample_type c) da).
Proof.
  intros HN. unfold GPA.
  destruct (Z.eqb_spec N 0) as [Hz|Hz]; [lia|].
  cbn [bind]. rewrite GPA_float_output. reflexivity.
Qed.

(** C7.  When the loop makes no pass (an iteration count of 0 reaches it),
    the accumulators [P] and [Q] are still the blank clips of colour 0, and
    the combined output [sigmaR * P / (Q + 1e-5) + T] is [T] at every
    pixel; its denominator is the constant [1e-5], which is not zero. *)
Theorem GPA_float_no_pass {E : Engine} (Filter : plane -> plane)
  (x : plane) (sigmaR : R) :
  exists (s : acc) (out : plane),
    accumulate x sigmaR Filter 0 = Some s /\
    P s = BlankClip 0 /\ Q s = BlankClip 0 /\
    combine s sigmaR = Some out /\
    GPA_float x sigmaR Filter 0 = Some out /\
    forall px,
      Q s px + 1e-5 = 1e-5 /\ 1e-5 <> 0 /\
      out px = sigmaR * P s px / (Q s px + 1e-5) + T /\
      out px = T.
Proof.
  exists (acc_of (Spec.series Filter x sigmaR 0)),
         (Spec.output Filter x sigmaR 0).
  split; [apply (accumulate_series Filter x sigmaR 0)|].
  split; [reflexivity|]. split; [reflexivity|].
  split; [apply combine_eq|].
  split; [apply (GPA_float_output Filter x sigmaR 0)|].
  intros px. unfold Spec.output, BlankClip, T. cbn.
  repeat split; lra.
Qed.

(** C8.  On an input plane that is 0.5 everywhere, with [sigmaR = 0.15],
    any iteration count [N >= 1] and any low-pass operator that maps
    constant planes to themselves, the output is 0.5 everywhere. *)
Theorem GPA_float_flat {E : Engine} (Filter : plane -> plane)
  (x : plane) (N : Z) :
  (forall c, Filter (BlankClip c) = BlankClip c) ->
  (forall px, x px = 0.5) ->
  (1 <= N)%Z ->
  exists out : plane,
    GPA_float x 0.15 Filter N = Some out /\ forall px, out px = 0.5.
Proof.
  intros HFilter Hx HN.
  exists (Spec.output Filter x 0.15 (Z.to_nat N)).
  split; [apply GPA_float_output|].
  intros px. unfold Spec.output.
  destruct (Z.to_nat N) as [|n] eqn:HNn; [lia|].
  rewrite (series_flat Filter x 0.15 n HFilter Hx) by lra.
  unfold BlankClip, T. cbn. lra.
Qed.

(** The box filter of the line engine keeps constant planes. *)
Lemma line_box_constant (c : R) :
  line_box (BlankClip (E := line_engine) c) = BlankClip (E := line_engine) c.
Proof.
  apply functional_extensionality; intros n.
  unfold line_box, BlankClip. lra.
Qed.

(** On the flat line, with the box filter and three passes. *)
Lemma GPA_float_flat_witness :
  exists out : Z -> R,
    GPA_float (E := line_engine) flat 0.15 line_box 3 = Some out /\
    forall n, out n = 0.5.
Proof.
  apply (GPA_float_flat (E := line_engine) line_box flat 3).
  - exact line_box_constant.
  - intros n. reflexivity.
  - lia.
Defined.

(** ** The wrapper: mode flag and iteration count *)

(** C9.  The mode flag is not validated, and the clip that GPA returns
    shows it: with [mode = 0] it is the recurrence run with the
    Gaussian-like operator (TCanny with [sigma = sigmaS], [mode = -1]);
    with every other value it is the recurrence run with the box filter of
    radius [sigmaS + 1], and the call is the call with [mode = 1] in every
    respect, so that no value of the flag is refused. *)
Theorem GPA_mode_not_validated {E : Engine} (c : clip) (sigmaS sigmaR : R)
  (mode iteration : Z) (eps : R) (da : depth_args) :
  let run := fun Filter : plane -> plane =>
    n <- (if (iteration =? 0)%Z
          then estimate_iteration (sigmaR * 255) T eps
          else Some iteration) ;;
    Some (Depth_back
            (Spec.output Filter (Depth_float32 c da) sigmaR (Z.to_nat n))
            (bits_per_sample c) (format_sample_type c) da) in
  (mode = 0%Z ->
   GPA c sigmaS sigmaR mode iteration eps da = run (TCanny sigmaS (-1))) /\
  (mode <> 0%Z ->
   GPA c sigmaS sigmaR mode iteration eps da = run (BoxFilter (sigmaS + 1))) /\
  (mode <> 0%Z ->
   GPA c sigmaS sigmaR mode iteration eps da
   = GPA c sigmaS sigmaR 1 iteration eps da).
Proof.
  intros run.
  assert (Hrun : forall m,
             GPA c sigmaS sigmaR m iteration eps da
             = run (call (select_filter m sigmaS))).
  { intros m. unfold GPA, run.
    destruct (if (iteration =? 0)%Z
              then estimate_iteration (sigmaR * 255) T eps
              else Some iteration) as [n|]; [|reflexivity].
    cbn [bind]. rewrite GPA_float_output. reflexivity. }
  split; [|split].
  - intros ->. rewrite Hrun. reflexivity.
  - intros Hm. rewrite Hrun. unfold select_filter.
    destruct (Z.eqb_spec mode 0); [contradiction | reflexivity].
  - intros Hm. rewrite !Hrun. unfold select_filter.
    destruct (Z.eqb_spec mode 0); [contradiction | reflexivity].
Qed.

(** Mode 7 with five passes on the line engine: the box filter of radius
    [3 + 1], as with mode 1. *)
Lemma GPA_mode_not_validated_witness :
  GPA (E := line_engine) ramp 3 0.15 7 5 1e-3 tt
  = Some (@Depth_back line_engine
            (Spec.output (@BoxFilter line_engine (3 + 1))
               (@Depth_float32 line_engine ramp tt) 0.15 5)
            (@bits_per_sample line_engine ramp)
            (@format_sample_type line_engine ramp) tt) /\
  GPA (E := line_engine) ramp 3 0.15 7 5 1e-3 tt
  = GPA (E := line_engine) ramp 3 0.15 1 5 1e-3 tt.
Proof.
  destruct (GPA_mode_not_validated (E := line_engine) ramp 3 0.15 7 5 1e-3 tt)
    as (_ & Hbox & Hone).
  split; [apply Hbox | apply Hone]; discriminate.
Defined.

(** C10.  With a negative iteration count the estimator is not consulted,
    [range(1, iteration + 1)] is empty, and GPA returns the constant clip of
    value [T = 0.5] converted to the format of the input clip: the samples
    of the input play no part. *)
Theorem GPA_negative_iteration {E : Engine} (c : clip) (sigmaS sigmaR : R)
  (mode iteration : Z) (eps : R) (da : depth_args) :
  (iteration < 0)%Z ->
  range 1 (iteration + 1) = [] /\
  GPA c sigmaS sigmaR mode iteration eps da
  = Some (Depth_back (BlankClip 0.5) (bits_per_sample c)
                     (format_sample_type c) da).
Proof.
  intros Hneg. split; [apply range_nonpos; lia|].
  unfold GPA. destruct (Z.eqb_spec iteration 0) as [Hi|Hi]; [lia|].
  cbn [bind]. rewrite GPA_float_output. cbn [bind].
  replace (Z.to_nat iteration) with 0%nat by lia.
  rewrite output_0. reflexivity.
Qed.

(** On the line engine, with [iteration = -3]. *)
Lemma GPA_negative_iteration_witness :
  range 1 (-3 + 1) = [] /\
  GPA (E := line_engine) ramp 3 0.15 0 (-3) 1e-3 tt
  = Some (BlankClip (E := line_engine) 0.5).
Proof.
  apply (GPA_negative_iteration (E := line_engine) ramp 3 0.15 0 (-3) 1e-3 tt).
  lia.
Defined.

(** ** The estimator: the two constant cases *)

(** C5.  For every [sigmaR > 70] the estimator returns exactly 10. *)
Theorem estimate_iteration_above_70 (sigmaR T eps : R) :
  sigmaR > 70 -> T > 0 -> eps > 0 ->
  estimate_iteration sigmaR T eps = Some 10%Z.
Proof.
  intros Hs _ _. unfold estimate_iteration.
  destruct (Rgt_dec sigmaR 70); [reflexivity | contradiction].
Qed.

(** At [sigmaR = 100]. *)
Lemma estimate_iteration_above_70_witness :
  estimate_iteration 100 0.5 1e-3 = Some 10%Z.
Proof.
  apply estimate_iteration_above_70; lra.
Defined.

(** C6.  For every [sigmaR] with [0 < sigmaR < 5] the estimator returns
    exactly 800. *)
Theorem estimate_iteration_below_5 (sigmaR T eps : R) :
  0 < sigmaR -> sigmaR < 5 -> T > 0 -> eps > 0 ->
  estimate_iteration sigmaR T eps = Some 800%Z.
Proof.
  intros _ Hs _ _. unfold estimate_iteration.
  destruct (Rgt_dec sigmaR 70); [lra|].
  destruct (Rlt_dec sigmaR 5); [reflexivity | contradiction].
Qed.

(** At [sigmaR = 2]. *)
Lemma estimate_iteration_below_5_witness :
  estimate_iteration 2 0.5 1e-3 = Some 800%Z.
Proof.
  apply estimate_iteration_below_5; lra.
Defined.

(** ** The estimator: the middle case refines the specification *)

Lemma math_e_pos : 0 < math_e.
Proof. apply exp_pos. Qed.

Lemma lambert4_eq (t : R) :
  EstimatorSpec.lambert4 t = t - t ^ 2 + 1.5 * t ^ 3 - (8 / 3) * t ^ 4.
Proof.
  unfold EstimatorSpec.lambert4, EstimatorSpec.lambert_coeff.
  cbn [fold_right Nat.sub fact Nat.mul Nat.add].
  rewrite !INR_IZR_INZ. cbn [Z.of_nat Pos.of_succ_nat Pos.succ].
  replace 1.5 with (3 / 2) by lra. field.
Qed.

(** [g' p] is the derivative of [g p q] on the positive reals, so that
    [newton (g p q) (g' p)] is Newton's method for [g p q N = 0]. *)
Lemma g_derivative (p q N : R) :
  0 < N ->
  derivable_pt_lim (EstimatorSpec.g p q) N (EstimatorSpec.g' p N).
Proof.
  intros HN. unfold EstimatorSpec.g, EstimatorSpec.g'.
  replace (ln N + 1 - p) with ((1 * ln N + N * / N) - (p * 1) - 0)
    by (field; lra).
  apply (derivable_pt_lim_minus (fun N => N * ln N - p * N) (fun _ => q)).
  - apply (derivable_pt_lim_minus (fun N => N * ln N) (fun N => p * N)).
    + apply (derivable_pt_lim_mult id ln).
      * apply derivable_pt_lim_id.
      * now apply derivable_pt_lim_ln.
    + apply (derivable_pt_lim_scal id p N 1), derivable_pt_lim_id.
  - apply derivable_pt_lim_const.
Qed.

Lemma newton_body_eq (p q : R) (i : Z) (N : R) :
  newton_body p q i N
  = EstimatorSpec.newton (EstimatorSpec.g p q) (EstimatorSpec.g' p) N.
Proof.
  unfold newton_body, EstimatorSpec.newton, EstimatorSpec.g, EstimatorSpec.g',
    math_log, py_div.
  destruct (Rlt_dec 0 N); [|reflexivity]. cbn [bind].
  destruct (Req_dec_T (ln N + 1 - p) 0); reflexivity.
Qed.

Lemma newton_loop_eq (p q : R) (idx : list Z) (N : R) :
  for_each idx (newton_body p q) N
  = EstimatorSpec.iterate (length idx)
      (EstimatorSpec.newton (EstimatorSpec.g p q) (EstimatorSpec.g' p)) N.
Proof.
  revert N; induction idx as [|i idx IH]; intros N; [reflexivity|].
  cbn [for_each length EstimatorSpec.iterate].
  rewrite newton_body_eq.
  destruct (EstimatorSpec.newton _ _ N) as [N'|]; [apply IH | reflexivity].
Qed.

(** The middle case of [estimate_iteration] and the specification's
    estimator are the same partial function. *)
Lemma estimate_iteration_refines (sigmaR T eps : R) :
  5 <= sigmaR <= 70 -> T > 0 -> eps > 0 ->
  estimate_iteration sigmaR T eps = EstimatorSpec.estimate sigmaR T eps.
Proof.
  intros [Hlo Hhi] HT Heps.
  unfold estimate_iteration, EstimatorSpec.estimate.
  destruct (Rgt_dec sigmaR 70); [lra|].
  destruct (Rlt_dec sigmaR 5); [lra|].
  rewrite py_div_nonzero by lra. cbn [bind].
  set (lam := (T / sigmaR) ^ 2).
  assert (Hr : 0 < T / sigmaR) by (apply Rdiv_lt_0_compat; lra).
  assert (Hlam : 0 < lam) by (apply pow_lt; exact Hr).
  rewrite (math_log_pos lam Hlam), (math_log_pos eps) by lra. cbn [bind].
  rewrite py_div_nonzero by lra. cbn [bind].
  set (q := - lam - ln eps).
  pose proof math_e_pos as He. unfold math_e in *.
  replace (q / exp 1 / lam) with (q / (exp 1 * lam)) by (field; lra).
  set (t := q / (exp 1 * lam)).
  rewrite <- lambert4_eq.
  unfold EstimatorSpec.xlnx_inverse, py_div.
  destruct (Req_dec_T (EstimatorSpec.lambert4 t) 0) as [HW|HW];
    [reflexivity|]. cbn [bind].
  assert (Hq : exp 1 * lam * t = q) by (unfold t; field; lra).
  replace (exp 1 * lam * (t / EstimatorSpec.lambert4 t))
    with (q / EstimatorSpec.lambert4 t)
    by (rewrite <- Hq; unfold Rdiv; ring).
  rewrite py_max_Rmax, py_min_Rmin.
  fold (EstimatorSpec.clamp 10 300 (q / EstimatorSpec.lambert4 t)).
  destruct (Rlt_dec sigmaR 30); [|reflexivity].
  rewrite newton_loop_eq. reflexivity.
Qed.

(** C2.  For [5 <= sigmaR <= 70], [T > 0] and [eps > 0] the estimator
    computes what the specification describes: [lam = (T / sigmaR)^2],
    [p = 1 + ln lam], [q = - lam - ln eps]; the initial estimate is the
    approximate inverse of [x ln x] (through four terms of Lambert's series)
    scaled back by [e lam] and clamped to [[10, 300]]; exactly five Newton
    steps for [N ln N - p N - q = 0] are applied when [sigmaR < 30] and none
    otherwise; the result is the ceiling of [N].  The step subtracts
    [g N / g' N], and [g'] is the derivative of [g N = N ln N - p N - q]. *)
Theorem estimate_iteration_middle (sigmaR T eps : R) :
  5 <= sigmaR <= 70 -> T > 0 -> eps > 0 ->
  estimate_iteration sigmaR T eps = EstimatorSpec.estimate sigmaR T eps /\
  forall p q N : R,
    0 < N ->
    derivable_pt_lim (EstimatorSpec.g p q) N (EstimatorSpec.g' p N).
Proof.
  intros Hs HT Heps. split.
  - now apply estimate_iteration_refines.
  - intros p q N. apply g_derivative.
Qed.

(** At [sigmaR = 50], [T = 0.5] and the default tolerance. *)
Lemma estimate_iteration_middle_witness :
  estimate_iteration 50 0.5 1e-3 = EstimatorSpec.estimate 50 0.5 1e-3 /\
  forall p q N : R,
    0 < N ->
    derivable_pt_lim (EstimatorSpec.g p q) N (EstimatorSpec.g' p N).
Proof.
  apply (estimate_iteration_middle 50 0.5 1e-3); lra.
Defined.

(** ** Real analysis: logarithm and constants *)

Lemma ln_le_sub1 (x : R) : 0 < x -> ln x <= x - 1.
Proof.
  intros Hx. pose proof (exp_ineq1_le (ln x)) as H.
  rewrite exp_ln in H by exact Hx. lra.
Qed.

Lemma ln_le (x y : R) : 0 < x -> x <= y -> ln x <= ln y.
Proof.
  intros Hx [Hlt | ->]; [left; now apply ln_increasing | right; reflexivity].
Qed.

(** The tangent inequality [ln (a / b) <= a / b - 1], cleared of fractions. *)
Lemma ln_ratio (a b : R) : 0 < a -> 0 < b -> b * (ln a - ln b) <= a - b.
Proof.
  intros Ha Hb.
  assert (Hr : 0 < a / b) by now apply Rdiv_lt_0_compat.
  pose proof (ln_le_sub1 (a / b) Hr) as H.
  unfold Rdiv in H at 1. rewrite ln_mult, ln_Rinv in H; try assumption.
  2: now apply Rinv_0_lt_compat.
  apply (Rmult_le_compat_l b) in H; [|lra].
  replace (b * (a / b - 1)) with (a - b) in H by (field; lra).
  lra.
Qed.

Lemma exp_INR (n : nat) : exp (INR n) = exp 1 ^ n.
Proof.
  induction n as [|n IH]; [simpl; apply exp_0|].
  rewrite S_INR, exp_plus, IH. simpl. ring.
Qed.

Lemma exp_1_ge_2 : 2 <= exp 1.
Proof. pose proof (exp_ineq1_le 1). lra. Qed.

Lemma exp_1_ge_5_2 : 5 / 2 <= exp 1.
Proof.
  pose proof (exp_ineq1_le (1 / 8)) as H8.
  assert (H4 : exp (1 / 4) = exp (1 / 8) * exp (1 / 8))
    by (rewrite <- exp_plus; f_equal; lra).
  assert (H2 : exp (1 / 2) = exp (1 / 4) * exp (1 / 4))
    by (rewrite <- exp_plus; f_equal; lra).
  assert (H1 : exp 1 = exp (1 / 2) * exp (1 / 2))
    by (rewrite <- exp_plus; f_equal; lra).
  assert (G4 : 81 / 64 <= exp (1 / 4)) by nra.
  assert (G2 : 6561 / 4096 <= exp (1 / 2)) by nra.
  nra.
Qed.

(** [3 ^ n <= x] gives [n <= ln x], since [e <= 3]. *)
Lemma ln_lower (x : R) (n : nat) : 3 ^ n <= x -> INR n <= ln x.
Proof.
  intros Hx. rewrite <- (ln_exp (INR n)).
  apply ln_le; [apply exp_pos|].
  rewrite exp_INR.
  apply Rle_trans with (3 ^ n); [|exact Hx].
  apply pow_incr. split; [left; apply exp_pos | apply exp_le_3].
Qed.

(** [x <= 2 ^ n] gives [ln x <= n], since [2 <= e]. *)
Lemma ln_upper (x : R) (n : nat) : 0 < x -> x <= 2 ^ n -> ln x <= INR n.
Proof.
  intros H0 Hx. rewrite <- (ln_exp (INR n)).
  apply ln_le; [exact H0|].
  rewrite exp_INR.
  apply Rle_trans with (2 ^ n); [exact Hx|].
  apply pow_incr. split; [lra | apply exp_1_ge_2].
Qed.

Lemma ln_half : ln (1 / 2) < - (1 / 2).
Proof.
  replace (1 / 2) with (/ 2) at 1 by lra.
  rewrite ln_Rinv by lra. pose proof ln_lt_2. lra.
Qed.

Lemma ln_10_ge_2 : 2 <= ln 10.
Proof.
  pose proof (ln_lower 10 2 ltac:(lra)) as H. simpl in H. lra.
Qed.

Lemma ln_1000_bounds : 6 <= ln 1000 <= 10.
Proof.
  pose proof (ln_lower 1000 6 ltac:(lra)) as H1.
  pose proof (ln_upper 1000 10 ltac:(lra) ltac:(lra)) as H2.
  simpl in H1, H2. lra.
Qed.

Lemma tiny_le_milli : / 2 ^ 1074 <= 1e-3.
Proof.
  apply Rle_trans with (/ 2 ^ 10); [|lra].
  apply Rinv_le_contravar; [lra|].
  apply Rle_pow; [lra | lia].
Qed.

Lemma tiny_le_half : / 2 ^ 100 <= 0.5.
Proof.
  apply Rle_trans with (/ 2 ^ 1); [|lra].
  apply Rinv_le_contravar; [lra|].
  apply Rle_pow; [lra | lia].
Qed.

Lemma ceil_pos_le (x : R) (b : Z) :
  0 < x -> x <= IZR b -> (0 < math_ceil x <= b)%Z.
Proof.
  intros H0 Hb. destruct (math_ceil_bounds x) as [Hlo _]. split.
  - apply lt_IZR. lra.
  - now apply math_ceil_least.
Qed.

(** ** The truncated series away from its range *)

Lemma lambert4_neg_right (t : R) : 1 <= t -> EstimatorSpec.lambert4 t < 0.
Proof.
  intros Ht. rewrite lambert4_eq.
  assert (H2 : 1 <= t ^ 2) by nra.
  assert (H3 : 0 < t ^ 3) by (apply pow_lt; lra).
  replace (t - t ^ 2 + 1.5 * t ^ 3 - 8 / 3 * t ^ 4)
    with (t * (1 - t) + t ^ 3 * (1.5 - 8 / 3 * t))
    by (replace 1.5 with (3 / 2) by lra; ring).
  nra.
Qed.

Lemma lambert4_neg_left (t : R) : t < 0 -> EstimatorSpec.lambert4 t <= t.
Proof.
  intros Ht. rewrite lambert4_eq.
  replace (t - t ^ 2 + 1.5 * t ^ 3 - 8 / 3 * t ^ 4)
    with (t + t * (- t) * (1 - 1.5 * t + 8 / 3 * t ^ 2))
    by (replace 1.5 with (3 / 2) by lra; ring).
  assert (0 <= t ^ 2) by nra.
  assert (1 <= 1 - 1.5 * t + 8 / 3 * t ^ 2) by nra.
  assert (t * (- t) <= 0) by nra.
  nra.
Qed.

(** ** One Newton step *)

Section NewtonStep.

Variables lam q : R.
Hypothesis Hlam : 0 < lam.

Lemma gap_pos (N : R) : lam < N -> 0 < ln N - ln lam.
Proof. intros HN. pose proof (ln_increasing lam N Hlam HN). lra. Qed.

Lemma gap_neg (N : R) : 0 < N < lam -> ln N - ln lam < 0.
Proof. intros [H0 HN]. pose proof (ln_increasing N lam H0 HN). lra. Qed.

Lemma gap_neq (N : R) : 0 < N -> N <> lam -> ln N - ln lam <> 0.
Proof.
  intros H0 Hne.
  destruct (Rtotal_order N lam) as [Hlt | [Heq | Hgt]].
  - pose proof (gap_neg N (conj H0 Hlt)). lra.
  - contradiction.
  - pose proof (gap_pos N Hgt). lra.
Qed.

(** Away from [lam] the step is defined and has the closed form [phi]. *)
Lemma newton_for_phi (N : R) :
  0 < N -> N <> lam -> newton_for lam q N = Some (phi lam q N).
Proof.
  intros H0 Hne. pose proof (gap_neq N H0 Hne) as Hd.
  unfold newton_for, EstimatorSpec.newton, EstimatorSpec.g, EstimatorSpec.g',
    phi.
  destruct (Rlt_dec 0 N); [|lra].
  destruct (Req_dec_T (ln N + 1 - (1 + ln lam)) 0); [lra|].
  f_equal. field. lra.
Qed.

(** At or below zero the step raises. *)
Lemma newton_for_nonpos (N : R) : N <= 0 -> newton_for lam q N = None.
Proof.
  intros HN. unfold newton_for, EstimatorSpec.newton.
  destruct (Rlt_dec 0 N); [lra | reflexivity].
Qed.

Lemma phi_times_gap (N : R) :
  0 < N -> N <> lam -> phi lam q N * (ln N - ln lam) = N + q.
Proof.
  intros H0 Hne. pose proof (gap_neq N H0 Hne). unfold phi. now field.
Qed.

(** [g] is convex, so it is not negative where a Newton step lands. *)
Lemma phi_g_nonneg (N : R) :
  0 < N -> N <> lam -> 0 < phi lam q N ->
  0 <= EstimatorSpec.g (1 + ln lam) q (phi lam q N).
Proof.
  intros H0 Hne Hpos.
  pose proof (phi_times_gap N H0 Hne) as Hphi.
  pose proof (ln_ratio N (phi lam q N) H0 Hpos) as Hr.
  unfold EstimatorSpec.g. nra.
Qed.

(** *** Right of [lam] *)

Lemma phi_gt_lam (N : R) : lam < N -> - lam < q -> lam < phi lam q N.
Proof.
  intros HN Hq. pose proof (gap_pos N HN) as Hd.
  assert (H0 : 0 < N) by lra. assert (Hne : N <> lam) by lra.
  pose proof (phi_times_gap N H0 Hne) as Hphi.
  pose proof (ln_ratio N lam H0 Hlam) as Hr.
  apply (Rmult_lt_reg_r (ln N - ln lam)); [exact Hd|]. lra.
Qed.

Lemma phi_le (N : R) :
  lam < N -> 0 <= EstimatorSpec.g (1 + ln lam) q N -> phi lam q N <= N.
Proof.
  intros HN Hg. pose proof (gap_pos N HN) as Hd.
  assert (H0 : 0 < N) by lra. assert (Hne : N <> lam) by lra.
  pose proof (phi_times_gap N H0 Hne) as Hphi.
  unfold EstimatorSpec.g in Hg.
  apply (Rmult_le_reg_r (ln N - ln lam)); [exact Hd|]. nra.
Qed.


(** *** Left of [lam] *)

Lemma phi_lt_lam (N : R) : 0 < N < lam -> - lam < q -> phi lam q N < lam.
Proof.
  intros HN Hq. pose proof (gap_neg N HN) as Hd.
  pose proof (phi_times_gap N ltac:(lra) ltac:(lra)) as Hphi.
  pose proof (ln_ratio N lam ltac:(lra) Hlam) as Hr.
  apply (Rmult_lt_reg_r (- (ln N - ln lam))); [lra|]. lra.
Qed.

Lemma phi_ge (N : R) :
  0 < N < lam -> 0 <= EstimatorSpec.g (1 + ln lam) q N -> N <= phi lam q N.
Proof.
  intros HN Hg. pose proof (gap_neg N HN) as Hd.
  pose proof (phi_times_gap N ltac:(lra) ltac:(lra)) as Hphi.
  unfold EstimatorSpec.g in Hg.
  apply (Rmult_le_reg_r (- (ln N - ln lam))); [lra|]. nra.
Qed.

End NewtonStep.

(** ** Newton's iterates *)

Lemma iterate_S (k : nat) (step : R -> option R) (N : R) :
  EstimatorSpec.iterate (S k) step N
  = N' <- step N ;; EstimatorSpec.iterate k step N'.
Proof. reflexivity. Qed.

Section Iterates.

Variable lam : R.
Hypothesis Hlam : 0 < lam.

(** From a point right of [lam] where [g] is not negative, the iterates
    stay right of [lam] and do not increase. *)
Lemma iterate_decreasing (q : R) (k : nat) (N : R) :
  - lam < q -> lam < N -> 0 <= EstimatorSpec.g (1 + ln lam) q N ->
  exists N',
    EstimatorSpec.iterate k (newton_for lam q) N = Some N' /\
    lam < N' <= N.
Proof.
  intros Hq. revert N. induction k as [|k IH]; intros N HN Hg.
  - exists N. split; [reflexivity | lra].
  - rewrite iterate_S, (newton_for_phi lam q Hlam N) by lra. cbn [bind].
    pose proof (phi_gt_lam lam q Hlam N HN Hq) as H1.
    assert (H2 : 0 <= EstimatorSpec.g (1 + ln lam) q (phi lam q N))
      by (apply phi_g_nonneg; lra).
    pose proof (phi_le lam q Hlam N HN Hg) as H3.
    destruct (IH (phi lam q N) H1 H2) as (N' & HN' & Hb).
    exists N'. split; [exact HN' | lra].
Qed.

(** The first step may overshoot; after it the iterates decrease. *)
Lemma iterate_from (q : R) (k : nat) (N : R) :
  - lam < q -> lam < N ->
  exists N',
    EstimatorSpec.iterate (S k) (newton_for lam q) N = Some N' /\
    lam < N' <= phi lam q N.
Proof.
  intros Hq HN.
  rewrite iterate_S, (newton_for_phi lam q Hlam N) by lra. cbn [bind].
  pose proof (phi_gt_lam lam q Hlam N HN Hq) as H1.
  apply iterate_decreasing; [assumption | assumption |].
  apply phi_g_nonneg; lra.
Qed.



(** Left of [lam], from a point where [g] is not negative, the iterates
    stay left of [lam] and do not decrease. *)
Lemma iterate_increasing (q : R) (k : nat) (N : R) :
  - lam < q -> 0 < N < lam -> 0 <= EstimatorSpec.g (1 + ln lam) q N ->
  exists N',
    EstimatorSpec.iterate k (newton_for lam q) N = Some N' /\ N <= N'.
Proof.
  intros Hq. revert N. induction k as [|k IH]; intros N HN Hg.
  - exists N. split; [reflexivity | lra].
  - rewrite iterate_S, (newton_for_phi lam q Hlam N) by lra. cbn [bind].
    pose proof (phi_lt_lam lam q Hlam N HN Hq) as H1.
    pose proof (phi_ge lam q Hlam N HN Hg) as H3.
    assert (H2 : 0 <= EstimatorSpec.g (1 + ln lam) q (phi lam q N))
      by (apply phi_g_nonneg; lra).
    destruct (IH (phi lam q N) ltac:(lra) H2) as (N' & HN' & Hb).
    exists N'. split; [exact HN' | lra].
Qed.

End Iterates.

(** ** The estimator through its clamp *)

Lemma lam_of_pos (sigmaR T : R) : 0 < sigmaR -> 0 < T -> 0 < lam_of sigmaR T.
Proof.
  intros Hs HT. apply pow_lt. apply Rdiv_lt_0_compat; assumption.
Qed.

Lemma q_of_t_of (sigmaR T eps : R) :
  0 < sigmaR -> 0 < T ->
  exp 1 * lam_of sigmaR T * t_of sigmaR T eps = q_of sigmaR T eps.
Proof.
  intros Hs HT. pose proof (lam_of_pos sigmaR T Hs HT).
  pose proof (exp_pos 1). unfold t_of. field. lra.
Qed.

(** Where the series does not vanish, the middle case is the clamp of
    [q / W] followed by five Newton steps, or none. *)
Lemma estimate_iteration_clamped (sigmaR T eps : R) :
  5 <= sigmaR <= 70 -> 0 < T -> 0 < eps ->
  EstimatorSpec.lambert4 (t_of sigmaR T eps) <> 0 ->
  let N0 := EstimatorSpec.clamp 10 300
              (q_of sigmaR T eps / EstimatorSpec.lambert4 (t_of sigmaR T eps))
  in
  estimate_iteration sigmaR T eps
  = N <- (if Rlt_dec sigmaR 30
          then EstimatorSpec.iterate 5
                 (newton_for (lam_of sigmaR T) (q_of sigmaR T eps)) N0
          else Some N0) ;;
    Some (math_ceil N).
Proof.
  intros Hs HT Heps HW N0. subst N0.
  rewrite estimate_iteration_refines by (assumption || lra).
  unfold EstimatorSpec.estimate.
  fold (lam_of sigmaR T). fold (q_of sigmaR T eps). fold (t_of sigmaR T eps).
  unfold EstimatorSpec.xlnx_inverse.
  destruct (Req_dec_T (EstimatorSpec.lambert4 (t_of sigmaR T eps)) 0);
    [contradiction|]. cbn [bind].
  replace (exp 1 * lam_of sigmaR T
           * (t_of sigmaR T eps / EstimatorSpec.lambert4 (t_of sigmaR T eps)))
    with (q_of sigmaR T eps / EstimatorSpec.lambert4 (t_of sigmaR T eps))
    by (rewrite <- (q_of_t_of sigmaR T eps) at 1 by lra; unfold Rdiv; ring).
  reflexivity.
Qed.

(** [q / W <= 10]: the clamp gives 10. *)
Lemma estimate_iteration_from_10 (sigmaR T eps : R) :
  5 <= sigmaR <= 70 -> 0 < T -> 0 < eps ->
  EstimatorSpec.lambert4 (t_of sigmaR T eps) <> 0 ->
  q_of sigmaR T eps / EstimatorSpec.lambert4 (t_of sigmaR T eps) <= 10 ->
  estimate_iteration sigmaR T eps
  = N <- (if Rlt_dec sigmaR 30
          then EstimatorSpec.iterate 5
                 (newton_for (lam_of sigmaR T) (q_of sigmaR T eps)) 10
          else Some 10) ;;
    Some (math_ceil N).
Proof.
  intros Hs HT Heps HW Hle.
  rewrite estimate_iteration_clamped by assumption.
  unfold EstimatorSpec.clamp.
  rewrite (Rmax_right _ 10 Hle), Rmin_left by lra.
  reflexivity.
Qed.

(** [300 <= q / W]: the clamp gives 300. *)
Lemma estimate_iteration_from_300 (sigmaR T eps : R) :
  5 <= sigmaR <= 70 -> 0 < T -> 0 < eps ->
  EstimatorSpec.lambert4 (t_of sigmaR T eps) <> 0 ->
  300 <= q_of sigmaR T eps / EstimatorSpec.lambert4 (t_of sigmaR T eps) ->
  estimate_iteration sigmaR T eps
  = N <- (if Rlt_dec sigmaR 30
          then EstimatorSpec.iterate 5
                 (newton_for (lam_of sigmaR T) (q_of sigmaR T eps)) 300
          else Some 300) ;;
    Some (math_ceil N).
Proof.
  intros Hs HT Heps HW Hle.
  rewrite estimate_iteration_clamped by assumption.
  unfold EstimatorSpec.clamp.
  rewrite Rmax_left, Rmin_right by lra.
  reflexivity.
Qed.

(** A quotient of opposite signs is below 10. *)
Lemma neg_quotient_le_10 (q W : R) : 0 <= q -> W < 0 -> q / W <= 10.
Proof.
  intros Hq HW. apply Rle_trans with 0; [|lra].
  apply (Rmult_le_reg_r (- W)); [lra|].
  replace (q / W * - W) with (- q) by (field; lra). lra.
Qed.

(** ** The estimator as GPA uses it: [T <= 1/2], tolerances up to [1/2] *)

Lemma small_T_facts (sigmaR T eps : R) :
  5 <= sigmaR -> 0 < T <= 1 / 2 -> 0 < eps <= 1 / 2 ->
  0 < lam_of sigmaR T <= 1 / 100 /\
  49 / 100 <= q_of sigmaR T eps /\
  1 <= t_of sigmaR T eps.
Proof.
  intros Hs [HT0 HT] [He0 He].
  pose proof (lam_of_pos sigmaR T ltac:(lra) HT0) as Hlam.
  assert (Hr : 0 <= T / sigmaR <= 1 / 10).
  { split; [left; apply Rdiv_lt_0_compat; lra|].
    apply (Rmult_le_reg_r sigmaR); [lra|].
    replace (T / sigmaR * sigmaR) with T by (field; lra). lra. }
  assert (Hlam' : lam_of sigmaR T <= 1 / 100).
  { unfold lam_of. replace (1 / 100) with ((1 / 10) ^ 2) by lra.
    apply pow_incr. exact Hr. }
  assert (Hln : ln eps <= ln (1 / 2)) by (apply ln_le; lra).
  pose proof ln_half as Hh.
  assert (Hq : 49 / 100 <= q_of sigmaR T eps) by (unfold q_of; lra).
  repeat split; try assumption.
  pose proof (q_of_t_of sigmaR T eps ltac:(lra) HT0) as Hqt.
  pose proof (exp_pos 1) as Hp. pose proof exp_le_3 as H3.
  assert (Hk : 0 < exp 1 * lam_of sigmaR T <= 3 / 100) by nra.
  set (k := exp 1 * lam_of sigmaR T) in *.
  destruct (Rle_or_lt 1 (t_of sigmaR T eps)) as [Hge|Hlt]; [exact Hge|].
  exfalso. nra.
Qed.

(** There the series is negative, the clamp gives 10, and the estimate is
    five Newton steps from 10, or 10 itself. *)
Lemma estimate_iteration_small_T (sigmaR T eps : R) :
  5 <= sigmaR <= 70 -> 0 < T <= 1 / 2 -> 0 < eps <= 1 / 2 ->
  estimate_iteration sigmaR T eps
  = N <- (if Rlt_dec sigmaR 30
          then EstimatorSpec.iterate 5
                 (newton_for (lam_of sigmaR T) (q_of sigmaR T eps)) 10
          else Some 10) ;;
    Some (math_ceil N).
Proof.
  intros Hs HT He.
  destruct (small_T_facts sigmaR T eps ltac:(lra) HT He) as (Hlam & Hq & Ht).
  pose proof (lambert4_neg_right _ Ht) as HW.
  apply estimate_iteration_from_10; try lra.
  apply neg_quotient_le_10; lra.
Qed.

(** C3, amended.  For every [sigmaR > 0], every [T] from [2^-100] up to
    [1/2] (GPA passes [T = 0.5]) and every tolerance [eps] from the least
    positive double [2^-1074] up to [1/2], the estimator returns without
    raising, and what it returns is an integer [N] with [0 < N <= 800].
    The lower end of [T] keeps [t ** 4] and [(T / sigmaR) ** 2] inside the
    range of a double, where the reals of this development and the code
    agree on whether the estimator returns. *)
Theorem estimate_iteration_bounded (sigmaR T eps : R) :
  0 < sigmaR -> / 2 ^ 100 <= T <= 1 / 2 -> / 2 ^ 1074 <= eps <= 1 / 2 ->
  exists n : Z,
    estimate_iteration sigmaR T eps = Some n /\ (0 < n <= 800)%Z.
Proof.
  intros Hs [HTl HTh] [Hel Heh].
  assert (HT : 0 < T <= 1 / 2).
  { split; [|exact HTh].
    apply Rlt_le_trans with (/ 2 ^ 100); [|exact HTl].
    apply Rinv_0_lt_compat, pow_lt. lra. }
  assert (Hp : 0 < 2 ^ 1074) by (apply pow_lt; lra).
  assert (He0 : 0 < eps).
  { apply Rlt_le_trans with (/ 2 ^ 1074);
      [now apply Rinv_0_lt_compat | exact Hel]. }
  destruct (Rgt_dec sigmaR 70) as [Hbig|Hbig].
  { exists 10%Z. split; [|lia].
    unfold estimate_iteration.
    destruct (Rgt_dec sigmaR 70); [reflexivity | lra]. }
  destruct (Rlt_dec sigmaR 5) as [Hsmall|Hsmall].
  { exists 800%Z. split; [|lia].
    unfold estimate_iteration. destruct (Rgt_dec sigmaR 70); [lra|].
    destruct (Rlt_dec sigmaR 5); [reflexivity | lra]. }
  rewrite estimate_iteration_small_T by lra.
  destruct (small_T_facts sigmaR T eps ltac:(lra) HT ltac:(lra))
    as (Hlam & Hq & Ht).
  destruct (Rlt_dec sigmaR 30) as [Hn|Hn].
  - destruct (iterate_from (lam_of sigmaR T) ltac:(lra)
                (q_of sigmaR T eps) 4 10 ltac:(lra) ltac:(lra))
      as (N & HN & Hlo & Hhi).
    rewrite HN. cbn [bind]. eexists; split; [reflexivity|].
    apply ceil_pos_le; [lra|].
    apply Rle_trans with (1 := Hhi).
    assert (Hln : - ln eps <= 1074).
    { assert (H1 : ln (/ 2 ^ 1074) <= ln eps)
        by (apply ln_le; [now apply Rinv_0_lt_compat | exact Hel]).
      rewrite ln_Rinv in H1 by exact Hp.
      pose proof (ln_upper (2 ^ 1074) 1074 Hp ltac:(lra)) as H2.
      rewrite INR_IZR_INZ in H2. simpl Z.of_nat in H2. lra. }
    assert (Hll : ln (lam_of sigmaR T) <= 0).
    { rewrite <- ln_1. apply ln_le; lra. }
    pose proof ln_10_ge_2 as H10.
    pose proof (phi_times_gap (lam_of sigmaR T) (q_of sigmaR T eps)
                  ltac:(lra) 10 ltac:(lra) ltac:(lra)) as Hphi.
    unfold q_of in *. nra.
  - cbn [bind]. exists (math_ceil 10). split; [reflexivity|].
    rewrite math_ceil_IZR. lia.
Qed.

(** At [sigmaR = 10], [T = 0.5] and the default tolerance. *)
Lemma estimate_iteration_bounded_witness :
  exists n : Z,
    estimate_iteration 10 0.5 1e-3 = Some n /\ (0 < n <= 800)%Z.
Proof.
  apply (estimate_iteration_bounded 10 0.5 1e-3).
  - lra.
  - split; [exact tiny_le_half | lra].
  - split; [exact tiny_le_milli | lra].
Defined.



(** ** Where the estimator raises, exceeds 800, and is not monotone *)

(** C3 fails as stated.  With [sigmaR = 10], [T = 0.5] and [eps = 1e10],
    all positive, the initial estimate is clamped to 10, the first Newton
    step lands at or below zero, and [math.log] raises on the second. *)
Lemma estimate_iteration_raises :
  0 < 10 /\ 0 < 0.5 /\ 0 < 1e10 /\ estimate_iteration 10 0.5 1e10 = None.
Proof.
  repeat split; try lra.
  assert (Hlam : lam_of 10 0.5 = 1 / 400) by (unfold lam_of; lra).
  assert (Hln : 10 <= ln 1e10).
  { pose proof (ln_lower 1e10 10 ltac:(lra)) as H. simpl in H. lra. }
  assert (Hq : q_of 10 0.5 1e10 <= -10) by (unfold q_of; rewrite Hlam; lra).
  pose proof (exp_pos 1) as He0. pose proof exp_le_3 as He3.
  pose proof (q_of_t_of 10 0.5 1e10 ltac:(lra) ltac:(lra)) as Hqt.
  rewrite Hlam in Hqt.
  assert (Ht : t_of 10 0.5 1e10 < 0) by nra.
  pose proof (lambert4_neg_left _ Ht) as HW.
  rewrite estimate_iteration_from_10; try lra.
  - destruct (Rlt_dec 10 30); [|lra].
    rewrite iterate_S, newton_for_phi by (try rewrite Hlam; lra).
    cbn [bind].
    assert (Hphi : phi (lam_of 10 0.5) (q_of 10 0.5 1e10) 10 <= 0).
    { pose proof (gap_pos (lam_of 10 0.5) ltac:(rewrite Hlam; lra) 10
                    ltac:(rewrite Hlam; lra)) as Hd.
      pose proof (phi_times_gap (lam_of 10 0.5) (q_of 10 0.5 1e10)
                    ltac:(rewrite Hlam; lra) 10 ltac:(lra)
                    ltac:(rewrite Hlam; lra)) as Hp.
      nra. }
    rewrite iterate_S, newton_for_nonpos by exact Hphi.
    reflexivity.
  - apply (Rmult_le_reg_r (- EstimatorSpec.lambert4 (t_of 10 0.5 1e10)));
      [lra|].
    replace (q_of 10 0.5 1e10 / EstimatorSpec.lambert4 (t_of 10 0.5 1e10)
             * - EstimatorSpec.lambert4 (t_of 10 0.5 1e10))
      with (- q_of 10 0.5 1e10) by (field; lra).
    nra.
Qed.

(** The bound 800 does not survive a large [T] either: with [sigmaR = 10],
    [T = 1000] and the default tolerance, the clamp gives 300, left of
    [lam = 10000]; the first Newton step lands above 1000 and the next four
    do not decrease. *)
Lemma estimate_iteration_exceeds_800 :
  exists n : Z,
    estimate_iteration 10 1000 1e-3 = Some n /\ (800 < n)%Z.
Proof.
  assert (Hlam : lam_of 10 1000 = 10000) by (unfold lam_of; lra).
  pose proof (exp_pos 1) as He0. pose proof exp_le_3 as He3.
  pose proof exp_1_ge_5_2 as He2.
  pose proof ln_1000_bounds as Hln.
  assert (Hq : -9994 <= q_of 10 1000 1e-3 <= -9990).
  { unfold q_of. rewrite Hlam.
    replace 1e-3 with (/ 1000) by lra. rewrite ln_Rinv by lra. lra. }
  pose proof (q_of_t_of 10 1000 1e-3 ltac:(lra) ltac:(lra)) as Hqt.
  rewrite Hlam in Hqt.
  assert (Ht : - (2 / 5) <= t_of 10 1000 1e-3 < 0) by nra.
  pose proof (lambert4_neg_left _ (proj2 Ht)) as HW.
  assert (HWlo : -1 <= EstimatorSpec.lambert4 (t_of 10 1000 1e-3)).
  { rewrite lambert4_eq.
    set (t := t_of 10 1000 1e-3) in *.
    assert (H2 : t ^ 2 <= 4 / 25) by nra.
    assert (H3 : - (8 / 125) <= t ^ 3).
    { replace (t ^ 3) with (t * t ^ 2) by ring. nra. }
    assert (H4 : t ^ 4 <= 16 / 625).
    { replace (t ^ 4) with (t ^ 2 * t ^ 2) by ring. nra. }
    lra. }
  rewrite estimate_iteration_from_300; try lra.
  - destruct (Rlt_dec 10 30); [|lra].
    assert (Hgap : 3 <= ln 10000 - ln 300 <= 6).
    { assert (Hr : ln 10000 - ln 300 = ln (100 / 3)).
      { unfold Rdiv. rewrite ln_mult, ln_Rinv by lra.
        replace 10000 with (100 * 100) by lra.
        replace 300 with (3 * 100) by lra.
        rewrite !ln_mult by lra. lra. }
      rewrite Hr.
      pose proof (ln_lower (100 / 3) 3 ltac:(lra)) as H1.
      pose proof (ln_upper (100 / 3) 6 ltac:(lra) ltac:(lra)) as H2.
      simpl in H1, H2. lra. }
    assert (Hg : 0 <= EstimatorSpec.g (1 + ln (lam_of 10 1000))
                        (q_of 10 1000 1e-3) 300).
    { unfold EstimatorSpec.g. rewrite Hlam. nra. }
    assert (H300 : 0 < 300 < lam_of 10 1000) by (rewrite Hlam; lra).
    assert (Hlam0 : 0 < lam_of 10 1000) by (rewrite Hlam; lra).
    assert (Hql : - lam_of 10 1000 < q_of 10 1000 1e-3)
      by (rewrite Hlam; lra).
    rewrite iterate_S, newton_for_phi by lra. cbn [bind].
    pose proof (phi_lt_lam _ _ Hlam0 300 H300 Hql) as H1.
    pose proof (phi_ge _ _ Hlam0 300 H300 Hg) as H2.
    assert (H0 : 0 < phi (lam_of 10 1000) (q_of 10 1000 1e-3) 300) by lra.
    assert (H3 : 0 <= EstimatorSpec.g (1 + ln (lam_of 10 1000))
                        (q_of 10 1000 1e-3)
                        (phi (lam_of 10 1000) (q_of 10 1000 1e-3) 300))
      by (apply phi_g_nonneg; lra).
    destruct (iterate_increasing _ Hlam0 _ 4 _ Hql (conj H0 H1) H3)
      as (N & HN & Hle).
    rewrite HN. cbn [bind]. eexists. split; [reflexivity|].
    assert (Hphi : 1000 <= phi (lam_of 10 1000) (q_of 10 1000 1e-3) 300).
    { pose proof (phi_times_gap (lam_of 10 1000) (q_of 10 1000 1e-3)
                    Hlam0 300 ltac:(lra) ltac:(lra)) as Hp.
      rewrite Hlam in *. nra. }
    destruct (math_ceil_bounds N) as [Hc _].
    apply lt_IZR. lra.
  - apply (Rmult_le_reg_r (- EstimatorSpec.lambert4 (t_of 10 1000 1e-3)));
      [lra|].
    replace (q_of 10 1000 1e-3 / EstimatorSpec.lambert4 (t_of 10 1000 1e-3)
             * - EstimatorSpec.lambert4 (t_of 10 1000 1e-3))
      with (- q_of 10 1000 1e-3) by (field; lra).
    nra.
Qed.


(** ** [fast_mandelbrot]: the unrolled expression *)

Lemma repeat_step_stuck {A : Type} (n : nat) (f : A -> A) (s : A) :
  f s = s -> repeat_step n f s = s.
Proof.
  intros Hs. induction n as [|n IH]; [reflexivity|].
  cbn [repeat_step]. rewrite Hs. exact IH.
Qed.

(** One pass of [inner] rewrites the top three stack entries and leaves the
    rest alone. *)
Lemma inner_pass (akarin : bool) (add_real add_imag : Rpn.token)
  (p_real p_imag : Rpn.expr) (delta : R)
  (s : Rpn.expr * Rpn.expr * Rpn.expr) (rest : list Rpn.expr) :
  (forall st, Rpn.step akarin 3 add_real st = Some (p_real :: st)) ->
  (forall st, Rpn.step akarin 3 add_imag st = Some (p_imag :: st)) ->
  for_each (mandelbrot_inner add_real add_imag delta) (Rpn.step akarin 3)
           (stack_of s ++ rest)
  = Some (stack_of (escape_step_expr p_real p_imag delta s) ++ rest).
Proof.
  intros Hr Hi. destruct s as [[r i] k].
  unfold mandelbrot_inner.
  cbn [stack_of app for_each].
  cbn [Rpn.step Rpn.binary nth_error bind].
  rewrite Hi. cbn [Rpn.step Rpn.binary nth_error bind].
  rewrite Hr. reflexivity.
Qed.

Lemma inner_passes (akarin : bool) (add_real add_imag : Rpn.token)
  (p_real p_imag : Rpn.expr) (delta : R) (n : nat)
  (s : Rpn.expr * Rpn.expr * Rpn.expr) (rest : list Rpn.expr) :
  (forall st, Rpn.step akarin 3 add_real st = Some (p_real :: st)) ->
  (forall st, Rpn.step akarin 3 add_imag st = Some (p_imag :: st)) ->
  for_each (concat (repeat (mandelbrot_inner add_real add_imag delta) n))
           (Rpn.step akarin 3) (stack_of s ++ rest)
  = Some (stack_of (repeat_step n (escape_step_expr p_real p_imag delta) s)
          ++ rest).
Proof.
  intros Hr Hi. revert s. induction n as [|n IH]; intros s; [reflexivity|].
  cbn [repeat concat repeat_step].
  rewrite for_each_app, (inner_pass akarin _ _ p_real p_imag) by assumption.
  cbn [bind]. apply IH.
Qed.

(** The tail drops the two parts of [z] and keeps the counter. *)
Lemma tail_pass (akarin : bool) (s : Rpn.expr * Rpn.expr * Rpn.expr) :
  exists e,
    for_each mandelbrot_tail (Rpn.step akarin 3) (stack_of s) = Some [e] /\
    forall env w, Rpn.denote e env w = snd (denote3 s env w).
Proof.
  destruct s as [[r i] k]. eexists. split; [reflexivity|].
  intros env w. cbn. unfold Rpn.truth.
  destruct (Rlt_dec 0 1); [reflexivity | lra].
Qed.

Lemma truth_of_bool (t : bool) : Rpn.truth (Rpn.of_bool t) = t.
Proof.
  unfold Rpn.truth, Rpn.of_bool.
  destruct t; destruct (Rlt_dec 0 _); try reflexivity; lra.
Qed.

Lemma denote_escape_step (p_real p_imag : Rpn.expr) (delta : R)
  (s : Rpn.expr * Rpn.expr * Rpn.expr) (env : list R) (w : Rpn.place) :
  denote3 (escape_step_expr p_real p_imag delta s) env w
  = escape_step (Rpn.denote p_real env w) (Rpn.denote p_imag env w) delta
                (denote3 s env w).
Proof.
  destruct s as [[r i] k].
  unfold escape_step_expr, escape_step, denote3.
  cbn [Rpn.denote Rpn.denote_bin]. rewrite !truth_of_bool.
  destruct (Rlt_dec _ 4); reflexivity.
Qed.

Lemma denote_repeat_step (p_real p_imag : Rpn.expr) (delta : R) (n : nat)
  (s : Rpn.expr * Rpn.expr * Rpn.expr) (env : list R) (w : Rpn.place) :
  denote3 (repeat_step n (escape_step_expr p_real p_imag delta) s) env w
  = repeat_step n
      (escape_step (Rpn.denote p_real env w) (Rpn.denote p_imag env w) delta)
      (denote3 s env w).
Proof.
  revert s. induction n as [|n IH]; intros s; [reflexivity|].
  cbn [repeat_step]. rewrite IH, denote_escape_step. reflexivity.
Qed.

(** The counter after [n] passes: one [delta] off for each iterate that
    stayed inside before the first that did not. *)
Lemma repeat_escape_step (p z : R * R) (delta counter : R) (n : nat) :
  snd (repeat_step n (escape_step (fst p) (snd p) delta)
         (fst z, snd z, counter))
  = counter - delta * INR (escape_time p z n).
Proof.
  revert z counter. induction n as [|n IH]; intros z counter.
  - cbn. lra.
  - cbn [repeat_step escape_time].
    unfold escape_step at 2, inside, quadratic. cbn [fst snd].
    destruct (Rlt_dec _ 4) as [Hin|Hout].
    + specialize (IH (quadratic p z) (counter - delta)).
      unfold quadratic in IH. cbn [fst snd] in IH. rewrite IH.
      rewrite S_INR. lra.
    + rewrite repeat_step_stuck.
      * cbn. lra.
      * unfold escape_step. destruct (Rlt_dec _ 4); [contradiction | reflexivity].
Qed.

Lemma escape_time_le (p z : R * R) (n : nat) : (escape_time p z n <= n)%nat.
Proof.
  revert z. induction n as [|n IH]; intros z; cbn; [lia|].
  destruct (inside _); [specialize (IH (quadratic p z)); lia | lia].
Qed.

Lemma rpn_app_stack (akarin : bool) (prog1 prog2 : list Rpn.token)
  (st st1 : list Rpn.expr) :
  for_each prog1 (Rpn.step akarin 3) st = Some st1 ->
  for_each (prog1 ++ prog2) (Rpn.step akarin 3) st
  = for_each prog2 (Rpn.step akarin 3) st1.
Proof.
  intros H1. rewrite for_each_app, H1. reflexivity.
Qed.

Lemma unrolled_value (akarin : bool) (init : list Rpn.token)
  (add_real add_imag : Rpn.token) (p_real p_imag : Rpn.expr) (delta : R)
  (n : nat) (s0 : Rpn.expr * Rpn.expr * Rpn.expr) :
  for_each init (Rpn.step akarin 3) [] = Some (stack_of s0) ->
  (forall st, Rpn.step akarin 3 add_real st = Some (p_real :: st)) ->
  (forall st, Rpn.step akarin 3 add_imag st = Some (p_imag :: st)) ->
  exists e,
    Rpn.rpn akarin 3
      (init ++ concat (repeat (mandelbrot_inner add_real add_imag delta) n)
            ++ mandelbrot_tail) = Some e /\
    forall env w,
      Rpn.denote e env w
      = snd (repeat_step n
               (escape_step (Rpn.denote p_real env w)
                            (Rpn.denote p_imag env w) delta)
               (denote3 s0 env w)).
Proof.
  intros Hinit Hr Hi.
  destruct (tail_pass akarin
              (repeat_step n (escape_step_expr p_real p_imag delta) s0))
    as (e & He & Hv).
  exists e. split.
  - unfold Rpn.rpn.
    rewrite (rpn_app_stack akarin _ _ _ _ Hinit).
    pose proof (inner_passes akarin add_real add_imag p_real p_imag delta n
                  s0 [] Hr Hi) as Hp.
    rewrite !app_nil_r in Hp.
    rewrite (rpn_app_stack akarin _ _ _ _ Hp), He. reflexivity.
  - intros env w. rewrite Hv. f_equal. apply denote_repeat_step.
Qed.

Lemma mandelbrot_expr_value (akarin julia_set : bool) (c_real c_imag : R)
  (iterations : Z) :
  iterations <> 0%Z ->
  exists prog e,
    mandelbrot_expr julia_set c_real c_imag iterations = Some prog /\
    Rpn.rpn akarin 3 prog = Some e /\
    forall (x y z : R) (w : Rpn.place),
      let p := if julia_set then (c_real, c_imag) else (x, y) in
      let start := if julia_set then (x, y) else (c_real, c_imag) in
      Rpn.denote e [x; y; z] w
      = z - 1 / IZR iterations
            * INR (escape_time p start (Z.to_nat iterations)).
Proof.
  intros Hn.
  assert (Hd : IZR iterations <> 0) by (now apply not_0_IZR).
  unfold mandelbrot_expr. rewrite py_div_nonzero by exact Hd. cbn [bind].
  set (delta := 1 / IZR iterations).
  destruct julia_set.
  - destruct (unrolled_value akarin [Rpn.x; Rpn.y; Rpn.z]
                (Rpn.num c_real) (Rpn.num c_imag)
                (Rpn.Num c_real) (Rpn.Num c_imag) delta
                (Z.to_nat iterations) (Rpn.Var 0, Rpn.Var 1, Rpn.Var 2)
                eq_refl (fun st => eq_refl) (fun st => eq_refl))
      as (e & He & Hv).
    eexists. exists e. split; [reflexivity|]. split; [exact He|].
    intros x y z w. cbn zeta. rewrite Hv.
    apply (repeat_escape_step (c_real, c_imag) (x, y)).
  - destruct (unrolled_value akarin [Rpn.num c_real; Rpn.num c_imag; Rpn.z]
                Rpn.x Rpn.y (Rpn.Var 0) (Rpn.Var 1) delta
                (Z.to_nat iterations) (Rpn.Num c_real, Rpn.Num c_imag, Rpn.Var 2)
                eq_refl (fun st => eq_refl) (fun st => eq_refl))
      as (e & He & Hv).
    eexists. exists e. split; [reflexivity|]. split; [exact He|].
    intros x y z w. cbn zeta. rewrite Hv.
    apply (repeat_escape_step (x, y) (c_real, c_imag)).
Qed.

(** The expression of lines 637-659 is well formed for every iteration
    count but 0, for [std.Expr] and for [akarin.Expr], and its value is the
    counter [z] less [1/iterations] for every iterate of [w -> w^2 + p]
    that stays inside [|w|^2 < 4] before the first that does not.  For the
    Mandelbrot set [p] is the pixel [(x, y)] and the iteration starts at
    [c]; for a Julia set [p] is [c] and the iteration starts at the
    pixel. *)
Theorem mandelbrot_expr_counter (akarin julia_set : bool) (c_real c_imag : R)
  (iterations : Z) :
  iterations <> 0%Z ->
  exists prog e,
    mandelbrot_expr julia_set c_real c_imag iterations = Some prog /\
    Rpn.rpn akarin 3 prog = Some e /\
    forall (x y z : R) (w : Rpn.place),
      let p := if julia_set then (c_real, c_imag) else (x, y) in
      let start := if julia_set then (x, y) else (c_real, c_imag) in
      Rpn.denote e [x; y; z] w
      = z - 1 / IZR iterations
            * INR (escape_time p start (Z.to_nat iterations)).
Proof. apply mandelbrot_expr_value. Qed.

(** The Mandelbrot expression with fifty passes. *)
Lemma mandelbrot_expr_counter_witness :
  exists prog e,
    mandelbrot_expr false 0 0 50 = Some prog /\
    Rpn.rpn false 3 prog = Some e /\
    forall (x y z : R) (w : Rpn.place),
      Rpn.denote e [x; y; z] w
      = z - 1 / IZR 50 * INR (escape_time (x, y) (0, 0) (Z.to_nat 50)).
Proof.
  apply (mandelbrot_expr_counter false false 0 0 50). discriminate.
Defined.

(** ** [fast_mandelbrot]: the frame it returns *)

Lemma fast_mandelbrot_frame (env : mandelbrot_env)
  (width height iterations : Z) (real_range imag_range : R * R)
  (c_real c_imag : R) (julia_set : bool) :
  has_akarin env = true ->
  feature_X_width env = true -> feature_Y_height env = true ->
  iterations <> 0%Z ->
  exists g,
    fast_mandelbrot env width height iterations real_range imag_range
      c_real c_imag julia_set None = Some g /\
    grid_width g = width /\ grid_height g = height /\
    forall i j : Z,
      let pixel := (mesh_real real_range width j,
                    mesh_imag imag_range height i) in
      let p := if julia_set then (c_real, c_imag) else pixel in
      let start := if julia_set then pixel else (c_real, c_imag) in
      value g i j
      = 1 - INR (escape_time p start (Z.to_nat iterations)) / IZR iterations.
Proof.
  intros Hak HX HY Hn.
  destruct (mandelbrot_expr_value true julia_set c_real c_imag iterations Hn)
    as (prog & e & Hprog & He & Hv).
  unfold fast_mandelbrot. rewrite Hak, HX, HY.
  unfold grid_Expr at 1 2.
  cbn [length Rpn.rpn for_each Rpn.step Rpn.binary bind].
  rewrite Hprog. cbn [bind].
  unfold grid_Expr. cbn [length]. rewrite He. cbn [bind].
  eexists. split; [reflexivity|].
  cbn [grid_width grid_height value BlankGrid].
  split; [reflexivity|]. split; [reflexivity|].
  intros i j. cbn zeta. cbn [map value BlankGrid]. rewrite Hv.
  cbn [Rpn.denote Rpn.denote_bin Rpn.denote_coord nth map
       Rpn.place_X Rpn.place_Y Rpn.place_width Rpn.place_height].
  unfold mesh_real, mesh_imag.
  destruct julia_set; unfold Rdiv; ring.
Qed.

(** With the akarin plugin and its [X], [Y], [width], [height], no backend
    and at least one iteration, the frame holds at row [i], column [j] the
    value [1 - T / iterations], where [T] counts the iterates that stay
    inside before the first that does not, for the point
    [(mesh_real j, mesh_imag i)]. *)
Theorem fast_mandelbrot_value (env : mandelbrot_env)
  (width height iterations : Z) (real_range imag_range : R * R)
  (c_real c_imag : R) (julia_set : bool) :
  has_akarin env = true ->
  feature_X_width env = true -> feature_Y_height env = true ->
  (2 <= width)%Z -> (2 <= height)%Z -> (1 <= iterations)%Z ->
  exists g,
    fast_mandelbrot env width height iterations real_range imag_range
      c_real c_imag julia_set None = Some g /\
    grid_width g = width /\ grid_height g = height /\
    forall i j : Z,
      let pixel := (mesh_real real_range width j,
                    mesh_imag imag_range height i) in
      let p := if julia_set then (c_real, c_imag) else pixel in
      let start := if julia_set then pixel else (c_real, c_imag) in
      value g i j
      = 1 - INR (escape_time p start (Z.to_nat iterations)) / IZR iterations.
Proof.
  intros Hak HX HY _ _ Hn. apply fast_mandelbrot_frame; (assumption || lia).
Qed.

Lemma fast_mandelbrot_value_witness :
  exists g,
    fast_mandelbrot akarin_env 3 2 4 (-2, 1) (-1, 1) 0 0 false None = Some g /\
    grid_width g = 3%Z /\ grid_height g = 2%Z /\
    forall i j : Z,
      value g i j
      = 1 - INR (escape_time (mesh_real (-2, 1) 3 j, mesh_imag (-1, 1) 2 i)
                             (0, 0) (Z.to_nat 4)) / IZR 4.
Proof.
  apply (fast_mandelbrot_value akarin_env 3 2 4 (-2, 1) (-1, 1) 0 0 false);
    (reflexivity || lia).
Defined.

(** Without the akarin plugin [z_real] is never bound and the call raises,
    with or without a backend; with [iterations = 0] it raises on
    [1/iterations]. *)
Theorem fast_mandelbrot_raises (env : mandelbrot_env)
  (width height iterations : Z) (real_range imag_range : R * R)
  (c_real c_imag : R) (julia_set : bool)
  (backend : option (list grid -> list Rpn.token -> option grid)) :
  has_akarin env = false \/ iterations = 0%Z ->
  fast_mandelbrot env width height iterations real_range imag_range
    c_real c_imag julia_set backend = None.
Proof.
  intros [Hak | Hz]; unfold fast_mandelbrot.
  - rewrite Hak. cbn [bind].
    destruct (mandelbrot_expr _ _ _ _); reflexivity.
  - subst iterations.
    assert (He : mandelbrot_expr julia_set c_real c_imag 0 = None).
    { unfold mandelbrot_expr, py_div.
      destruct (Req_dec_T (IZR 0) 0); [reflexivity | contradiction]. }
    rewrite He.
    destruct (if has_akarin env then _ else _) as [m|]; reflexivity.
Qed.

Lemma fast_mandelbrot_raises_witness :
  fast_mandelbrot (mk_mandelbrot_env false false false true) 1920 1280 50
    (-2, 1) (-1, 1) 0 0 false None = None.
Proof.
  apply fast_mandelbrot_raises. left. reflexivity.
Defined.

(** ** [meshgrid_core]: the fallback mesh *)

Lemma in_range (a b j : Z) : In j (range a b) <-> (a <= j < b)%Z.
Proof.
  unfold range. rewrite in_map_iff. split.
  - intros (k & <- & Hk). apply in_seq in Hk. lia.
  - intros Hj. exists (Z.to_nat (j - a)). split; [lia|].
    apply in_seq. lia.
Qed.

Lemma length_range (a b : Z) : length (range a b) = Z.to_nat (b - a).
Proof. unfold range. now rewrite length_map, length_seq. Qed.

Lemma nth_range (w j : Z) (d : Z) :
  (0 <= j < w)%Z -> nth (Z.to_nat j) (range 0 w) d = j.
Proof.
  intros Hj. unfold range.
  rewrite (nth_indep _ d (0 + Z.of_nat 0)%Z)
    by (rewrite length_map, length_seq; lia).
  rewrite (map_nth (fun k => (0 + Z.of_nat k)%Z) (seq 0 (Z.to_nat (w - 0))) 0%nat).
  rewrite seq_nth by lia. lia.
Qed.

Lemma collect_map {I A : Type} (f : I -> option A) (g : I -> A)
  (xs : list I) :
  (forall i, In i xs -> f i = Some (g i)) -> collect f xs = Some (map g xs).
Proof.
  induction xs as [|i xs IH]; intros H; [reflexivity|].
  cbn [collect map]. rewrite (H i (or_introl eq_refl)). cbn [bind].
  rewrite IH by (intros k Hk; apply H; now right). reflexivity.
Qed.

Lemma existsb_range (a b j : Z) :
  existsb (Z.eqb j) (range a b) = ((a <=? j) && (j <? b))%Z.
Proof.
  destruct ((a <=? j) && (j <? b))%Z eqn:Hb.
  - apply existsb_exists. exists j. split; [apply in_range; lia | apply Z.eqb_refl].
  - destruct (existsb (Z.eqb j) (range a b)) eqn:He; [|reflexivity].
    apply existsb_exists in He. destruct He as (k & Hk & Hjk).
    apply in_range in Hk. apply Z.eqb_eq in Hjk. subst k. lia.
Qed.

(** Writing the cells of one row, one at a time. *)
Lemma fill_cells (body : Z -> (Z -> Z -> R) -> option (Z -> Z -> R))
  (i : Z) (w : Z -> R) (js : list Z) (m : Z -> Z -> R) :
  (forall j m, In j js -> body j m = Some (set_cell m i j (w j))) ->
  exists m',
    for_each js body m = Some m' /\
    forall i' j',
      m' i' j' = if ((i' =? i)%Z && existsb (Z.eqb j') js)%bool
                 then w j' else m i' j'.
Proof.
  revert m. induction js as [|j js IH]; intros m Hv.
  - exists m. split; [reflexivity|]. intros i' j'.
    now rewrite andb_false_r.
  - cbn [for_each]. rewrite (Hv j m (or_introl eq_refl)). cbn [bind].
    destruct (IH (set_cell m i j (w j))) as (m' & Hm' & Hval).
    { intros k mk Hk. apply Hv. now right. }
    exists m'. split; [exact Hm'|]. intros i' j'. rewrite Hval.
    cbn [existsb]. unfold set_cell.
    destruct (Z.eqb i' i) eqn:Ei, (Z.eqb j' j) eqn:Ej,
             (existsb (Z.eqb j') js) eqn:Ee; cbn [andb orb];
      try reflexivity.
    all: apply Z.eqb_eq in Ej; subst j'; reflexivity.
Qed.

(** Writing rows, one at a time, each in the columns [cols]. *)
Lemma fill_rows (body : Z -> (Z -> Z -> R) -> option (Z -> Z -> R))
  (cols : Z -> bool) (v : Z -> Z -> R) (rows : list Z) (m : Z -> Z -> R) :
  (forall i m, In i rows ->
     exists m1, body i m = Some m1 /\
       forall i' j', m1 i' j' = if ((i' =? i)%Z && cols j')%bool
                                then v i j' else m i' j') ->
  exists m',
    for_each rows body m = Some m' /\
    forall i' j',
      m' i' j' = if (existsb (Z.eqb i') rows && cols j')%bool
                 then v i' j' else m i' j'.
Proof.
  revert m. induction rows as [|i rows IH]; intros m Hbody.
  - exists m. split; reflexivity.
  - cbn [for_each].
    destruct (Hbody i m (or_introl eq_refl)) as (m1 & Hm1 & Hv1).
    rewrite Hm1. cbn [bind].
    destruct (IH m1) as (m' & Hm' & Hv').
    { intros k mk Hk. apply Hbody. now right. }
    exists m'. split; [exact Hm'|]. intros i' j'. rewrite Hv', Hv1.
    cbn [existsb].
    destruct (Z.eqb i' i) eqn:Ei, (existsb (Z.eqb i') rows) eqn:Ee,
             (cols j') eqn:Ec; cbn [andb orb]; try reflexivity.
    all: apply Z.eqb_eq in Ei; subst i'; reflexivity.
Qed.

Lemma IZR_pred_neq_0 (w : Z) : (2 <= w)%Z -> IZR (w - 1) <> 0.
Proof. intros Hw. apply not_0_IZR. lia. Qed.

Lemma meshgrid_core_horizontal (api4 : bool) (f : grid) (low high : R) :
  low < high -> (2 <= grid_width f)%Z ->
  exists g,
    meshgrid_core api4 f low high true = Some g /\
    grid_width g = grid_width f /\ grid_height g = grid_height f /\
    forall i j,
      (0 <= i < grid_height f)%Z -> (0 <= j < grid_width f)%Z ->
      value g i j = mesh_real (low, high) (grid_width f) j.
Proof.
  intros Hlh Hw. unfold meshgrid_core.
  destruct (Rlt_dec low high); [|contradiction].
  set (width := grid_width f) in *. set (height := grid_height f).
  set (formula := fun j => (high - low) * IZR j / IZR (width - 1) + low).
  rewrite (collect_map _ formula)
    by (intros j _; rewrite py_div_nonzero by (apply IZR_pred_neq_0; exact Hw);
        reflexivity).
  cbn [bind].
  set (data := map formula (range 0 width)).
  assert (Hdata : forall j, (0 <= j < width)%Z ->
                    nth (Z.to_nat j) data 0 = formula j).
  { intros j Hj. unfold data.
    rewrite (nth_indep _ 0 (formula 0%Z))
      by (rewrite length_map, length_range; lia).
    rewrite (map_nth formula (range 0 width) 0%Z), nth_range by lia.
    reflexivity. }
  destruct (fill_rows
              (fun i m =>
                 if api4
                 then for_each (range 0 width)
                        (fun j m => Some (set_cell m i j (nth (Z.to_nat j) data 0))) m
                 else Some (set_row m i data))
              (fun j' => ((0 <=? j') && (j' <? width))%Z)
              (fun _ j' => nth (Z.to_nat j') data 0)
              (range 0 height) (value f))
    as (m' & Hm' & Hv).
  { intros i m _. destruct api4.
    - destruct (fill_cells
                  (fun j m => Some (set_cell m i j (nth (Z.to_nat j) data 0)))
                  i (fun j => nth (Z.to_nat j) data 0) (range 0 width) m)
        as (m1 & Hm1 & Hv1); [reflexivity|].
      exists m1. split; [exact Hm1|]. intros i' j'.
      rewrite Hv1, existsb_range. reflexivity.
    - eexists. split; [reflexivity|]. intros i' j'. unfold set_row.
      replace (Z.of_nat (length data)) with width
        by (unfold data; rewrite length_map, length_range; lia).
      now rewrite andb_assoc. }
  rewrite Hm'. cbn [bind]. eexists. split; [reflexivity|].
  cbn [grid_width grid_height value].
  split; [reflexivity|]. split; [reflexivity|].
  intros i j Hi Hj. rewrite Hv, existsb_range.
  replace ((0 <=? i) && (i <? height))%Z with true by lia.
  replace ((0 <=? j) && (j <? width))%Z with true by lia.
  cbn [andb]. rewrite Hdata by exact Hj.
  unfold formula, mesh_real. cbn [fst snd]. rewrite minus_IZR. reflexivity.
Qed.

Lemma meshgrid_core_vertical (api4 : bool) (f : grid) (low high : R) :
  low < high -> (2 <= grid_height f)%Z -> (0 <= grid_width f)%Z ->
  exists g,
    meshgrid_core api4 f low high false = Some g /\
    grid_width g = grid_width f /\ grid_height g = grid_height f /\
    forall i j,
      (0 <= i < grid_height f)%Z -> (0 <= j < grid_width f)%Z ->
      value g i j = mesh_imag (low, high) (grid_height f) i.
Proof.
  intros Hlh Hh Hw. unfold meshgrid_core.
  destruct (Rlt_dec low high); [|contradiction].
  set (width := grid_width f) in *. set (height := grid_height f) in *.
  set (formula := fun i => (low - high) * IZR i / IZR (height - 1) + high).
  destruct (fill_rows
              (fun i m =>
                 if api4
                 then for_each (range 0 width)
                        (fun j m =>
                           q <- py_div ((low - high) * IZR i) (IZR (height - 1)) ;;
                           Some (set_cell m i j (q + high))) m
                 else
                   q <- py_div ((low - high) * IZR i) (IZR (height - 1)) ;;
                   Some (set_row m i (repeat (q + high) (Z.to_nat width))))
              (fun j' => ((0 <=? j') && (j' <? width))%Z)
              (fun i _ => formula i)
              (range 0 height) (value f))
    as (m' & Hm' & Hv).
  { intros i m _. destruct api4.
    - destruct (fill_cells
                  (fun j m =>
                     q <- py_div ((low - high) * IZR i) (IZR (height - 1)) ;;
                     Some (set_cell m i j (q + high)))
                  i (fun _ => formula i) (range 0 width) m)
        as (m1 & Hm1 & Hv1).
      { intros j mj _. rewrite py_div_nonzero by (apply IZR_pred_neq_0; exact Hh).
        reflexivity. }
      exists m1. split; [exact Hm1|]. intros i' j'.
      rewrite Hv1, existsb_range. reflexivity.
    - rewrite py_div_nonzero by (apply IZR_pred_neq_0; exact Hh). cbn [bind].
      eexists. split; [reflexivity|]. intros i' j'. unfold set_row.
      rewrite repeat_length, Z2Nat.id by exact Hw.
      rewrite <- andb_assoc.
      destruct ((i' =? i)%Z && ((0 <=? j')%Z && (j' <? width)%Z))%bool eqn:Hc;
        [|reflexivity].
      apply nth_repeat_lt. lia. }
  rewrite Hm'. cbn [bind]. eexists. split; [reflexivity|].
  cbn [grid_width grid_height value].
  split; [reflexivity|]. split; [reflexivity|].
  intros i j Hi Hj. rewrite Hv, existsb_range.
  replace ((0 <=? i) && (i <? height))%Z with true by lia.
  replace ((0 <=? j) && (j <? width))%Z with true by lia.
  cbn [andb].
  unfold formula, mesh_imag. cbn [fst snd]. rewrite minus_IZR. reflexivity.
Qed.

(** The fallback mesh raises on a range that is not increasing (the
    [assert]) and on a frame one pixel wide, or one pixel high, where
    [width - 1] or [height - 1] is the divisor. *)
Theorem meshgrid_core_raises (api4 : bool) (f : grid) (low high : R)
  (horizontal : bool) :
  high <= low \/
  (horizontal = true /\ grid_width f = 1%Z) \/
  (horizontal = false /\ grid_height f = 1%Z /\ (1 <= grid_width f)%Z) ->
  meshgrid_core api4 f low high horizontal = None.
Proof.
  unfold meshgrid_core.
  intros [Hle | [[-> Hw] | (-> & Hh & Hw)]].
  - destruct (Rlt_dec low high); [lra | reflexivity].
  - destruct (Rlt_dec low high); [|reflexivity].
    rewrite Hw. cbn [range Z.sub Z.to_nat seq map collect Pos.to_nat].
    cbn. unfold py_div.
    destruct (Req_dec_T 0 0); [reflexivity | contradiction].
  - destruct (Rlt_dec low high); [|reflexivity].
    rewrite Hh.
    assert (Hd : forall v, py_div v (IZR (1 - 1)) = None).
    { intros v. unfold py_div. cbn.
      destruct (Req_dec_T 0 0); [reflexivity | contradiction]. }
    change (range 0 1) with [0%Z]. cbn [for_each].
    destruct api4.
    + assert (Hr : exists j js, range 0 (grid_width f) = j :: js).
      { unfold range.
        destruct (Z.to_nat (grid_width f - 0)) as [|n] eqn:Hn; [lia|].
        cbn [seq map]. eauto. }
      destruct Hr as (j & js & ->). cbn [for_each]. rewrite Hd. reflexivity.
    + rewrite Hd. reflexivity.
Qed.

Lemma meshgrid_core_raises_witness :
  meshgrid_core true (BlankGrid 1 5 1) (-2) 1 true = None.
Proof.
  apply meshgrid_core_raises. right. left. split; reflexivity.
Defined.

(** Where it returns, the fallback mesh holds in every cell of the frame
    the value of the formula of its direction, column by column for a
    horizontal mesh and row by row for a vertical one, and the same under
    both API versions. *)
Theorem meshgrid_core_cells (api4 horizontal : bool) (f : grid)
  (low high : R) :
  low < high ->
  (if horizontal then (2 <= grid_width f)%Z
   else (2 <= grid_height f)%Z /\ (0 <= grid_width f)%Z) ->
  exists g,
    meshgrid_core api4 f low high horizontal = Some g /\
    grid_width g = grid_width f /\ grid_height g = grid_height f /\
    forall i j,
      (0 <= i < grid_height f)%Z -> (0 <= j < grid_width f)%Z ->
      value g i j
      = if horizontal
        then (high - low) * IZR j / IZR (grid_width f - 1) + low
        else (low - high) * IZR i / IZR (grid_height f - 1) + high.
Proof.
  intros Hlh Hsize. destruct horizontal.
  - destruct (meshgrid_core_horizontal api4 f low high Hlh Hsize)
      as (g & Hg & Hgw & Hgh & Hv).
    exists g. split; [exact Hg|]. split; [exact Hgw|]. split; [exact Hgh|].
    intros i j Hi Hj. rewrite (Hv i j Hi Hj).
    unfold mesh_real. cbn [fst snd]. rewrite minus_IZR. reflexivity.
  - destruct Hsize as [Hh Hw].
    destruct (meshgrid_core_vertical api4 f low high Hlh Hh Hw)
      as (g & Hg & Hgw & Hgh & Hv).
    exists g. split; [exact Hg|]. split; [exact Hgw|]. split; [exact Hgh|].
    intros i j Hi Hj. rewrite (Hv i j Hi Hj).
    unfold mesh_imag. cbn [fst snd]. rewrite minus_IZR. reflexivity.
Qed.

(** A horizontal mesh from -2 to 1 on a frame of 4 by 3, filled cell by
    cell. *)
Lemma meshgrid_core_cells_witness :
  exists g,
    meshgrid_core true (BlankGrid 4 3 1) (-2) 1 true = Some g /\
    grid_width g = 4%Z /\ grid_height g = 3%Z /\
    forall i j,
      (0 <= i < 3)%Z -> (0 <= j < 4)%Z ->
      value g i j = (1 - -2) * IZR j / IZR (4 - 1) + -2.
Proof.
  apply (meshgrid_core_cells true true (BlankGrid 4 3 1) (-2) 1).
  - lra.
  - cbn. lia.
Defined.

(** ** [fade] *)

Ltac mode_eqb :=
  repeat match goal with
         | |- context [String.eqb ?a ?b] =>
             let v := eval vm_compute in (String.eqb a b) in
             change (String.eqb a b) with v
         end;
  cbv iota.

Section FadeFacts.

Context {V : Frames}.

Lemma plane_choice_1 {A : Type} (a d : A) (p : nat) :
  plane_choice [a] p d = a.
Proof. destruct p as [|[|p]]; reflexivity. Qed.

Lemma plane_choice_2 {A : Type} (a b d : A) (p : nat) :
  plane_choice [a; b] p d = match p with O => a | S _ => b end.
Proof. destruct p as [|[|[|p]]]; reflexivity. Qed.

Lemma fade_request (clip : node) (start : Z) (end_ : option Z)
  (mode : String.string) (base : option node) (n : Z) :
  request (fade clip start end_ mode base) n
  = c <- fade_core n clip start (fade_end clip end_) mode base ;;
    Some (sample c n).
Proof. destruct end_; reflexivity. Qed.

Lemma fade_core_outside (clip : node) (start end_ : Z)
  (mode : String.string) (base : option node) (n : Z) :
  (n < start \/ end_ < n \/ end_ <= start)%Z ->
  fade_core n clip start end_ mode base = Some clip.
Proof.
  intros H. unfold fade_core.
  replace ((n <? start) || (n >? end_) || (end_ - start <=? 0))%Z
    with true by lia.
  reflexivity.
Qed.

Lemma fade_core_inside_test (start end_ n : Z) :
  (start <= n <= end_)%Z -> (start < end_)%Z ->
  ((n <? start) || (n >? end_) || (end_ - start <=? 0))%Z = false.
Proof. lia. Qed.

Lemma fade_weight_bounds (mode : String.string) (start end_ n : Z) :
  (start <= n <= end_)%Z -> (start < end_)%Z ->
  0 <= fade_weight mode start end_ n <= 1.
Proof.
  intros Hn Hlt. unfold fade_weight.
  assert (Hd : 0 < IZR (end_ - start)) by (apply IZR_lt; lia).
  assert (H1 : 0 <= IZR (n - start) <= IZR (end_ - start))
    by (split; apply IZR_le; lia).
  assert (H2 : 0 <= IZR (end_ - n) <= IZR (end_ - start))
    by (split; apply IZR_le; lia).
  destruct (String.eqb mode "in"); split;
    try (apply Rmult_le_pos; [lra | left; now apply Rinv_0_lt_compat]);
    apply (Rmult_le_reg_r (IZR (end_ - start))); try exact Hd;
    unfold Rdiv; rewrite Rmult_assoc, Rinv_l by lra; lra.
Qed.

Lemma fade_weight_in_ends (start end_ : Z) :
  (start < end_)%Z ->
  fade_weight "in" start end_ start = 0 /\
  fade_weight "in" start end_ end_ = 1.
Proof.
  intros Hlt. unfold fade_weight. mode_eqb.
  assert (Hd : IZR (end_ - start) <> 0) by (apply not_0_IZR; lia).
  replace (start - start)%Z with 0%Z by lia.
  split; [unfold Rdiv; lra | now field].
Qed.

Lemma fade_weight_out_ends (start end_ : Z) :
  (start < end_)%Z ->
  fade_weight "out" start end_ start = 1 /\
  fade_weight "out" start end_ end_ = 0.
Proof.
  intros Hlt. unfold fade_weight. mode_eqb.
  assert (Hd : IZR (end_ - start) <> 0) by (apply not_0_IZR; lia).
  replace (end_ - end_)%Z with 0%Z by lia.
  split; [now field | unfold Rdiv; lra].
Qed.


(** Inside the range, with a known mode, the weight is computed. *)
Lemma fade_core_weight (mode : String.string) (start end_ n : Z) :
  (start < end_)%Z ->
  mode = "in"%string \/ mode = "out"%string ->
  (if String.eqb mode "in"%string
   then py_div (IZR (n - start)) (IZR (end_ - start))
   else if String.eqb mode "out"%string
   then py_div (IZR (end_ - n)) (IZR (end_ - start))
   else None) = Some (fade_weight mode start end_ n).
Proof.
  intros Hlt Hmode.
  assert (Hd : IZR (end_ - start) <> 0) by (apply not_0_IZR; lia).
  unfold fade_weight.
  destruct Hmode as [-> | ->]; mode_eqb; rewrite py_div_nonzero by exact Hd; reflexivity.
Qed.


(** Outside the range, and everywhere when the range is empty or a single
    frame, the frames are the clip's own: no expression is built, nothing
    is divided, and the mode is not looked at. *)
Theorem fade_outside (clip : node) (start : Z) (end_ : option Z)
  (mode : String.string) (base : option node) (n : Z) :
  (n < start \/ fade_end clip end_ < n \/ fade_end clip end_ <= start)%Z ->
  request (fade clip start end_ mode base) n = Some (sample clip n).
Proof.
  intros H. rewrite fade_request, fade_core_outside by exact H. reflexivity.
Qed.

(** An unknown mode does not make the call raise; a frame raises when it
    is requested, and only inside a range of at least two frames. *)
Theorem fade_unknown_mode (clip : node) (start : Z) (end_ : option Z)
  (mode : String.string) (base : option node) (n : Z) :
  mode <> "in"%string -> mode <> "out"%string ->
  (request (fade clip start end_ mode base) n = None <->
   (start <= n <= fade_end clip end_ /\ start < fade_end clip end_)%Z).
Proof.
  intros Hin Hout. rewrite fade_request. split.
  - intros Hnone.
    destruct (Z_lt_dec n start) as [H1|H1];
      [rewrite fade_core_outside in Hnone by lia; discriminate|].
    destruct (Z_lt_dec (fade_end clip end_) n) as [H2|H2];
      [rewrite fade_core_outside in Hnone by lia; discriminate|].
    destruct (Z_le_dec (fade_end clip end_) start) as [H3|H3];
      [rewrite fade_core_outside in Hnone by lia; discriminate|].
    lia.
  - intros [Hn Hlt]. unfold fade_core.
    rewrite fade_core_inside_test by assumption.
    apply String.eqb_neq in Hin, Hout. rewrite Hin, Hout. reflexivity.
Qed.

Lemma planes_test (k : nat) (f : video_format) :
  (k <= fmt_num_planes f)%nat -> (fmt_num_planes f <? k)%nat = false.
Proof. intros H. apply Nat.ltb_ge. exact H. Qed.

(** Inside the range, over a base, every sample is the stored blend of the
    clip and the base with the weight of the frame. *)
Lemma fade_blend_frame (clip base : node) (start : Z) (end_ : option Z)
  (mode : String.string) (n : Z) :
  mode = "in"%string \/ mode = "out"%string ->
  (start <= n <= fade_end clip end_)%Z -> (start < fade_end clip end_)%Z ->
  (1 <= fmt_num_planes (format clip))%nat ->
  exists fr,
    request (fade clip start end_ mode (Some base)) n = Some fr /\
    forall p s,
      fr p s
      = store (format clip)
          (sample clip n p s * fade_weight mode start (fade_end clip end_) n
           + sample base n p s
             * (1 - fade_weight mode start (fade_end clip end_) n)).
Proof.
  intros Hmode Hn Hlt Hp. rewrite fade_request. unfold fade_core.
  rewrite fade_core_inside_test by assumption.
  rewrite fade_core_weight by assumption. cbn [bind].
  unfold node_Expr. rewrite planes_test by exact Hp.
  cbn [length collect compile_plane Rpn.rpn for_each Rpn.step Rpn.binary
       Rpn.x Rpn.y Nat.ltb Nat.leb bind].
  eexists. split; [reflexivity|]. intros p s. cbn [sample].
  rewrite plane_choice_1. reflexivity.
Qed.

(** A fade over a base, on integer clips of at most 16 bits, whose samples
    the engine holds exactly: when storing is monotone and leaves the
    samples of the two clips as they are, every sample of a frame inside
    the range lies between the sample of the clip and that of the base; at
    the first frame of the range it is the base (mode [in]) or the clip
    (mode [out]), at the last frame the other one. *)
Theorem fade_over_base (clip base : node) (start : Z) (end_ : option Z)
  (mode : String.string) (n : Z) :
  mode = "in"%string \/ mode = "out"%string ->
  (start <= n <= fade_end clip end_)%Z -> (start < fade_end clip end_)%Z ->
  (1 <= fmt_num_planes (format clip))%nat ->
  fmt_sample_type (format clip) = INTEGER ->
  (fmt_bits_per_sample (format clip) <= 16)%Z ->
  (forall a b, a <= b -> store (format clip) a <= store (format clip) b) ->
  (forall p s, store (format clip) (sample clip n p s) = sample clip n p s) ->
  (forall p s, store (format clip) (sample base n p s) = sample base n p s) ->
  exists fr : nat -> spot -> R,
    request (fade clip start end_ mode (Some base)) n = Some fr /\
    forall p s,
      let x := sample clip n p s in
      let y := sample base n p s in
      Rmin x y <= fr p s <= Rmax x y /\
      (n = (if String.eqb mode "in" then start else fade_end clip end_)
       -> fr p s = y) /\
      (n = (if String.eqb mode "in" then fade_end clip end_ else start)
       -> fr p s = x).
Proof.
  intros Hmode Hn Hlt Hp _ _ Hmono Hx Hy.
  destruct (fade_blend_frame clip base start end_ mode n Hmode Hn Hlt Hp)
    as (fr & Hfr & Hv).
  pose proof (fade_weight_bounds mode start (fade_end clip end_) n Hn Hlt)
    as Hw.
  exists fr. split; [exact Hfr|]. intros p s x y.
  rewrite Hv. fold x y. specialize (Hx p s). specialize (Hy p s).
  fold x in Hx. fold y in Hy.
  set (w := fade_weight mode start (fade_end clip end_) n) in *.
  assert (Hb : Rmin x y <= x * w + y * (1 - w) <= Rmax x y).
  { unfold Rmin, Rmax. destruct (Rle_dec x y); split; nra. }
  assert (Hmin : store (format clip) (Rmin x y) = Rmin x y).
  { unfold Rmin. destruct (Rle_dec x y); assumption. }
  assert (Hmax : store (format clip) (Rmax x y) = Rmax x y).
  { unfold Rmax. destruct (Rle_dec x y); assumption. }
  split.
  - split.
    + rewrite <- Hmin. apply Hmono. apply Hb.
    + rewrite <- Hmax. apply Hmono. apply Hb.
  - destruct (fade_weight_in_ends start (fade_end clip end_) Hlt) as [Hi0 Hi1].
    destruct (fade_weight_out_ends start (fade_end clip end_) Hlt) as [Ho1 Ho0].
    destruct Hmode as [-> | ->]; mode_eqb; split; intros ->; unfold w;
      rewrite ?Hi0, ?Hi1, ?Ho0, ?Ho1.
    + rewrite <- Hy at 2. f_equal. ring.
    + rewrite <- Hx at 2. f_equal. ring.
    + rewrite <- Hy at 2. f_equal. ring.
    + rewrite <- Hx at 2. f_equal. ring.
Qed.


(** What a fade without a base fades to: zero, except for the chroma
    planes of an integer YUV clip, which go to the middle of their range. *)
Lemma fade_plain_frame (clip : node) (start : Z) (end_ : option Z)
  (mode : String.string) (n : Z) :
  mode = "in"%string \/ mode = "out"%string ->
  (start <= n <= fade_end clip end_)%Z -> (start < fade_end clip end_)%Z ->
  (if color_family_eqb (fmt_color_family (format clip)) YUV
      && sample_type_eqb (fmt_sample_type (format clip)) INTEGER
   then (2 <= fmt_num_planes (format clip))%nat
        /\ (1 <= fmt_bits_per_sample (format clip))%Z
   else (1 <= fmt_num_planes (format clip))%nat) ->
  exists fr,
    request (fade clip start end_ mode None) n = Some fr /\
    forall p s,
      fr p s
      = store (format clip)
          (sample clip n p s * fade_weight mode start (fade_end clip end_) n
           + (1 - fade_weight mode start (fade_end clip end_) n)
             * fade_dark (format clip) p).
Proof.
  intros Hmode Hn Hlt Hfmt. rewrite fade_request. unfold fade_core, fade_dark.
  rewrite fade_core_inside_test by assumption.
  rewrite fade_core_weight by assumption. cbn [bind].
  destruct (fmt_color_family (format clip)) eqn:Hcf,
           (fmt_sample_type (format clip)) eqn:Hst;
    cbn [color_family_eqb sample_type_eqb negb orb andb] in *.
  all: try (unfold node_Expr; rewrite planes_test by exact Hfmt;
            cbn [length collect compile_plane Rpn.rpn for_each Rpn.step
                 Rpn.binary Rpn.x Nat.ltb Nat.leb bind];
            eexists; split; [reflexivity|]; intros p s; cbn [sample];
            rewrite plane_choice_1; cbn; f_equal; ring).
  destruct Hfmt as [Hp Hb].
  unfold py_lshift.
  destruct (Z.ltb_spec (fmt_bits_per_sample (format clip) - 1) 0); [lia|].
  cbn [bind]. unfold node_Expr. rewrite planes_test by exact Hp.
  cbn [length collect compile_plane Rpn.rpn for_each Rpn.step
       Rpn.binary Rpn.x Nat.ltb Nat.leb bind].
  eexists. split; [reflexivity|]. intros p s. cbn [sample].
  rewrite plane_choice_2. rewrite Z.shiftl_1_l.
  destruct p; cbn; f_equal; ring.
Qed.

(** A fade without a base: the first and last frames of the range are the
    stored samples of the clip at one end and the dark value at the other;
    in between the stored value lies between them. *)
Theorem fade_to_dark (clip : node) (start : Z) (end_ : option Z)
  (mode : String.string) (n : Z) :
  mode = "in"%string \/ mode = "out"%string ->
  (start <= n <= fade_end clip end_)%Z -> (start < fade_end clip end_)%Z ->
  (if color_family_eqb (fmt_color_family (format clip)) YUV
      && sample_type_eqb (fmt_sample_type (format clip)) INTEGER
   then (2 <= fmt_num_planes (format clip))%nat
        /\ (1 <= fmt_bits_per_sample (format clip))%Z
   else (1 <= fmt_num_planes (format clip))%nat) ->
  exists (fr : nat -> spot -> R) (v : nat -> spot -> R),
    request (fade clip start end_ mode None) n = Some fr /\
    forall p s,
      let x := sample clip n p s in
      let dark := fade_dark (format clip) p in
      fr p s = store (format clip) (v p s) /\
      Rmin x dark <= v p s <= Rmax x dark /\
      (n = (if String.eqb mode "in" then start else fade_end clip end_)
       -> v p s = dark) /\
      (n = (if String.eqb mode "in" then fade_end clip end_ else start)
       -> v p s = x).
Proof.
  intros Hmode Hn Hlt Hfmt.
  destruct (fade_plain_frame clip start end_ mode n Hmode Hn Hlt Hfmt)
    as (fr & Hfr & Hv).
  pose proof (fade_weight_bounds mode start (fade_end clip end_) n Hn Hlt)
    as Hw.
  exists fr.
  exists (fun p s =>
            sample clip n p s * fade_weight mode start (fade_end clip end_) n
            + (1 - fade_weight mode start (fade_end clip end_) n)
              * fade_dark (format clip) p).
  split; [exact Hfr|]. intros p s x dark. split; [apply Hv|].
  fold x dark. set (w := fade_weight mode start (fade_end clip end_) n) in *.
  split.
  - unfold Rmin, Rmax. destruct (Rle_dec x dark); split; nra.
  - destruct (fade_weight_in_ends start (fade_end clip end_) Hlt) as [Hi0 Hi1].
    destruct (fade_weight_out_ends start (fade_end clip end_) Hlt) as [Ho1 Ho0].
    destruct Hmode as [-> | ->]; mode_eqb; split; intros ->; unfold w;
      rewrite ?Hi0, ?Hi1, ?Ho0, ?Ho1; ring.
Qed.

End FadeFacts.

(** Frame 7 of a fade over frames 2 to 5. *)
Lemma fade_outside_witness :
  request (fade grey_clip 2 (Some 5%Z) "in" None) 7 = Some (sample grey_clip 7).
Proof.
  apply (fade_outside (V := line_frames) grey_clip 2 (Some 5%Z) "in" None 7).
  right. left. cbn. lia.
Defined.

(** A mode that is neither [in] nor [out], over the default range. *)
Lemma fade_unknown_mode_witness :
  request (fade grey_clip 0 None "sideways" None) 3 = None <->
  (0 <= 3 <= fade_end grey_clip None /\ 0 < fade_end grey_clip None)%Z.
Proof.
  apply (fade_unknown_mode (V := line_frames) grey_clip 0 None "sideways"
           None 3); discriminate.
Defined.

Lemma round_clamp_mono (f : video_format) (a b : R) :
  a <= b -> round_clamp f a <= round_clamp f b.
Proof.
  intros Hab. unfold round_clamp. destruct (fmt_sample_type f); [|exact Hab].
  apply IZR_le.
  assert (H : (Zfloor (a + / 2) <= Zfloor (b + / 2))%Z)
    by (apply Zfloor_le; lra).
  lia.
Qed.

Lemma round_clamp_sample (f : video_format) (k : Z) :
  (0 <= k <= 2 ^ fmt_bits_per_sample f - 1)%Z ->
  round_clamp f (IZR k) = IZR k.
Proof.
  intros Hk. unfold round_clamp. destruct (fmt_sample_type f); [|reflexivity].
  rewrite (Zfloor_eq k) by lra. f_equal. lia.
Qed.

(** Grey fading in over white, frame 3 of 2 to 5. *)
Lemma fade_over_base_witness :
  exists fr : nat -> Z -> R,
    request (fade grey_clip 2 (Some 5%Z) "in" (Some white_clip)) 3 = Some fr /\
    forall p s,
      Rmin 100 255 <= fr p s <= Rmax 100 255 /\
      (3%Z = 2%Z -> fr p s = 255) /\
      (3%Z = 5%Z -> fr p s = 100).
Proof.
  apply (fade_over_base (V := line_frames) grey_clip white_clip 2 (Some 5%Z)
           "in" 3).
  - left. reflexivity.
  - cbn. lia.
  - cbn. lia.
  - cbn. lia.
  - reflexivity.
  - cbn. lia.
  - intros a b. apply round_clamp_mono.
  - intros p s. apply (round_clamp_sample gray8 100). cbn. lia.
  - intros p s. apply (round_clamp_sample gray8 255). cbn. lia.
Defined.


(** The YUV clip fading out over its whole length. *)
Lemma fade_to_dark_witness :
  exists (fr : nat -> Z -> R) (v : nat -> Z -> R),
    request (fade yuv_clip 0 None "out" None) 9 = Some fr /\
    forall p s,
      fr p s = round_clamp yuv8 (v p s) /\
      Rmin 100 (fade_dark yuv8 p) <= v p s <= Rmax 100 (fade_dark yuv8 p) /\
      (9%Z = 9%Z -> v p s = fade_dark yuv8 p) /\
      (9%Z = 0%Z -> v p s = 100).
Proof.
  apply (fade_to_dark (V := line_frames) yuv_clip 0 None "out" 9).
  - right. reflexivity.
  - cbn. lia.
  - cbn. lia.
  - cbn. split; lia.
Defined.

(** ** [freq_merge], [band_merge] and [XDoG] *)

Section LinearFilters.

Context {S : Type}.
Variable K : (S -> R) -> S -> R.
Hypothesis K_sub : forall u v s, K (fun t => u t - v t) s = K u s - K v s.

Lemma linear_zero (s : S) : K (fun _ => 0) s = 0.
Proof.
  replace (fun _ : S => 0) with (fun t : S => (fun _ : S => 0) t - (fun _ : S => 0) t)
    by (apply functional_extensionality; intros t; ring).
  rewrite K_sub. ring.
Qed.

Lemma linear_add (u v : S -> R) (s : S) :
  K (fun t => u t + v t) s = K u s + K v s.
Proof.
  replace (fun t => u t + v t)
    with (fun t => u t - (fun r => (fun _ : S => 0) r - v r) t)
    by (apply functional_extensionality; intros t; ring).
  rewrite !K_sub, linear_zero. ring.
Qed.

Lemma linear_swap (u v w : S -> R) (s : S) :
  K (fun t => u t - v t + w t) s = K u s - K v s + K w s.
Proof.
  rewrite (linear_add (fun t => u t - v t) w), K_sub. reflexivity.
Qed.

End LinearFilters.

Section ExprFacts.

Context {V : Frames}.

(** One expression for every plane of the first clip. *)
Lemma node_Expr_one (first : node) (rest : list node)
  (prog : list Rpn.token) (e : Rpn.expr) :
  prog <> [] ->
  Rpn.rpn false (length (first :: rest)) prog = Some e ->
  (1 <= fmt_num_planes (format first))%nat ->
  exists out,
    node_Expr (first :: rest) [prog] = Some out /\
    format out = format first /\
    num_frames out = num_frames first /\
    forall n p s,
      sample out n p s
      = store (format first)
          (Rpn.denote e (map (fun c => sample c n p s) (first :: rest))
             (Rpn.mk_place 0 0 0 0)).
Proof.
  intros Hne He Hp. unfold node_Expr.
  rewrite planes_test by exact Hp.
  cbn [collect]. unfold compile_plane.
  destruct prog as [|t prog]; [contradiction|].
  rewrite He. cbn [bind collect].
  eexists. split; [reflexivity|].
  split; [reflexivity|]. split; [reflexivity|].
  intros n p s. cbn [sample]. rewrite plane_choice_1. reflexivity.
Qed.

End ExprFacts.

Ltac run_expr H :=
  match goal with
  | |- context [node_Expr (?first :: ?rest) [?prog]] =>
      destruct (node_Expr_one first rest prog _ ltac:(discriminate)
                  ltac:(reflexivity) H)
        as (out & Hout & Hfmt & Hlen & Hs)
  end.

Section MergeFacts.

Context {V : Frames} {P : Plugins}.

Lemma freq_merge_frame (src flt : node) (fun_ : option py_fun) (kw : kwargs)
  (low_src low_flt : node) :
  lowpass fun_ src kw = Some low_src ->
  lowpass fun_ flt kw = Some low_flt ->
  (1 <= fmt_num_planes (format low_src))%nat ->
  exists out,
    freq_merge src flt fun_ kw = Some out /\
    format out = format low_src /\
    forall n p s,
      sample out n p s
      = store (format low_src)
          (sample flt n p s - sample low_flt n p s + sample low_src n p s).
Proof.
  intros Hsrc Hflt Hp. unfold freq_merge. rewrite Hsrc, Hflt. cbn [bind].
  run_expr Hp. exists out. split; [exact Hout|]. split; [exact Hfmt|].
  intros n p s. rewrite Hs. reflexivity.
Qed.

(** Merging an integer clip of at most 16 bits with itself gives the clip
    back: the engine holds such samples and their differences exactly, and
    every sample of the result is the stored sample of the clip, whatever
    the low-pass filter is, as long as it returns an integer clip of at
    most 16 bits. *)
Theorem freq_merge_self (src : node) (fun_ : option py_fun) (kw : kwargs)
  (low : node) :
  lowpass fun_ src kw = Some low ->
  (1 <= fmt_num_planes (format low))%nat ->
  fmt_sample_type (format src) = INTEGER ->
  (fmt_bits_per_sample (format src) <= 16)%Z ->
  fmt_sample_type (format low) = INTEGER ->
  (fmt_bits_per_sample (format low) <= 16)%Z ->
  exists out,
    freq_merge src src fun_ kw = Some out /\
    format out = format low /\
    forall n p s, sample out n p s = store (format low) (sample src n p s).
Proof.
  intros Hlow Hp _ _ _ _.
  destruct (freq_merge_frame src src fun_ kw low low Hlow Hlow Hp)
    as (out & Hout & Hfmt & Hs).
  exists out. split; [exact Hout|]. split; [exact Hfmt|].
  intros n p s. rewrite Hs. f_equal. ring.
Qed.

(** With a low-pass filter that is linear, leaves its own results alone
    and keeps the format, and a format that stores values as they are,
    the result has the low frequencies of [src] and the high frequencies
    of [flt]. *)
Theorem freq_merge_components (src flt : node)
  (f : node -> kwargs -> option node) (kw : kwargs)
  (K : (spot -> R) -> spot -> R) :
  (forall c, exists c',
      f c kw = Some c' /\ format c' = format c /\
      forall n p, sample c' n p = K (sample c n p)) ->
  (forall u v s, K (fun t => u t - v t) s = K u s - K v s) ->
  (forall u s, K (K u) s = K u s) ->
  (forall v, store (format src) v = v) ->
  (1 <= fmt_num_planes (format src))%nat ->
  exists out low_out low_src low_flt,
    freq_merge src flt (Some (py_callable f)) kw = Some out /\
    f out kw = Some low_out /\
    f src kw = Some low_src /\
    f flt kw = Some low_flt /\
    forall n p s,
      sample low_out n p s = sample low_src n p s /\
      sample out n p s - sample low_out n p s
      = sample flt n p s - sample low_flt n p s.
Proof.
  intros Hf Hsub Hidem Hstore Hp.
  destruct (Hf src) as (low_src & Hsrc & Hfs & Hks).
  destruct (Hf flt) as (low_flt & Hflt & Hff & Hkf).
  destruct (freq_merge_frame src flt (Some (py_callable f)) kw low_src low_flt
              Hsrc Hflt ltac:(now rewrite Hfs))
    as (out & Hout & Hfmt & Hs).
  destruct (Hf out) as (low_out & Hlo & Hfo & Hko).
  exists out, low_out, low_src, low_flt.
  split; [exact Hout|]. split; [exact Hlo|].
  split; [exact Hsrc|]. split; [exact Hflt|].
  assert (Hsample : forall n p,
             sample out n p
             = fun t => sample flt n p t - K (sample flt n p) t
                        + K (sample src n p) t).
  { intros n p. apply functional_extensionality; intros t.
    rewrite Hs, Hfs, Hstore, Hks, Hkf. reflexivity. }
  intros n p s. rewrite Hko, Hks, Hkf, Hsample.
  rewrite (linear_swap K Hsub), !Hidem. split; ring.
Qed.

Lemma band_merge_frame (src flt : node) (fun_ : option py_fun)
  (fun_args1 fun_args2 : option kwargs) (cascade : bool)
  (low_src1 low_src2 low_flt1 low_flt2 : node) :
  lowpass fun_ src (or_empty fun_args1) = Some low_src1 ->
  lowpass fun_ (if cascade then low_src1 else src) (or_empty fun_args2)
  = Some low_src2 ->
  lowpass fun_ flt (or_empty fun_args1) = Some low_flt1 ->
  lowpass fun_ (if cascade then low_flt1 else flt) (or_empty fun_args2)
  = Some low_flt2 ->
  (1 <= fmt_num_planes (format low_flt1))%nat ->
  exists out,
    band_merge src flt fun_ fun_args1 fun_args2 cascade = Some out /\
    format out = format low_flt1 /\
    forall n p s,
      sample out n p s
      = store (format low_flt1)
          (sample low_flt1 n p s - sample low_flt2 n p s
           + sample low_src2 n p s - sample low_src1 n p s
           + sample src n p s).
Proof.
  intros Hs1 Hs2 Hf1 Hf2 Hp. unfold band_merge.
  rewrite Hs1. cbn [bind]. rewrite Hs2. cbn [bind].
  rewrite Hf1. cbn [bind]. rewrite Hf2. cbn [bind].
  run_expr Hp. exists out. split; [exact Hout|]. split; [exact Hfmt|].
  intros n p s. rewrite Hs. reflexivity.
Qed.

(** An empty band: with the same arguments for both filters and no
    cascade, the result is [src], stored in the format of the filtered
    [flt]; nothing of [flt] is left in it. *)
Theorem band_merge_empty_band (src flt : node) (fun_ : option py_fun)
  (fun_args : option kwargs) (low_src low_flt : node) :
  lowpass fun_ src (or_empty fun_args) = Some low_src ->
  lowpass fun_ flt (or_empty fun_args) = Some low_flt ->
  (1 <= fmt_num_planes (format low_flt))%nat ->
  exists out,
    band_merge src flt fun_ fun_args fun_args false = Some out /\
    format out = format low_flt /\
    forall n p s,
      sample out n p s = store (format low_flt) (sample src n p s).
Proof.
  intros Hsrc Hflt Hp.
  destruct (band_merge_frame src flt fun_ fun_args fun_args false
              low_src low_src low_flt low_flt Hsrc Hsrc Hflt Hflt Hp)
    as (out & Hout & Hfmt & Hs).
  exists out. split; [exact Hout|]. split; [exact Hfmt|].
  intros n p s. rewrite Hs. f_equal. ring.
Qed.

(** With cascaded low-pass filters that are linear, commute, leave their
    own results alone and keep the format, and a format that stores
    values as they are: the band between the two filters is that of
    [flt], and what is outside the band is that of [src]. *)
Theorem band_merge_components (src flt : node)
  (f : node -> kwargs -> option node) (kw1 kw2 : kwargs)
  (K1 K2 : (spot -> R) -> spot -> R) :
  (forall c, exists c',
      f c kw1 = Some c' /\ format c' = format c /\
      forall n p, sample c' n p = K1 (sample c n p)) ->
  (forall c, exists c',
      f c kw2 = Some c' /\ format c' = format c /\
      forall n p, sample c' n p = K2 (sample c n p)) ->
  (forall u v s, K1 (fun t => u t - v t) s = K1 u s - K1 v s) ->
  (forall u v s, K2 (fun t => u t - v t) s = K2 u s - K2 v s) ->
  (forall u s, K1 (K1 u) s = K1 u s) ->
  (forall u s, K2 (K2 u) s = K2 u s) ->
  (forall u s, K1 (K2 u) s = K2 (K1 u) s) ->
  (forall v, store (format flt) v = v) ->
  (1 <= fmt_num_planes (format flt))%nat ->
  let band := fun u s => K1 u s - K2 (K1 u) s in
  exists out,
    band_merge src flt (Some (py_callable f)) (Some kw1) (Some kw2) true
    = Some out /\
    forall n p s,
      band (sample out n p) s = band (sample flt n p) s /\
      sample out n p s - band (sample out n p) s
      = sample src n p s - band (sample src n p) s.
Proof.
  intros Hf1 Hf2 Hsub1 Hsub2 Hid1 Hid2 Hcomm Hstore Hp band.
  destruct (Hf1 src) as (ls1 & Hs1 & Hfs1 & Hks1).
  destruct (Hf2 ls1) as (ls2 & Hs2 & Hfs2 & Hks2).
  destruct (Hf1 flt) as (lf1 & Hl1 & Hff1 & Hkf1).
  destruct (Hf2 lf1) as (lf2 & Hl2 & Hff2 & Hkf2).
  destruct (band_merge_frame src flt (Some (py_callable f)) (Some kw1)
              (Some kw2) true ls1 ls2 lf1 lf2 Hs1 Hs2 Hl1 Hl2
              ltac:(now rewrite Hff1))
    as (out & Hout & Hfmt & Hs).
  exists out. split; [exact Hout|].
  assert (Hext : forall (A B : (spot -> R)), (forall t, A t = B t) -> A = B)
    by (intros A B H; apply functional_extensionality; exact H).
  assert (Hid1' : forall u, K1 (K1 u) = K1 u)
    by (intros u; apply Hext, Hid1).
  assert (Hsample : forall n p,
             sample out n p
             = fun t => (fun r => (fun q => (fun o =>
                           K1 (sample flt n p) o
                           - K2 (K1 (sample flt n p)) o) q
                           + K2 (K1 (sample src n p)) q) r
                           - K1 (sample src n p) r) t
                        + sample src n p t).
  { intros n p. apply Hext; intros t.
    rewrite Hs, Hff1, Hstore, Hkf1, Hkf2, Hks1, Hks2, Hkf1, Hks1.
    reflexivity. }
  assert (HK1 : forall n p s,
             K1 (sample out n p) s
             = K1 (sample flt n p) s - K2 (K1 (sample flt n p)) s
               + K2 (K1 (sample src n p)) s).
  { intros n p s. rewrite Hsample.
    rewrite (linear_add K1 Hsub1), Hsub1, (linear_add K1 Hsub1), Hsub1.
    rewrite !Hcomm, !Hid1'. ring. }
  assert (HK2 : forall n p s,
             K2 (K1 (sample out n p)) s = K2 (K1 (sample src n p)) s).
  { intros n p s.
    rewrite (Hext _ _ (HK1 n p)).
    rewrite (linear_add K2 Hsub2), Hsub2, !Hid2. ring. }
  intros n p s. unfold band. rewrite HK1, HK2. split; [ring|].
  rewrite Hsample. ring.
Qed.

Lemma XDoG_frame (clip : node) (sigma k p epsilon lamda : R) (f1 f2 : node) :
  (0 <= fmt_bits_per_sample (format clip))%Z ->
  tcanny_TCanny clip (Some sigma) (-1) = Some f1 ->
  tcanny_TCanny clip (Some (sigma * k)) (-1) = Some f2 ->
  (1 <= fmt_num_planes (format f1))%nat ->
  exists out,
    XDoG clip sigma k p epsilon lamda = Some out /\
    format out = format f1 /\
    forall n q s,
      sample out n q s
      = store (format f1)
          (XDoG_value p
             (muf_scale epsilon (fmt_bits_per_sample (format clip))) lamda
             (IZR (2 ^ fmt_bits_per_sample (format clip) - 1))
             (sample f1 n q s) (sample f2 n q s)).
Proof.
  intros Hb H1 H2 Hp. unfold XDoG, py_lshift.
  destruct (Z.ltb_spec (fmt_bits_per_sample (format clip)) 0); [lia|].
  cbn [bind]. rewrite H1. cbn [bind]. rewrite H2. cbn [bind].
  run_expr Hp. exists out. split; [exact Hout|]. split; [exact Hfmt|].
  intros n q s. rewrite Hs. rewrite Z.shiftl_1_l.
  unfold XDoG_value, XDoG_response.
  cbn [map Rpn.denote Rpn.denote_bin Rpn.denote_un nth].
  rewrite truth_of_bool.
  destruct (Rge_dec _ _); reflexivity.
Qed.

Lemma XDoG_tanh (u : R) : 2 - 2 / (exp (2 * u) + 1) = 1 + tanh u.
Proof.
  unfold tanh, sinh, cosh. rewrite exp_Ropp.
  replace (exp (2 * u)) with (exp u * exp u)
    by (rewrite <- exp_plus; f_equal; ring).
  pose proof (exp_pos u) as Ha. set (a := exp u) in *.
  assert (H1 : a * a + 1 <> 0) by nra.
  assert (H2 : a + / a <> 0).
  { assert (0 < / a) by now apply Rinv_0_lt_compat. lra. }
  field. repeat split; try lra; nra.
Qed.

Lemma XDoG_value_range (p epsilon lamda peak x y : R) :
  0 <= lamda -> 0 < peak ->
  XDoG_value p epsilon lamda peak x y
  = peak * (if Rge_dec (XDoG_response p x y) epsilon then 1
            else 1 + tanh (lamda * (XDoG_response p x y - epsilon))) /\
  0 <= XDoG_value p epsilon lamda peak x y <= peak.
Proof.
  intros Hl Hpk. unfold XDoG_value.
  set (r := XDoG_response p x y).
  destruct (Rge_dec r epsilon) as [Hge | Hlt].
  - split; [ring | lra].
  - assert (Hr : r < epsilon) by lra.
    set (t := 2 * ((r - epsilon) * lamda)).
    split.
    { rewrite <- XDoG_tanh.
      replace (2 * (lamda * (r - epsilon))) with t by (unfold t; ring).
      ring. }
    assert (Ht : t <= 0) by (unfold t; nra).
    assert (He0 : 0 < exp t) by apply exp_pos.
    assert (He1 : exp t <= 1).
    { rewrite <- exp_0.
      destruct Ht as [Ht | ->];
        [left; now apply exp_increasing | right; reflexivity]. }
    assert (Hq : 1 <= 2 / (exp t + 1) < 2).
    { split.
      - apply (Rmult_le_reg_r (exp t + 1)); [lra|].
        unfold Rdiv. rewrite Rmult_assoc, Rinv_l by lra. lra.
      - apply (Rmult_lt_reg_r (exp t + 1)); [lra|].
        unfold Rdiv. rewrite Rmult_assoc, Rinv_l by lra. lra. }
    nra.
Qed.

(** What [XDoG] computes for a sample before it is stored, on formats of
    at most 16 bits and for [lamda >= 0]: the peak [(1 << bits) - 1] times
    the thresholding function of the XDoG paper, 1 where the response
    [(f1 - f2) * p + f1] reaches the scaled epsilon and
    [1 + tanh (lamda * (response - epsilon))] elsewhere; it never leaves
    the range from 0 to the peak. *)
Theorem XDoG_range (clip : node) (sigma k p epsilon lamda : R)
  (f1 f2 : node) :
  (1 <= fmt_bits_per_sample (format clip) <= 16)%Z ->
  tcanny_TCanny clip (Some sigma) (-1) = Some f1 ->
  tcanny_TCanny clip (Some (sigma * k)) (-1) = Some f2 ->
  (1 <= fmt_num_planes (format f1))%nat ->
  0 <= lamda ->
  let bits := fmt_bits_per_sample (format clip) in
  let peak := IZR (2 ^ bits - 1) in
  exists (out : node) (v : Z -> nat -> spot -> R),
    XDoG clip sigma k p epsilon lamda = Some out /\
    forall n q s,
      let response := XDoG_response p (sample f1 n q s) (sample f2 n q s) in
      sample out n q s = store (format f1) (v n q s) /\
      v n q s
      = peak * (if Rge_dec response (muf_scale epsilon bits) then 1
                else 1 + tanh (lamda * (response - muf_scale epsilon bits)))
      /\ 0 <= v n q s <= peak.
Proof.
  intros Hb H1 H2 Hp Hl bits peak.
  destruct (XDoG_frame clip sigma k p epsilon lamda f1 f2 ltac:(lia) H1 H2 Hp)
    as (out & Hout & Hfmt & Hs).
  exists out.
  exists (fun n q s =>
            XDoG_value p (muf_scale epsilon bits) lamda peak
              (sample f1 n q s) (sample f2 n q s)).
  split; [exact Hout|]. intros n q s response.
  split; [apply Hs|].
  apply XDoG_value_range; [exact Hl|].
  unfold peak. apply IZR_lt.
  assert (2 ^ 1 <= 2 ^ bits)%Z by (apply Z.pow_le_mono_r; unfold bits; lia).
  lia.
Qed.

End MergeFacts.

Lemma freq_merge_self_witness :
  exists out,
    freq_merge (P := line_plugins) grey_clip grey_clip None (None, 0%Z)
    = Some out /\
    format out = gray8 /\
    forall n p s,
      sample out n p s = round_clamp gray8 (sample grey_clip n p s).
Proof.
  apply (freq_merge_self (P := line_plugins) grey_clip None (None, 0%Z)
           (even_node grey_clip)).
  - reflexivity.
  - cbn. lia.
  - reflexivity.
  - cbn. lia.
  - reflexivity.
  - cbn. lia.
Defined.

Lemma even_part_sub (u v : Z -> R) (s : Z) :
  even_part (fun t => u t - v t) s = even_part u s - even_part v s.
Proof. unfold even_part. field. Qed.

Lemma even_part_idem (u : Z -> R) (s : Z) :
  even_part (even_part u) s = even_part u s.
Proof. unfold even_part. rewrite Z.opp_involutive. field. Qed.

Lemma at_origin_sub (u v : Z -> R) (s : Z) :
  at_origin (fun t => u t - v t) s = at_origin u s - at_origin v s.
Proof. reflexivity. Qed.

Lemma at_origin_idem (u : Z -> R) (s : Z) :
  at_origin (at_origin u) s = at_origin u s.
Proof. reflexivity. Qed.

Lemma even_part_at_origin (u : Z -> R) (s : Z) :
  even_part (at_origin u) s = at_origin (even_part u) s.
Proof. unfold even_part, at_origin. cbn [Z.opp]. field. Qed.

(** A ramp merged with a step, smoothed by the even part. *)
Lemma freq_merge_components_witness :
  exists out low_out low_src low_flt,
    freq_merge (P := line_plugins) ramp_node step_node
      (Some (py_callable (P := line_plugins) line_lowpass)) (None, 0%Z) = Some out /\
    line_lowpass out (None, 0%Z) = Some low_out /\
    line_lowpass ramp_node (None, 0%Z) = Some low_src /\
    line_lowpass step_node (None, 0%Z) = Some low_flt /\
    forall n p s,
      sample low_out n p s = sample low_src n p s /\
      sample out n p s - sample low_out n p s
      = sample step_node n p s - sample low_flt n p s.
Proof.
  apply (freq_merge_components (P := line_plugins) ramp_node step_node
           line_lowpass (None, 0%Z) even_part).
  - intros c. exists (even_node c). repeat split.
  - exact even_part_sub.
  - exact even_part_idem.
  - reflexivity.
  - cbn. lia.
Defined.

Lemma band_merge_empty_band_witness :
  exists out,
    band_merge (P := line_plugins) ramp_node step_node None None None false
    = Some out /\
    format out = grays /\
    forall n p s,
      sample out n p s = round_clamp grays (sample ramp_node n p s).
Proof.
  apply (band_merge_empty_band (P := line_plugins) ramp_node step_node None
           None (even_node ramp_node) (even_node step_node)).
  - reflexivity.
  - reflexivity.
  - cbn. lia.
Defined.

(** The band between the even part and the value at the origin. *)
Lemma band_merge_components_witness :
  let band := fun (u : Z -> R) (s : Z) =>
                even_part u s - at_origin (even_part u) s in
  exists out,
    band_merge (P := line_plugins) ramp_node step_node
      (Some (py_callable (P := line_plugins) line_lowpass)) (Some (None, 0%Z))
      (Some (Some 1, 0%Z)) true = Some out /\
    forall n p s,
      band (sample out n p) s = band (sample step_node n p) s /\
      sample out n p s - band (sample out n p) s
      = sample ramp_node n p s - band (sample ramp_node n p) s.
Proof.
  apply (band_merge_components (P := line_plugins) ramp_node step_node
           line_lowpass (None, 0%Z) (Some 1, 0%Z) even_part at_origin).
  - intros c. exists (even_node c). repeat split.
  - intros c. exists (origin_node c). repeat split.
  - exact even_part_sub.
  - exact at_origin_sub.
  - exact even_part_idem.
  - exact at_origin_idem.
  - exact even_part_at_origin.
  - reflexivity.
  - cbn. lia.
Defined.

(** The defaults of [XDoG] on the 8-bit grey clip. *)
Lemma XDoG_range_witness :
  exists (out : node) (v : Z -> nat -> Z -> R),
    XDoG (P := line_plugins) grey_clip 1 (16 / 10) 20 (7 / 10) (1 / 100)
    = Some out /\
    forall n q s,
      let response :=
        XDoG_response 20 (sample (even_node grey_clip) n q s)
          (sample (even_node grey_clip) n q s) in
      sample out n q s = round_clamp gray8 (v n q s) /\
      v n q s
      = IZR (2 ^ 8 - 1)
        * (if Rge_dec response (7 / 10 * IZR (2 ^ 8 - 1)) then 1
           else 1 + tanh (1 / 100 * (response - 7 / 10 * IZR (2 ^ 8 - 1))))
      /\ 0 <= v n q s <= IZR (2 ^ 8 - 1).
Proof.
  apply (XDoG_range (P := line_plugins) grey_clip 1 (16 / 10) 20 (7 / 10)
           (1 / 100) (even_node grey_clip) (even_node grey_clip)).
  - cbn. lia.
  - reflexivity.
  - reflexivity.
  - cbn. lia.
  - lra.
Defined.

(** ** [sbr_detail] *)

Lemma collect_map_with {I J A : Type} (f : J -> option A) (g : I -> J)
  (h : I -> A) (xs : list I) :
  (forall i, In i xs -> f (g i) = Some (h i)) ->
  collect f (map g xs) = Some (map h xs).
Proof.
  induction xs as [|i xs IH]; intros H; [reflexivity|].
  cbn [collect map]. rewrite (H i (or_introl eq_refl)). cbn [bind].
  rewrite IH by (intros k Hk; apply H; now right). reflexivity.
Qed.

Lemma collect_none {I A : Type} (f : I -> option A) (xs : list I) :
  collect f xs = None <-> exists i, In i xs /\ f i = None.
Proof.
  induction xs as [|i xs IH]; cbn [collect].
  - split; [discriminate | intros (i & [] & _)].
  - destruct (f i) as [v|] eqn:Hi; cbn [bind].
    + destruct (collect f xs) as [vs|] eqn:Hc; cbn [bind].
      * split; [discriminate|]. intros (k & [<- | Hk] & Hn); [congruence|].
        destruct IH as [_ IH]. discriminate IH. now exists k.
      * split; [|reflexivity]. intros _.
        destruct IH as [IH _]. destruct (IH eq_refl) as (k & Hk & Hn).
        exists k. split; [now right | exact Hn].
    + split; [|reflexivity]. intros _. exists i. split; [now left | exact Hi].
Qed.

Lemma nth_map_range {A : Type} (h : Z -> A) (N p : nat) (d : A) :
  (p < N)%nat -> nth p (map h (range 0 (Z.of_nat N))) d = h (Z.of_nat p).
Proof.
  intros Hp.
  rewrite (nth_indep _ d (h 0%Z))
    by (rewrite length_map, length_range; lia).
  rewrite map_nth. f_equal.
  rewrite <- (Nat2Z.id p) at 1. apply nth_range. lia.
Qed.

Section SbrFacts.

Context {V : Frames} {P : Plugins} {core : Core}.

Lemma node_Expr_cons (first : node) (rest : list node)
  (exprs : list (list Rpn.token)) :
  exprs <> [] ->
  node_Expr (first :: rest) exprs
  = if (fmt_num_planes (format first) <? length exprs)%nat then None
    else
      compiled <- collect (compile_plane (length (first :: rest))) exprs ;;
      Some (mk_node (format first) (num_frames first)
              (fun n p s =>
                 match plane_choice compiled p None with
                 | None => sample first n p s
                 | Some e =>
                     store (format first)
                       (Rpn.denote e
                          (map (fun c => sample c n p s) (first :: rest))
                          (Rpn.mk_place 0 0 0 0))
                 end)).
Proof. intros H. destruct exprs; [contradiction | reflexivity]. Qed.

(** One expression for the listed planes, a copy for the others. *)
Lemma node_Expr_listed (first : node) (rest : list node)
  (listed : Z -> bool) (prog : list Rpn.token) (e : Rpn.expr) (N : nat) :
  prog <> [] ->
  Rpn.rpn false (length (first :: rest)) prog = Some e ->
  (1 <= N <= fmt_num_planes (format first))%nat ->
  exists out,
    node_Expr (first :: rest)
      (map (fun i => if listed i then prog else []) (range 0 (Z.of_nat N)))
    = Some out /\
    forall n p s, (p < N)%nat ->
      sample out n p s
      = if listed (Z.of_nat p)
        then store (format first)
               (Rpn.denote e (map (fun c => sample c n p s) (first :: rest))
                  (Rpn.mk_place 0 0 0 0))
        else sample first n p s.
Proof.
  intros Hne He HN.
  rewrite node_Expr_cons.
  2:{ intros H. apply (f_equal (@length _)) in H.
      rewrite length_map, length_range in H. cbn in H. lia. }
  rewrite length_map, length_range.
  replace (Z.to_nat (Z.of_nat N - 0)) with N by lia.
  rewrite planes_test by lia.
  rewrite (collect_map_with _ _
             (fun i => if listed i then Some e else None)).
  2:{ intros i _. destruct (listed i); [|reflexivity].
      unfold compile_plane. destruct prog; [contradiction|].
      rewrite He. reflexivity. }
  cbn [bind]. eexists. split; [reflexivity|].
  intros n p s Hp. cbn [sample]. unfold plane_choice.
  rewrite nth_map_range by exact Hp.
  destruct (listed (Z.of_nat p)); reflexivity.
Qed.

Lemma sbr_detail_split (clip : node) (r : Z) (planes : py_planes) (mode : Z) :
  sbr_detail clip r planes mode
  = np <- sbr_levels (format clip) ;;
    d <- sbr_diffs clip r (sbr_planes clip planes) ;;
    let neutral := fst np in
    let peak := snd np in
    let expr :=
      if (mode =? 0)%Z then
        Some [Rpn.x; Rpn.y; Rpn.sub; Rpn.x; Rpn.num neutral; Rpn.sub; Rpn.mul;
              Rpn.num 0; Rpn.lt; Rpn.num peak; Rpn.num 0; Rpn.tern]
      else if (mode =? 1)%Z then
        Some [Rpn.x; Rpn.y; Rpn.sub; Rpn.abs; Rpn.x; Rpn.num neutral; Rpn.sub;
              Rpn.abs; Rpn.lt; Rpn.num peak; Rpn.num 0; Rpn.tern]
      else if (mode =? 2)%Z then
        Some [Rpn.x; Rpn.y; Rpn.sub; Rpn.x; Rpn.num neutral; Rpn.sub; Rpn.mul;
              Rpn.num 0; Rpn.lt;
              Rpn.x; Rpn.y; Rpn.sub; Rpn.abs; Rpn.x; Rpn.num neutral; Rpn.sub;
              Rpn.abs; Rpn.lt; Rpn.or_; Rpn.num peak; Rpn.num 0; Rpn.tern]
      else None in
    exprs <- collect
               (fun i => if existsb (Z.eqb i) (sbr_planes clip planes)
                         then expr else Some [])
               (range 0 (Z.of_nat (fmt_num_planes (format clip)))) ;;
    node_Expr [fst d; snd d] exprs.
Proof.
  unfold sbr_detail, sbr_diffs. fold (sbr_planes clip planes).
  fold (sbr_levels (format clip)).
  destruct (sbr_levels (format clip)) as [np|]; cbn [bind]; [|reflexivity].
  destruct (std_Convolution clip _ 0 0 _ mode_s) as [c1|];
    cbn [bind]; [|reflexivity].
  destruct (for_each _ _ c1) as [c2|]; cbn [bind]; [|reflexivity].
  destruct (std_MakeDiff clip c2 _) as [c3|]; cbn [bind]; [|reflexivity].
  destruct (std_Convolution c3 _ 0 0 _ mode_s) as [c4|];
    cbn [bind]; [|reflexivity].
  destruct (for_each _ _ c4) as [c5|]; cbn [bind fst snd]; reflexivity.
Qed.

Lemma sbr_levels_ok (f : video_format) :
  (fmt_sample_type f = INTEGER -> (1 <= fmt_bits_per_sample f)%Z) ->
  exists neutral peak, sbr_levels f = Some (neutral, peak) /\ 0 < peak.
Proof.
  intros Hb. unfold sbr_levels, py_lshift.
  destruct (fmt_sample_type f).
  - specialize (Hb eq_refl).
    destruct (Z.ltb_spec (fmt_bits_per_sample f - 1) 0); [lia|].
    destruct (Z.ltb_spec (fmt_bits_per_sample f) 0); [lia|].
    cbn [bind]. eexists. eexists. split; [reflexivity|].
    rewrite Z.shiftl_1_l. apply IZR_lt.
    assert (2 ^ 1 <= 2 ^ fmt_bits_per_sample f)%Z
      by (apply Z.pow_le_mono_r; lia).
    lia.
  - eexists. eexists. split; [reflexivity | lra].
Qed.

Lemma sbr_detail_frame (clip : node) (r : Z) (planes : py_planes) (mode : Z)
  (RG11D RG11DS : node) (neutral peak : R) :
  (0 <= mode <= 2)%Z ->
  sbr_levels (format clip) = Some (neutral, peak) ->
  sbr_diffs clip r (sbr_planes clip planes) = Some (RG11D, RG11DS) ->
  (1 <= fmt_num_planes (format clip) <= fmt_num_planes (format RG11D))%nat ->
  exists out,
    sbr_detail clip r planes mode = Some out /\
    forall n p s, (p < fmt_num_planes (format clip))%nat ->
      sample out n p s
      = if existsb (Z.eqb (Z.of_nat p)) (sbr_planes clip planes)
        then store (format RG11D)
               (if sbr_test mode neutral (sample RG11D n p s)
                     (sample RG11DS n p s)
                then peak else 0)
        else sample RG11D n p s.
Proof.
  intros Hmode Hlev Hd HN. rewrite sbr_detail_split, Hlev, Hd.
  cbn [bind fst snd].
  assert (Hm : mode = 0%Z \/ mode = 1%Z \/ mode = 2%Z) by lia.
  destruct Hm as [-> | [-> | ->]]; cbn [Z.eqb Pos.eqb].
  all: match goal with
       | |- context [collect (fun i => if _ then Some ?prog else Some [])] =>
           rewrite (collect_map _
                      (fun i => if existsb (Z.eqb i) (sbr_planes clip planes)
                                then prog else []))
             by (intros i _; destruct (existsb _ _); reflexivity);
           cbn [bind];
           destruct (node_Expr_listed RG11D [RG11DS]
                       (fun i => existsb (Z.eqb i) (sbr_planes clip planes))
                       prog _ (fmt_num_planes (format clip))
                       ltac:(discriminate) ltac:(reflexivity) HN)
             as (out & Hout & Hs)
       end.
  all: exists out; split; [exact Hout|]; intros n p s Hp;
    rewrite (Hs n p s Hp);
    destruct (existsb _ _); [|reflexivity]; f_equal;
    unfold sbr_test;
    cbn [map Rpn.denote Rpn.denote_bin Rpn.denote_un nth Z.eqb Pos.eqb];
    rewrite ?truth_of_bool;
    repeat destruct (Rlt_dec _ _); reflexivity.
Qed.

(** The mask: in a listed plane every sample is the stored peak where the
    test of the mode holds and the stored 0 elsewhere, and mode 2 tests
    for either of what modes 0 and 1 test for; a plane that is not listed
    is the plane of the difference clip. *)
Theorem sbr_detail_mask (clip : node) (r : Z) (planes : py_planes) (mode : Z)
  (RG11D RG11DS : node) :
  (0 <= mode <= 2)%Z ->
  (fmt_sample_type (format clip) = INTEGER ->
   (1 <= fmt_bits_per_sample (format clip))%Z) ->
  sbr_diffs clip r (sbr_planes clip planes) = Some (RG11D, RG11DS) ->
  (1 <= fmt_num_planes (format clip) <= fmt_num_planes (format RG11D))%nat ->
  exists out neutral peak,
    sbr_levels (format clip) = Some (neutral, peak) /\
    0 < peak /\
    sbr_detail clip r planes mode = Some out /\
    forall n p s, (p < fmt_num_planes (format clip))%nat ->
      let x := sample RG11D n p s in
      let y := sample RG11DS n p s in
      (sbr_test 2 neutral x y
       = sbr_test 0 neutral x y || sbr_test 1 neutral x y) /\
      sample out n p s
      = if existsb (Z.eqb (Z.of_nat p)) (sbr_planes clip planes)
        then store (format RG11D)
               (if sbr_test mode neutral x y then peak else 0)
        else x.
Proof.
  intros Hmode Hb Hd HN.
  destruct (sbr_levels_ok (format clip) Hb) as (neutral & peak & Hlev & Hpk).
  destruct (sbr_detail_frame clip r planes mode RG11D RG11DS neutral peak
              Hmode Hlev Hd HN) as (out & Hout & Hs).
  exists out, neutral, peak.
  split; [exact Hlev|]. split; [exact Hpk|]. split; [exact Hout|].
  intros n p s Hp x y. split; [reflexivity | apply Hs; exact Hp].
Qed.

(** A call that gets as far as the mask has listed a plane of the clip:
    [std.Convolution] refuses an empty list and an index out of range. *)
Lemma sbr_diffs_listed (clip : node) (r : Z) (planes : list Z)
  (d : node * node) :
  sbr_diffs clip r planes = Some d ->
  exists i, In i planes /\
            (0 <= i < Z.of_nat (fmt_num_planes (format clip)))%Z.
Proof.
  unfold sbr_diffs. unfold std_Convolution at 1.
  cbn [length offsets Nat.eqb bind].
  destruct (planes_arg (format clip) (Some planes)) as [processed|] eqn:Hp;
    [|discriminate].
  intros _. unfold planes_arg in Hp.
  destruct planes as [|i rest]; [discriminate|].
  destruct (forallb _ (i :: rest)) eqn:Hall; [|discriminate].
  exists i. split; [now left|].
  cbn [forallb] in Hall. apply andb_prop in Hall. destruct Hall as [Hi _].
  lia.
Qed.

(** A mode other than 0, 1 and 2 always ends in an error, though the mode
    is never looked at as such: either [std.Convolution] refuses the list
    of planes, or something it calls raises, or the list holds a plane of
    the clip and [expr] is unbound when the expressions are put
    together. *)
Theorem sbr_detail_unbound_mode (clip : node) (r : Z) (planes : py_planes)
  (mode : Z) :
  ~ (0 <= mode <= 2)%Z ->
  sbr_detail clip r planes mode = None.
Proof.
  intros Hmode. rewrite sbr_detail_split.
  destruct (sbr_levels (format clip)) as [np|]; cbn [bind]; [|reflexivity].
  destruct (sbr_diffs clip r (sbr_planes clip planes)) as [d|] eqn:Hd;
    cbn [bind]; [|reflexivity].
  destruct (sbr_diffs_listed _ _ _ _ Hd) as (i & Hin & Hi).
  destruct (Z.eqb_spec mode 0) as [|_]; [lia|].
  destruct (Z.eqb_spec mode 1) as [|_]; [lia|].
  destruct (Z.eqb_spec mode 2) as [|_]; [lia|].
  match goal with
  | |- bind ?c _ = None => assert (Hc : c = None)
  end.
  { apply collect_none. exists i. split; [apply in_range; lia|].
    replace (existsb (Z.eqb i) (sbr_planes clip planes)) with true;
      [reflexivity|].
    symmetry. apply existsb_exists. exists i.
    split; [exact Hin | apply Z.eqb_refl]. }
  rewrite Hc. reflexivity.
Qed.

End SbrFacts.

Lemma sbr_detail_mask_witness :
  exists out,
    sbr_detail (core := line_core) grey_clip 1 planes_None 1 = Some out.
Proof.
  assert (Hd : exists a b,
             sbr_diffs (core := line_core) grey_clip 1
               (sbr_planes grey_clip planes_None) = Some (a, b)
             /\ format a = gray8).
  { eexists. eexists. split; reflexivity. }
  destruct Hd as (a & b & Hd & Hf).
  destruct (sbr_detail_mask (core := line_core) grey_clip 1 planes_None 1 a b)
    as (out & _ & _ & _ & _ & Hout & _).
  - lia.
  - intros _. cbn. lia.
  - exact Hd.
  - rewrite Hf. cbn. lia.
  - exists out. exact Hout.
Defined.

(** Mode 3 with the default planes. *)
Lemma sbr_detail_unbound_mode_witness :
  sbr_detail (core := line_core) grey_clip 1 planes_None 3 = None.
Proof.
  apply (sbr_detail_unbound_mode (core := line_core) grey_clip 1 planes_None 3).
  lia.
Defined.

(** ** [std.Convolution], [BernsteinFilter] and [tv] *)

Lemma range0_snoc (k : nat) :
  range 0 (Z.of_nat (S k)) = range 0 (Z.of_nat k) ++ [Z.of_nat k].
Proof.
  unfold range.
  replace (Z.to_nat (Z.of_nat (S k) - 0)) with (S k) by lia.
  replace (Z.to_nat (Z.of_nat k - 0)) with k by lia.
  rewrite seq_S, map_app. reflexivity.
Qed.

(** A loop whose body does not look at its index. *)
Lemma for_each_range_S {S : Type} (body : S -> option S) (k : nat) (s : S) :
  for_each (range 0 (Z.of_nat (Datatypes.S k))) (fun _ => body) s
  = s' <- for_each (range 0 (Z.of_nat k)) (fun _ => body) s ;; body s'.
Proof.
  rewrite range0_snoc, for_each_app.
  destruct (for_each _ _ s) as [s'|]; cbn [bind for_each]; [|reflexivity].
  destruct (body s'); reflexivity.
Qed.

Lemma range_to_nat (iter : Z) :
  range 0 iter = range 0 (Z.of_nat (Z.to_nat iter)).
Proof. unfold range. do 2 f_equal. lia. Qed.

Section ConvolutionFacts.

Context {V : Frames} {P : Plugins} {core : Core}.

Lemma offsets_h3 :
  offsets mode_h 3 = Some [((-1)%Z, 0%Z); (0%Z, 0%Z); (1%Z, 0%Z)].
Proof. reflexivity. Qed.

Lemma offsets_v3 :
  offsets mode_v 3 = Some [(0%Z, (-1)%Z); (0%Z, 0%Z); (0%Z, 1%Z)].
Proof. reflexivity. Qed.

Lemma offsets_s9 :
  offsets mode_s 9
  = Some [((-1)%Z, (-1)%Z); (0%Z, (-1)%Z); (1%Z, (-1)%Z);
          ((-1)%Z, 0%Z); (0%Z, 0%Z); (1%Z, 0%Z);
          ((-1)%Z, 1%Z); (0%Z, 1%Z); (1%Z, 1%Z)].
Proof. reflexivity. Qed.

(** Three taps along a row, every plane, a divisor that is not 0. *)
Lemma Convolution_h3 (clip : node) (m0 m1 m2 bias divisor : R) :
  divisor <> 0 ->
  exists out,
    std_Convolution clip [m0; m1; m2] bias divisor None mode_h = Some out /\
    format out = format clip /\
    forall n p s,
      sample out n p s
      = store (format clip)
          ((m0 * sample clip n p (tap (-1) 0 s) + m1 * sample clip n p s
            + m2 * sample clip n p (tap 1 0 s)) / divisor + bias).
Proof.
  intros Hd. unfold std_Convolution. cbn [length].
  rewrite offsets_h3. cbn [bind planes_arg].
  destruct (Req_dec_T divisor 0) as [|_]; [contradiction|].
  eexists. split; [reflexivity|]. split; [reflexivity|].
  intros n p s. cbn [sample weighted List.combine fold_right fst snd].
  rewrite tap_0. f_equal. field. exact Hd.
Qed.

(** Three taps along a column. *)
Lemma Convolution_v3 (clip : node) (m0 m1 m2 bias divisor : R) :
  divisor <> 0 ->
  exists out,
    std_Convolution clip [m0; m1; m2] bias divisor None mode_v = Some out /\
    format out = format clip /\
    forall n p s,
      sample out n p s
      = store (format clip)
          ((m0 * sample clip n p (tap 0 (-1) s) + m1 * sample clip n p s
            + m2 * sample clip n p (tap 0 1 s)) / divisor + bias).
Proof.
  intros Hd. unfold std_Convolution. cbn [length].
  rewrite offsets_v3. cbn [bind planes_arg].
  destruct (Req_dec_T divisor 0) as [|_]; [contradiction|].
  eexists. split; [reflexivity|]. split; [reflexivity|].
  intros n p s. cbn [sample weighted List.combine fold_right fst snd].
  rewrite tap_0. f_equal. field. exact Hd.
Qed.

(** The body of the loop of [BernsteinFilter]. *)
Lemma Bernstein_body (clip : node) :
  (forall v, store (format clip) v = v) ->
  (1 <= fmt_num_planes (format clip))%nat ->
  exists out,
    (d1 <- std_Convolution clip [1; -2; 1] 0 2 None mode_h ;;
     d2 <- std_Convolution clip [1; -2; 1] 0 2 None mode_v ;;
     node_Expr [clip; d1; d2]
       [[Rpn.y; Rpn.abs; Rpn.z; Rpn.abs; Rpn.lt;
         Rpn.x; Rpn.y; Rpn.add; Rpn.x; Rpn.z; Rpn.add; Rpn.tern]])
    = Some out /\
    format out = format clip /\
    forall n p s, sample out n p s = Bernstein_pass (sample clip n p) s.
Proof.
  intros Hstore Hp.
  destruct (Convolution_h3 clip 1 (-2) 1 0 2 ltac:(lra))
    as (d1 & H1 & _ & Hs1).
  destruct (Convolution_v3 clip 1 (-2) 1 0 2 ltac:(lra))
    as (d2 & H2 & _ & Hs2).
  rewrite H1. cbn [bind]. rewrite H2. cbn [bind].
  run_expr Hp. exists out. split; [exact Hout|]. split; [exact Hfmt|].
  intros n p s. rewrite Hs, Hstore.
  cbn [map Rpn.denote Rpn.denote_bin Rpn.denote_un nth].
  rewrite truth_of_bool, Hs1, Hs2, !Hstore.
  unfold Bernstein_pass. cbv zeta.
  set (x := sample clip n p s).
  set (l := sample clip n p (tap (-1) 0 s)).
  set (r := sample clip n p (tap 1 0 s)).
  set (u := sample clip n p (tap 0 (-1) s)).
  set (d := sample clip n p (tap 0 1 s)).
  replace ((1 * l + -2 * x + 1 * r) / 2 + 0) with ((l + r) / 2 - x) by field.
  replace ((1 * u + -2 * x + 1 * d) / 2 + 0) with ((u + d) / 2 - x) by field.
  destruct (Rlt_dec _ _); ring.
Qed.

Lemma Bernstein_loop (clip : node) (k : nat) :
  (forall v, store (format clip) v = v) ->
  (1 <= fmt_num_planes (format clip))%nat ->
  exists out,
    for_each (range 0 (Z.of_nat k))
      (fun _ clip =>
         d1 <- std_Convolution clip [1; -2; 1] 0 2 None mode_h ;;
         d2 <- std_Convolution clip [1; -2; 1] 0 2 None mode_v ;;
         node_Expr [clip; d1; d2]
           [[Rpn.y; Rpn.abs; Rpn.z; Rpn.abs; Rpn.lt;
             Rpn.x; Rpn.y; Rpn.add; Rpn.x; Rpn.z; Rpn.add; Rpn.tern]])
      clip
    = Some out /\
    format out = format clip /\
    forall n p s,
      sample out n p s = Nat.iter k Bernstein_pass (sample clip n p) s.
Proof.
  intros Hstore Hp. induction k as [|k IH].
  - exists clip. split; [reflexivity|]. split; reflexivity.
  - destruct IH as (mid & Hmid & Hfm & Hsm).
    rewrite for_each_range_S, Hmid. cbn [bind].
    destruct (Bernstein_body mid) as (out & Hout & Hfo & Hso).
    + intros v. rewrite Hfm. apply Hstore.
    + rewrite Hfm. exact Hp.
    + exists out. split; [exact Hout|]. split; [congruence|].
      intros n p s. rewrite Hso. cbn [Nat.iter].
      replace (sample mid n p)
        with (Nat.iter k Bernstein_pass (sample clip n p))
        by (apply functional_extensionality; intros t; symmetry; apply Hsm).
      reflexivity.
Qed.

Lemma BernsteinFilter_run (clip : node) (iter : Z) (depth_args : depth_kwargs)
  (clip32 : node) :
  mvf_Depth clip 32 FLOAT depth_args = Some clip32 ->
  (forall v, store (format clip32) v = v) ->
  (1 <= fmt_num_planes (format clip32))%nat ->
  exists res,
    BernsteinFilter clip iter depth_args
    = mvf_Depth res (fmt_bits_per_sample (format clip))
        (fmt_sample_type (format clip)) depth_args /\
    format res = format clip32 /\
    forall n p s,
      sample res n p s
      = Nat.iter (Z.to_nat iter) Bernstein_pass (sample clip32 n p) s.
Proof.
  intros Hd Hstore Hp. unfold BernsteinFilter. rewrite Hd. cbn [bind].
  rewrite range_to_nat.
  destruct (Bernstein_loop clip32 (Z.to_nat iter) Hstore Hp)
    as (res & Hres & Hf & Hs).
  rewrite Hres. cbn [bind]. exists res.
  split; [reflexivity|]. split; [exact Hf | exact Hs].
Qed.

Lemma Bernstein_pass_bounds (u : spot -> R) (lo hi : R) :
  (forall s, lo <= u s <= hi) ->
  forall s, lo <= Bernstein_pass u s <= hi.
Proof.
  intros Hu s. unfold Bernstein_pass. cbv zeta.
  pose proof (Hu (tap (-1) 0 s)). pose proof (Hu (tap 1 0 s)).
  pose proof (Hu (tap 0 (-1) s)). pose proof (Hu (tap 0 1 s)).
  destruct (Rlt_dec _ _); lra.
Qed.

Lemma Bernstein_iter_bounds (k : nat) (u : spot -> R) (lo hi : R) :
  (forall s, lo <= u s <= hi) ->
  forall s, lo <= Nat.iter k Bernstein_pass u s <= hi.
Proof.
  intros Hu. induction k as [|k IH]; [exact Hu|].
  cbn [Nat.iter]. apply Bernstein_pass_bounds. exact IH.
Qed.

(** Between the two conversions, [BernsteinFilter] applies one pass
    [iter] times: each replaces every sample by the mean of its two
    horizontal or of its two vertical neighbours, whichever is closer to
    it.  No pass is made for [iter <= 0]. *)
Theorem BernsteinFilter_passes (clip : node) (iter : Z)
  (depth_args : depth_kwargs) (clip32 : node) :
  mvf_Depth clip 32 FLOAT depth_args = Some clip32 ->
  (forall v, store (format clip32) v = v) ->
  (1 <= fmt_num_planes (format clip32))%nat ->
  exists res,
    BernsteinFilter clip iter depth_args
    = mvf_Depth res (fmt_bits_per_sample (format clip))
        (fmt_sample_type (format clip)) depth_args /\
    forall n p s,
      sample res n p s
      = Nat.iter (Z.to_nat iter) Bernstein_pass (sample clip32 n p) s.
Proof.
  intros Hd Hstore Hp.
  destruct (BernsteinFilter_run clip iter depth_args clip32 Hd Hstore Hp)
    as (res & Hres & _ & Hs).
  exists res. split; [exact Hres | exact Hs].
Qed.

(** A flat float clip passes through unchanged, whatever the number of
    passes: both second differences of a flat plane are 0, exactly so in
    the engine's floats as well, and a pass adds one of them to the
    sample. *)
Theorem BernsteinFilter_flat (clip : node) (iter : Z)
  (depth_args : depth_kwargs) (clip32 : node) :
  mvf_Depth clip 32 FLOAT depth_args = Some clip32 ->
  (forall v, store (format clip32) v = v) ->
  (1 <= fmt_num_planes (format clip32))%nat ->
  (forall n p s t, sample clip32 n p s = sample clip32 n p t) ->
  exists res,
    BernsteinFilter clip iter depth_args
    = mvf_Depth res (fmt_bits_per_sample (format clip))
        (fmt_sample_type (format clip)) depth_args /\
    format res = format clip32 /\
    forall n p s, sample res n p s = sample clip32 n p s.
Proof.
  intros Hd Hstore Hp Hflat.
  destruct (BernsteinFilter_run clip iter depth_args clip32 Hd Hstore Hp)
    as (res & Hres & Hf & Hs).
  exists res. split; [exact Hres|]. split; [exact Hf|].
  intros n p s. rewrite Hs.
  pose proof (Bernstein_iter_bounds (Z.to_nat iter) (sample clip32 n p)
                (sample clip32 n p s) (sample clip32 n p s)) as Hb.
  assert (Hu : forall t, sample clip32 n p s <= sample clip32 n p t
                         <= sample clip32 n p s)
    by (intros t; rewrite (Hflat n p t s); lra).
  specialize (Hb Hu s). lra.
Qed.

(** Nine taps in a square. *)
Lemma Convolution_s9 (clip : node) (m0 m1 m2 m3 m4 m5 m6 m7 m8 : R)
  (bias divisor : R) :
  divisor <> 0 ->
  exists out,
    std_Convolution clip [m0; m1; m2; m3; m4; m5; m6; m7; m8] bias divisor
      None mode_s = Some out /\
    format out = format clip /\
    forall n p s,
      sample out n p s
      = store (format clip)
          ((m0 * sample clip n p (tap (-1) (-1) s)
            + m1 * sample clip n p (tap 0 (-1) s)
            + m2 * sample clip n p (tap 1 (-1) s)
            + m3 * sample clip n p (tap (-1) 0 s)
            + m4 * sample clip n p s
            + m5 * sample clip n p (tap 1 0 s)
            + m6 * sample clip n p (tap (-1) 1 s)
            + m7 * sample clip n p (tap 0 1 s)
            + m8 * sample clip n p (tap 1 1 s)) / divisor + bias).
Proof.
  intros Hd. unfold std_Convolution. cbn [length].
  rewrite offsets_s9. cbn [bind planes_arg].
  destruct (Req_dec_T divisor 0) as [|_]; [contradiction|].
  eexists. split; [reflexivity|]. split; [reflexivity|].
  intros n p s. cbn [sample weighted List.combine fold_right fst snd].
  rewrite tap_0. f_equal. field. exact Hd.
Qed.

Lemma for_each_ext {I S : Type} (xs : list I) (f g : I -> S -> option S)
  (s : S) :
  (forall i t, f i t = g i t) -> for_each xs f s = for_each xs g s.
Proof.
  intros H. revert s. induction xs as [|i xs IH]; intros s; [reflexivity|].
  cbn [for_each]. rewrite H. destruct (g i s); cbn [bind]; [apply IH|].
  reflexivity.
Qed.

(** With [lam = 0], the default, neither [I0] nor [C] has any effect. *)
Theorem tv_no_fidelity (I : node) (iter : Z) (dt : option R) (ep : R)
  (I0 : option node) (C : R) :
  tv I iter dt ep 0 I0 C = tv I iter dt ep 0 None 0.
Proof.
  unfold tv. apply for_each_ext. intros _ J.
  destruct (std_Convolution J [-1; 0; 1] _ 2 None mode_h) as [I_x|];
    cbn [bind]; [|reflexivity].
  destruct (std_Convolution J [-1; 0; 1] _ 2 None mode_v) as [I_y|];
    cbn [bind]; [|reflexivity].
  destruct (std_Convolution J [1; -2; 1] _ _ None mode_h) as [I_xx|];
    cbn [bind]; [|reflexivity].
  destruct (std_Convolution J [1; -2; 1] _ _ None mode_v) as [I_yy|];
    cbn [bind]; [|reflexivity].
  destruct (std_Convolution J _ 0 2 None mode_s) as [Dp|];
    cbn [bind]; [|reflexivity].
  destruct (std_Convolution J _ 0 2 None mode_s) as [Dm|];
    cbn [bind]; [|reflexivity].
  destruct (node_Expr [Dp; Dm] _) as [I_xy|]; cbn [bind]; [|reflexivity].
  unfold node_Expr.
  destruct (fmt_num_planes (format J) <? _)%nat; [reflexivity|].
  destruct (sample_type_eqb (fmt_sample_type (format I)) FLOAT).
  all: cbn [length collect compile_plane Rpn.rpn for_each Rpn.step
            Rpn.binary Rpn.unary Rpn.x Rpn.y Rpn.z Rpn.a Rpn.b Rpn.c Rpn.d
            Rpn.dup nth_error Nat.ltb Nat.leb bind].
  all: do 2 f_equal.
  all: apply functional_extensionality; intros n.
  all: apply functional_extensionality; intros p.
  all: apply functional_extensionality; intros s.
  all: rewrite !plane_choice_1.
  all: cbn [map Rpn.denote Rpn.denote_bin Rpn.denote_un nth].
  all: f_equal; ring.
Qed.

(** The body of the loop of [tv] on a flat float clip. *)
Lemma tv_body_flat (J I0 : node) (dt ep C : R) :
  (forall v, store (format J) v = v) ->
  (1 <= fmt_num_planes (format J))%nat ->
  (forall n p s t, sample J n p s = sample J n p t) ->
  exists out,
    (I_x <- std_Convolution J [-1; 0; 1] 0 2 None mode_h ;;
     I_y <- std_Convolution J [-1; 0; 1] 0 2 None mode_v ;;
     I_xx <- std_Convolution J [1; -2; 1] 0 1 None mode_h ;;
     I_yy <- std_Convolution J [1; -2; 1] 0 1 None mode_v ;;
     Dp <- std_Convolution J [1; 0; 0; 0; 0; 0; 0; 0; 1] 0 2 None mode_s ;;
     Dm <- std_Convolution J [0; 0; 1; 0; 0; 0; 1; 0; 0] 0 2 None mode_s ;;
     I_xy <- node_Expr [Dp; Dm]
               [[Rpn.x; Rpn.y; Rpn.sub; Rpn.num 2; Rpn.div;
                 Rpn.num 0; Rpn.add]] ;;
     node_Expr [J; I_x; I_y; I_xx; I_xy; I_yy; I0]
       [[Rpn.x; Rpn.num dt;
         Rpn.a; Rpn.num (ep * ep); Rpn.z; Rpn.dup; Rpn.mul; Rpn.add; Rpn.mul;
         Rpn.num 2; Rpn.y; Rpn.mul; Rpn.z; Rpn.mul; Rpn.b; Rpn.mul;
         Rpn.sub;
         Rpn.c; Rpn.num (ep * ep); Rpn.y; Rpn.dup; Rpn.mul; Rpn.add; Rpn.mul;
         Rpn.add;
         Rpn.num (ep * ep); Rpn.y; Rpn.dup; Rpn.mul; Rpn.add;
         Rpn.z; Rpn.dup; Rpn.mul; Rpn.add; Rpn.num 1.5; Rpn.pow; Rpn.div;
         Rpn.num 0; Rpn.d; Rpn.x; Rpn.sub; Rpn.num C; Rpn.add; Rpn.mul;
         Rpn.add; Rpn.mul; Rpn.add]])
    = Some out /\
    format out = format J /\
    forall n p s, sample out n p s = sample J n p s.
Proof.
  intros Hstore Hp Hflat.
  destruct (Convolution_h3 J (-1) 0 1 0 2 ltac:(lra)) as (I_x & H1 & _ & S1).
  destruct (Convolution_v3 J (-1) 0 1 0 2 ltac:(lra)) as (I_y & H2 & _ & S2).
  destruct (Convolution_h3 J 1 (-2) 1 0 1 ltac:(lra)) as (I_xx & H3 & _ & S3).
  destruct (Convolution_v3 J 1 (-2) 1 0 1 ltac:(lra)) as (I_yy & H4 & _ & S4).
  destruct (Convolution_s9 J 1 0 0 0 0 0 0 0 1 0 2 ltac:(lra))
    as (Dp & H5 & F5 & S5).
  destruct (Convolution_s9 J 0 0 1 0 0 0 1 0 0 0 2 ltac:(lra))
    as (Dm & H6 & _ & S6).
  rewrite H1. cbn [bind]. rewrite H2. cbn [bind].
  rewrite H3. cbn [bind]. rewrite H4. cbn [bind].
  rewrite H5. cbn [bind]. rewrite H6. cbn [bind].
  destruct (node_Expr_one Dp [Dm]
              [Rpn.x; Rpn.y; Rpn.sub; Rpn.num 2; Rpn.div; Rpn.num 0; Rpn.add]
              _ ltac:(discriminate) ltac:(reflexivity)
              ltac:(rewrite F5; exact Hp))
    as (I_xy & H7 & _ & _ & S7).
  rewrite H7. cbn [bind].
  run_expr Hp. exists out. split; [exact Hout|]. split; [exact Hfmt|].
  intros n p s. rewrite Hs, Hstore.
  cbn [map Rpn.denote Rpn.denote_bin Rpn.denote_un nth].
  rewrite S1, S2, S3, S4, S7.
  cbn [map Rpn.denote Rpn.denote_bin Rpn.denote_un nth].
  rewrite S5, S6, F5, !Hstore.
  rewrite !(Hflat n p (tap _ _ s) s).
  set (x := sample J n p s).
  replace ((-1 * x + 0 * x + 1 * x) / 2 + 0) with 0 by field.
  replace ((1 * x + -2 * x + 1 * x) / 1 + 0) with 0 by field.
  replace ((1 * x + 0 * x + 0 * x + 0 * x + 0 * x + 0 * x + 0 * x + 0 * x
            + 1 * x) / 2 + 0) with x by field.
  replace ((0 * x + 0 * x + 1 * x + 0 * x + 0 * x + 0 * x + 1 * x + 0 * x
            + 0 * x) / 2 + 0) with x by field.
  unfold Rdiv. ring.
Qed.

Lemma tv_flat_loop (I I0 : node) (k : nat) (dt ep C : R) :
  (forall v, store (format I) v = v) ->
  (1 <= fmt_num_planes (format I))%nat ->
  (forall n p s t, sample I n p s = sample I n p t) ->
  exists out,
    for_each (range 0 (Z.of_nat k))
      (fun _ J =>
         I_x <- std_Convolution J [-1; 0; 1] 0 2 None mode_h ;;
         I_y <- std_Convolution J [-1; 0; 1] 0 2 None mode_v ;;
         I_xx <- std_Convolution J [1; -2; 1] 0 1 None mode_h ;;
         I_yy <- std_Convolution J [1; -2; 1] 0 1 None mode_v ;;
         Dp <- std_Convolution J [1; 0; 0; 0; 0; 0; 0; 0; 1] 0 2 None mode_s ;;
         Dm <- std_Convolution J [0; 0; 1; 0; 0; 0; 1; 0; 0] 0 2 None mode_s ;;
         I_xy <- node_Expr [Dp; Dm]
                   [[Rpn.x; Rpn.y; Rpn.sub; Rpn.num 2; Rpn.div;
                     Rpn.num 0; Rpn.add]] ;;
         node_Expr [J; I_x; I_y; I_xx; I_xy; I_yy; I0]
           [[Rpn.x; Rpn.num dt;
             Rpn.a; Rpn.num (ep * ep); Rpn.z; Rpn.dup; Rpn.mul; Rpn.add;
             Rpn.mul;
             Rpn.num 2; Rpn.y; Rpn.mul; Rpn.z; Rpn.mul; Rpn.b; Rpn.mul;
             Rpn.sub;
             Rpn.c; Rpn.num (ep * ep); Rpn.y; Rpn.dup; Rpn.mul; Rpn.add;
             Rpn.mul; Rpn.add;
             Rpn.num (ep * ep); Rpn.y; Rpn.dup; Rpn.mul; Rpn.add;
             Rpn.z; Rpn.dup; Rpn.mul; Rpn.add; Rpn.num 1.5; Rpn.pow; Rpn.div;
             Rpn.num 0; Rpn.d; Rpn.x; Rpn.sub; Rpn.num C; Rpn.add; Rpn.mul;
             Rpn.add; Rpn.mul; Rpn.add]])
      I
    = Some out /\
    format out = format I /\
    forall n p s, sample out n p s = sample I n p s.
Proof.
  intros Hstore Hp Hflat. induction k as [|k IH].
  - exists I. split; [reflexivity|]. split; reflexivity.
  - destruct IH as (mid & Hmid & Hfm & Hsm).
    rewrite for_each_range_S, Hmid. cbn [bind].
    destruct (tv_body_flat mid I0 dt ep C) as (out & Hout & Hfo & Hso).
    + intros v. rewrite Hfm. apply Hstore.
    + rewrite Hfm. exact Hp.
    + intros n p s t. rewrite !Hsm. apply Hflat.
    + exists out. split; [exact Hout|]. split; [congruence|].
      intros n p s. rewrite Hso. apply Hsm.
Qed.

(** A flat float clip is left as it is, whatever the number of
    iterations and the time step, as long as [lam = 0]; [ep = 0] is left
    out, where the expression divides 0 by 0. *)
Theorem tv_flat (I : node) (iter : Z) (dt : option R) (ep : R)
  (I0 : option node) (C : R) :
  fmt_sample_type (format I) = FLOAT ->
  (forall v, store (format I) v = v) ->
  (1 <= fmt_num_planes (format I))%nat ->
  (forall n p s t, sample I n p s = sample I n p t) ->
  ep <> 0 ->
  exists out,
    tv I iter dt ep 0 I0 C = Some out /\
    format out = format I /\
    forall n p s, sample out n p s = sample I n p s.
Proof.
  intros Hfloat Hstore Hp Hflat _. unfold tv. rewrite Hfloat.
  cbn [sample_type_eqb]. rewrite range_to_nat.
  apply tv_flat_loop; assumption.
Qed.

End ConvolutionFacts.

(** Three passes over the step. *)
Lemma BernsteinFilter_passes_witness :
  exists res,
    BernsteinFilter (core := line_core) step_node 3 tt
    = line_Depth res 32 FLOAT tt /\
    forall n p s,
      sample res n p s
      = Nat.iter 3 (Bernstein_pass (core := line_core)) (sample step32 n p) s.
Proof.
  apply (BernsteinFilter_passes (core := line_core) step_node 3 tt step32).
  - reflexivity.
  - reflexivity.
  - cbn. lia.
Defined.

(** Thirty passes over the flat clip. *)
Lemma BernsteinFilter_flat_witness :
  exists res,
    BernsteinFilter (core := line_core) flat_node 30 tt
    = line_Depth res 32 FLOAT tt /\
    format res = mk_format GRAY FLOAT 32 1 /\
    forall (n : Z) (p : nat) (s : Z), sample res n p s = IZR n.
Proof.
  apply (BernsteinFilter_flat (core := line_core) flat_node 30 tt
           (mk_node (V := line_frames) (mk_format GRAY FLOAT 32 1) 10
              (sample flat_node))).
  - reflexivity.
  - reflexivity.
  - cbn. lia.
  - reflexivity.
Defined.

Lemma tv_flat_witness :
  exists out,
    tv (P := line_plugins) (core := line_core) flat_node 5 None 1 0 None 0
    = Some out /\
    format out = grays /\
    forall n p s, sample out n p s = sample flat_node n p s.
Proof.
  apply (tv_flat (P := line_plugins) (core := line_core) flat_node 5 None 1
           None 0).
  - reflexivity.
  - reflexivity.
  - cbn. lia.
  - reflexivity.
  - lra.
Defined.

(** ** [Wiener2] *)

Section Wiener2Facts.

Context {V : Frames} {P : Plugins} {core : Core}.

Lemma Wiener2_gain_bounds (noise var : R) :
  0 < noise ->
  0 <= Wiener2_gain noise var <= 1 /\
  (var <= noise -> Wiener2_gain noise var = 0).
Proof.
  intros Hn. unfold Wiener2_gain.
  assert (Hden : 0 < Rmax var noise).
  { apply Rlt_le_trans with noise; [exact Hn | apply Rmax_r]. }
  assert (Hnum : 0 <= Rmax (var - noise) 0 <= Rmax var noise).
  { split; [apply Rmax_r|].
    apply Rmax_lub.
    - apply Rle_trans with var; [lra | apply Rmax_l].
    - lra. }
  split.
  - split.
    + apply Rmult_le_pos; [lra | left; now apply Rinv_0_lt_compat].
    + apply (Rmult_le_reg_r (Rmax var noise)); [exact Hden|].
      unfold Rdiv. rewrite Rmult_assoc, Rinv_l by lra. lra.
  - intros Hle. rewrite (Rmax_right (var - noise) 0) by lra.
    unfold Rdiv. ring.
Qed.

Lemma Wiener2_expr_frame (input32 localMean localVar : node) (noise : R) :
  (1 <= fmt_num_planes (format input32))%nat ->
  exists flt,
    node_Expr [input32; localMean; localVar] [Wiener2_expr noise] = Some flt /\
    forall n p s,
      sample flt n p s
      = store (format input32)
          (Wiener2_value noise (sample input32 n p s)
             (sample localMean n p s) (sample localVar n p s)).
Proof.
  intros Hp. unfold Wiener2_expr. run_expr Hp.
  exists out. split; [exact Hout|]. intros n p s. rewrite Hs. reflexivity.
Qed.

(** Up to the choice of the noise: the local mean, and the local variance
    as the box-filtered squares less the square of the mean. *)
Lemma Wiener2_front (input : node) (radius_v : Z) (radius_h : option Z)
  (noise : option R) (depth_args : depth_kwargs) (input32 : node) :
  let rh := match radius_h with
            | None => radius_v
            | Some radius_h => radius_h
            end in
  (fmt_num_planes (format input) <= 1)%nat ->
  mvf_Depth input 32 FLOAT depth_args = Some input32 ->
  (1 <= fmt_num_planes (format input32))%nat ->
  (forall c, exists c',
      muf_BoxFilter c (rh + 1) (radius_v + 1) = Some c' /\
      fmt_num_planes (format c') = fmt_num_planes (format c)) ->
  exists localMean squares boxed localVar,
    muf_BoxFilter input32 (rh + 1) (radius_v + 1) = Some localMean /\
    format squares = format input32 /\
    (forall n p s,
       sample squares n p s
       = store (format input32) (sample input32 n p s * sample input32 n p s))
    /\
    muf_BoxFilter squares (rh + 1) (radius_v + 1) = Some boxed /\
    (forall n p s,
       sample localVar n p s
       = store (format boxed)
           (sample boxed n p s
            - sample localMean n p s * sample localMean n p s)) /\
    Wiener2 input radius_v radius_h noise depth_args
    = match noise with
      | None =>
          mvf_Depth_frames
            (FrameEval input32
               (fun n =>
                  node_Expr [input32; localMean; localVar]
                    [Wiener2_expr (PlaneStatsAverage localVar n)]))
            (fmt_bits_per_sample (format input))
            (fmt_sample_type (format input)) depth_args
      | Some noise =>
          flt <- node_Expr [input32; localMean; localVar]
                   [Wiener2_expr noise] ;;
          res <- mvf_Depth flt (fmt_bits_per_sample (format input))
                   (fmt_sample_type (format input)) depth_args ;;
          Some (ready res)
      end.
Proof.
  intros rh Hpl Hd Hp Hbox. unfold Wiener2.
  destruct (Nat.ltb_spec 1 (fmt_num_planes (format input))) as [|_]; [lia|].
  fold rh. rewrite Hd. cbn [bind].
  destruct (Hbox input32) as (localMean & Hm & Hfm).
  rewrite Hm. cbn [bind].
  destruct (node_Expr_one input32 [] [Rpn.x; Rpn.dup; Rpn.mul] _
              ltac:(discriminate) ltac:(reflexivity) Hp)
    as (squares & Hsq & Hfs & _ & Hss).
  rewrite Hsq. cbn [bind].
  destruct (Hbox squares) as (boxed & Hb & Hfb).
  rewrite Hb. cbn [bind].
  destruct (node_Expr_one boxed [localMean]
              [Rpn.x; Rpn.y; Rpn.dup; Rpn.mul; Rpn.sub] _
              ltac:(discriminate) ltac:(reflexivity)
              ltac:(rewrite Hfb, Hfs; exact Hp))
    as (localVar & Hv & _ & _ & Hsv).
  rewrite Hv. cbn [bind].
  exists localMean, squares, boxed, localVar.
  split; [first [exact Hm | reflexivity]|]. split; [exact Hfs|].
  split; [intros n p s; rewrite Hss; reflexivity|].
  split; [exact Hb|].
  split; [intros n p s; rewrite Hsv; reflexivity|].
  destruct noise; reflexivity.
Qed.

(** With a given noise power above 0, the sample that is converted back
    is the stored value of [mean + gain * (x - mean)]: [mean] is the
    box-filtered float clip, the local variance is the box-filtered square
    of the clip less the square of the mean, and the gain
    [max(var - noise, 0) / max(var, noise)] lies between 0 and 1; it is 0,
    and the value the local mean, wherever the local variance does not
    exceed the noise. *)
Theorem Wiener2_given_noise (input : node) (radius_v : Z)
  (radius_h : option Z) (noise : R) (depth_args : depth_kwargs)
  (input32 : node) :
  let rh := match radius_h with
            | None => radius_v
            | Some radius_h => radius_h
            end in
  (fmt_num_planes (format input) <= 1)%nat ->
  mvf_Depth input 32 FLOAT depth_args = Some input32 ->
  (1 <= fmt_num_planes (format input32))%nat ->
  (forall c, exists c',
      muf_BoxFilter c (rh + 1) (radius_v + 1) = Some c' /\
      fmt_num_planes (format c') = fmt_num_planes (format c)) ->
  0 < noise ->
  exists localMean squares boxed localVar flt,
    muf_BoxFilter input32 (rh + 1) (radius_v + 1) = Some localMean /\
    format squares = format input32 /\
    (forall n p s,
       sample squares n p s
       = store (format input32) (sample input32 n p s * sample input32 n p s))
    /\
    muf_BoxFilter squares (rh + 1) (radius_v + 1) = Some boxed /\
    (forall n p s,
       sample localVar n p s
       = store (format boxed)
           (sample boxed n p s
            - sample localMean n p s * sample localMean n p s)) /\
    Wiener2 input radius_v radius_h (Some noise) depth_args
    = (res <- mvf_Depth flt (fmt_bits_per_sample (format input))
                (fmt_sample_type (format input)) depth_args ;;
       Some (ready res)) /\
    forall n p s,
      let x := sample input32 n p s in
      let mean := sample localMean n p s in
      let gain := Wiener2_gain noise (sample localVar n p s) in
      sample flt n p s = store (format input32) (mean + gain * (x - mean)) /\
      0 <= gain <= 1 /\
      (sample localVar n p s <= noise -> gain = 0).
Proof.
  intros rh Hpl Hd Hp Hbox Hn.
  destruct (Wiener2_front input radius_v radius_h (Some noise) depth_args
              input32 Hpl Hd Hp Hbox)
    as (localMean & squares & boxed & localVar & Hm & Hfs & Hss & Hb & Hsv
        & HW).
  destruct (Wiener2_expr_frame input32 localMean localVar noise Hp)
    as (flt & Hflt & Hs).
  exists localMean, squares, boxed, localVar, flt.
  split; [exact Hm|]. split; [exact Hfs|]. split; [exact Hss|].
  split; [exact Hb|]. split; [exact Hsv|].
  split; [rewrite HW, Hflt; reflexivity|].
  intros n p s x mean gain.
  split; [apply Hs|]. apply Wiener2_gain_bounds. exact Hn.
Qed.

(** Without a given noise, the average of the local variance of a frame
    takes its place: in every frame where that average is above 0, the
    sample is the stored value of [mean + gain * (x - mean)] with the gain
    [max(var - average, 0) / max(var, average)] between 0 and 1, and 0
    wherever the local variance does not exceed the average. *)
Theorem Wiener2_estimated_noise (input : node) (radius_v : Z)
  (radius_h : option Z) (depth_args : depth_kwargs) (input32 : node) :
  let rh := match radius_h with
            | None => radius_v
            | Some radius_h => radius_h
            end in
  (fmt_num_planes (format input) <= 1)%nat ->
  mvf_Depth input 32 FLOAT depth_args = Some input32 ->
  (1 <= fmt_num_planes (format input32))%nat ->
  (forall c, exists c',
      muf_BoxFilter c (rh + 1) (radius_v + 1) = Some c' /\
      fmt_num_planes (format c') = fmt_num_planes (format c)) ->
  exists localMean squares boxed localVar flt,
    muf_BoxFilter input32 (rh + 1) (radius_v + 1) = Some localMean /\
    format squares = format input32 /\
    (forall n p s,
       sample squares n p s
       = store (format input32) (sample input32 n p s * sample input32 n p s))
    /\
    muf_BoxFilter squares (rh + 1) (radius_v + 1) = Some boxed /\
    (forall n p s,
       sample localVar n p s
       = store (format boxed)
           (sample boxed n p s
            - sample localMean n p s * sample localMean n p s)) /\
    Wiener2 input radius_v radius_h None depth_args
    = mvf_Depth_frames flt (fmt_bits_per_sample (format input))
        (fmt_sample_type (format input)) depth_args /\
    forall n, 0 < PlaneStatsAverage localVar n ->
      exists fr,
        request flt n = Some fr /\
        forall p s,
          let x := sample input32 n p s in
          let mean := sample localMean n p s in
          let gain := Wiener2_gain (PlaneStatsAverage localVar n)
                        (sample localVar n p s) in
          fr p s = store (format input32) (mean + gain * (x - mean)) /\
          0 <= gain <= 1 /\
          (sample localVar n p s <= PlaneStatsAverage localVar n ->
           gain = 0).
Proof.
  intros rh Hpl Hd Hp Hbox.
  destruct (Wiener2_front input radius_v radius_h None depth_args
              input32 Hpl Hd Hp Hbox)
    as (localMean & squares & boxed & localVar & Hm & Hfs & Hss & Hb & Hsv
        & HW).
  exists localMean, squares, boxed, localVar. eexists.
  split; [exact Hm|]. split; [exact Hfs|]. split; [exact Hss|].
  split; [exact Hb|]. split; [exact Hsv|]. split; [exact HW|].
  intros n Hn. cbn [request FrameEval].
  destruct (Wiener2_expr_frame input32 localMean localVar
              (PlaneStatsAverage localVar n) Hp) as (flt & Hflt & Hs).
  rewrite Hflt. cbn [bind]. eexists. split; [reflexivity|].
  intros p s.
  split; [apply Hs|]. apply Wiener2_gain_bounds. exact Hn.
Qed.

(** A clip of more than one plane is refused before anything is called. *)
Lemma Wiener2_planes (input : node) (radius_v : Z) (radius_h : option Z)
  (noise : option R) (depth_args : depth_kwargs) :
  (1 < fmt_num_planes (format input))%nat ->
  Wiener2 input radius_v radius_h noise depth_args = None.
Proof.
  intros H. unfold Wiener2.
  destruct (Nat.ltb_spec 1 (fmt_num_planes (format input))); [reflexivity|lia].
Qed.

End Wiener2Facts.

(** The ramp with a noise power of 1: the local mean of frame [n] is [n]
    and the local variance at position [s] is [s * s]. *)
Lemma Wiener2_given_noise_witness :
  exists flt,
    Wiener2 (core := line_core) ramp_node 3 None (Some 1) tt
    = (res <- line_Depth flt 32 FLOAT tt ;; Some (ready res)) /\
    forall n p s,
      sample flt n p s
      = IZR n + Wiener2_gain 1 (IZR s * IZR s) * (IZR (n + s) - IZR n).
Proof.
  destruct (Wiener2_given_noise (core := line_core) ramp_node 3 None 1 tt
              ramp32)
    as (localMean & squares & boxed & localVar & flt & Hm & Hfs & Hss & Hb
        & Hsv & HW & Hs).
  - cbn. lia.
  - reflexivity.
  - cbn. lia.
  - intros c. exists (even_node c). split; reflexivity.
  - lra.
  - exists flt. split; [exact HW|].
    injection Hm as <-. injection Hb as <-.
    assert (Hvar : forall n p s, sample localVar n p s = IZR s * IZR s).
    { intros n p s. rewrite Hsv. cbn [format even_node]. rewrite Hfs.
      cbn [sample even_node]. unfold even_part. rewrite !Hss.
      cbn. rewrite !plus_IZR, !opp_IZR. field. }
    intros n p s. destruct (Hs n p s) as (Hv & _ & _).
    rewrite Hv, Hvar. cbn.
    replace (even_part (fun s0 : Z => IZR (n + s0)) s) with (IZR n)
      by (unfold even_part; rewrite !plus_IZR, !opp_IZR; field).
    reflexivity.
Defined.

(** The same clip with the noise estimated from its frames: the average
    of the local variance is 1 in every frame. *)
Lemma Wiener2_estimated_noise_witness :
  exists flt fr,
    Wiener2 (core := line_core) ramp_node 3 None None tt
    = line_Depth_frames flt 32 FLOAT tt /\
    request flt 0 = Some fr /\
    forall p s,
      fr p s = IZR 0 + Wiener2_gain 1 (IZR s * IZR s) * (IZR (0 + s) - IZR 0).
Proof.
  destruct (Wiener2_estimated_noise (core := line_core) ramp_node 3 None tt
              ramp32)
    as (localMean & squares & boxed & localVar & flt & Hm & Hfs & Hss & Hb
        & Hsv & HW & Hs).
  - cbn. lia.
  - reflexivity.
  - cbn. lia.
  - intros c. exists (even_node c). split; reflexivity.
  - injection Hm as <-. injection Hb as <-.
    assert (Hvar : forall n p s, sample localVar n p s = IZR s * IZR s).
    { intros n p s. rewrite Hsv. cbn [format even_node]. rewrite Hfs.
      cbn [sample even_node]. unfold even_part. rewrite !Hss.
      cbn. rewrite !plus_IZR, !opp_IZR. field. }
    assert (Havg : PlaneStatsAverage (Core := line_core) localVar 0 = 1).
    { cbn. rewrite Hvar. lra. }
    destruct (Hs 0%Z) as (fr & Hfr & Hv); [rewrite Havg; lra|].
    exists flt, fr. split; [exact HW|]. split; [exact Hfr|].
    intros p s. destruct (Hv p s) as (Hval & _ & _).
    rewrite Hval, Havg, Hvar. cbn.
    replace (even_part (fun s0 : Z => IZR s0) s) with 0
      by (unfold even_part; rewrite opp_IZR; field).
    reflexivity.
Defined.
